(** * Slack -> Micro.blog sync scripts: a shallow embedding

    The development follows [scripts/sync-bookmarks-to-microblog.js] and
    [scripts/sync-books-to-microblog.js], and the script that fetches the
    reading list from Slack, which has the parser of the second.

    - JavaScript strings are sequences of UTF-16 code units ([list N]).
    - Regular expressions are kept as syntax trees, one per regex literal of
      the sources, and run by a backtracking matcher that follows the
      ECMAScript matching order (greedy and lazy quantifiers, captures).
    - The network, the clock and the file system are explicit: every
      endpoint is a transition function on the state of the outside world,
      the time of a run is an argument of [main], the state file is a value
      of type [file], and the world tells what becomes of a write. *)

From Stdlib Require Import String Ascii List NArith Arith Bool Lia.
Import ListNotations.

Set Implicit Arguments.

(** ** JavaScript strings *)

Module JsString.

Definition cu := N.
Definition jsstring := list cu.

(** An ASCII literal of the source as code units. *)
Definition lit (s : string) : jsstring :=
  List.map N_of_ascii (list_ascii_of_string s).

Definition cu_eqb (a b : cu) : bool := N.eqb a b.

Fixpoint str_eqb (a b : jsstring) : bool :=
  match a, b with
  | [], [] => true
  | x :: a', y :: b' => cu_eqb x y && str_eqb a' b'
  | _, _ => false
  end.

(** [s.startsWith(p)] *)
Fixpoint startsWith (p s : jsstring) : bool :=
  match p, s with
  | [], _ => true
  | x :: p', y :: s' => cu_eqb x y && startsWith p' s'
  | _ :: _, [] => false
  end.

(** [s.includes(p)]: [p] occurs at some index of [s]. *)
Fixpoint includes (s p : jsstring) : bool :=
  startsWith p s ||
  match s with
  | [] => false
  | _ :: s' => includes s' p
  end.

(** [arr.includes(x)] on an array of strings. *)
Definition arr_includes (arr : list jsstring) (x : jsstring) : bool :=
  existsb (str_eqb x) arr.

(** WhiteSpace and LineTerminator code units: the set of [\s] and of
    [String.prototype.trim]. *)
Definition isLineTerminator (c : cu) : bool :=
  (c =? 10)%N || (c =? 13)%N || (c =? 0x2028)%N || (c =? 0x2029)%N.

Definition isWhiteSpace (c : cu) : bool :=
  (c =? 9)%N || (c =? 11)%N || (c =? 12)%N || (c =? 32)%N || (c =? 0xA0)%N
  || (c =? 0x1680)%N || ((0x2000 <=? c)%N && (c <=? 0x200A)%N)
  || (c =? 0x202F)%N || (c =? 0x205F)%N || (c =? 0x3000)%N || (c =? 0xFEFF)%N.

Definition isSpace (c : cu) : bool := isWhiteSpace c || isLineTerminator c.

Fixpoint trimStart (s : jsstring) : jsstring :=
  match s with
  | c :: s' => if isSpace c then trimStart s' else s
  | [] => []
  end.

Definition trimEnd (s : jsstring) : jsstring := rev (trimStart (rev s)).

Definition trim (s : jsstring) : jsstring := trimEnd (trimStart s).

(** Upper-casing of one ASCII code unit; other code units are unchanged. *)
Definition asciiUpper (c : cu) : cu :=
  if ((97 <=? c)%N && (c <=? 122)%N)%bool then (c - 32)%N else c.

(** [encodeURIComponent] throws a URIError on a string with a lone
    surrogate, and on no other: [isWellFormed] tells whether every high
    surrogate is followed by a low one, and every low one preceded by a high
    one. *)
Definition isHighSurrogate (c : cu) : bool := (0xD800 <=? c)%N && (c <=? 0xDBFF)%N.
Definition isLowSurrogate (c : cu) : bool := (0xDC00 <=? c)%N && (c <=? 0xDFFF)%N.

Fixpoint isWellFormed (s : jsstring) : bool :=
  match s with
  | [] => true
  | c :: s' =>
      if isHighSurrogate c then
        match s' with
        | d :: s'' => isLowSurrogate d && isWellFormed s''
        | [] => false
        end
      else negb (isLowSurrogate c) && isWellFormed s'
  end.

End JsString.
Import JsString.

(** ** Regular expressions *)

Module Regex.

(** The syntax of the regex literals that occur in the sources. *)
Inductive regex : Type :=
| Empty : regex
| Char (c : cu)                 (* a literal code unit *)
| Dot                           (* .      *)
| Space                         (* \s     *)
| NotIn (cs : list cu)          (* [^...] *)
| Bol                           (* ^      *)
| Eol                           (* $      *)
| Cat (r1 r2 : regex)
| Opt (r : regex)               (* r?     *)
| Star (r : regex)              (* r*     *)
| Plus (r : regex)              (* r+     *)
| PlusLazy (r : regex)          (* r+?    *)
| Group (i : nat) (r : regex).  (* the i-th capturing group *)

(** A literal string is the concatenation of its code units. *)
Fixpoint Lit (s : jsstring) : regex :=
  match s with
  | [] => Empty
  | c :: s' => Cat (Char c) (Lit s')
  end.

(** Matcher state: the index reached, the input from there on, and the
    captures set so far (most recent first). *)
Record mstate : Type := MState {
  pos : nat;
  rest : jsstring;
  caps : list (nat * jsstring)
}.

Definition cont := mstate -> option mstate.
Definition matcher := mstate -> cont -> option mstate.

(** Comparison of a pattern code unit with an input code unit.  Under the
    [i] flag both sides go through Canonicalize; for a pattern code unit
    that is ASCII, or that has no case variants (the surrogate halves of the
    book emoji), this is a comparison after ASCII upper-casing when both are
    below 128, and equality otherwise: Canonicalize never maps a code unit
    from 128 up to one below 128.  The classes [.], [\s] and [[^...]] are
    not affected by the flag ([[^...]] occurs in patterns without it only). *)
Definition char_matches (icase : bool) (c x : cu) : bool :=
  if icase && (c <? 128)%N && (x <? 128)%N
  then (asciiUpper c =? asciiUpper x)%N
  else (c =? x)%N.

(** The predicates of [.] and [[^...]]. *)
Definition notLT (x : cu) : bool := negb (isLineTerminator x).
Definition notAmong (cs : list cu) (x : cu) : bool := negb (existsb (N.eqb x) cs).

(** Consume one code unit that satisfies [p]. *)
Definition one (p : cu -> bool) : matcher :=
  fun st k =>
    match rest st with
    | x :: s' => if p x then k (MState (S (pos st)) s' (caps st)) else None
    | [] => None
    end.

(** RepeatMatcher with min = 0 and max = infinity: an iteration that
    consumes nothing is rejected.  [fuel] bounds the number of iterations;
    the length of the input that is left is enough, and more changes
    nothing (lemma [many_fuel]). *)
Fixpoint repeat (greedy : bool) (body : matcher) (fuel : nat) : matcher :=
  fun st k =>
    match fuel with
    | O => k st
    | S f =>
        let more (_ : unit) :=
          body st (fun st1 =>
            if Nat.ltb (length (rest st1)) (length (rest st))
            then repeat greedy body f st1 k
            else None) in
        if greedy then
          match more tt with
          | Some r => Some r
          | None => k st
          end
        else
          match k st with
          | Some r => Some r
          | None => more tt
          end
    end.

Definition many (greedy : bool) (body : matcher) : matcher :=
  fun st k => repeat greedy body (length (rest st)) st k.

Fixpoint rmatch (icase : bool) (r : regex) {struct r} : matcher :=
  fun st k =>
    match r with
    | Empty => k st
    | Char c => one (char_matches icase c) st k
    | Dot => one notLT st k
    | Space => one isSpace st k
    | NotIn cs => one (notAmong cs) st k
    | Bol => if Nat.eqb (pos st) 0 then k st else None
    | Eol => match rest st with [] => k st | _ :: _ => None end
    | Cat r1 r2 => rmatch icase r1 st (fun st1 => rmatch icase r2 st1 k)
    | Opt r1 =>
        match rmatch icase r1 st (fun st1 =>
                if Nat.ltb (length (rest st1)) (length (rest st))
                then k st1 else None) with
        | Some res => Some res
        | None => k st
        end
    | Star r1 => many true (rmatch icase r1) st k
    | Plus r1 => rmatch icase r1 st (fun st1 => many true (rmatch icase r1) st1 k)
    | PlusLazy r1 =>
        rmatch icase r1 st (fun st1 => many false (rmatch icase r1) st1 k)
    | Group i r1 =>
        rmatch icase r1 st (fun st1 =>
          k (MState (pos st1) (rest st1)
               ((i, firstn (pos st1 - pos st) (rest st)) :: caps st1)))
    end.

(** The result of a successful match: where it starts, where it ends, and
    its capture groups ([None] for a group that did not take part). *)
Record match_result : Type := MatchResult {
  m_index : nat;
  m_end : nat;
  m_caps : list (nat * jsstring)
}.

Fixpoint cap_lookup (i : nat) (cs : list (nat * jsstring)) : option jsstring :=
  match cs with
  | [] => None
  | (j, s) :: cs' => if Nat.eqb i j then Some s else cap_lookup i cs'
  end.

Definition group (i : nat) (m : match_result) : option jsstring :=
  cap_lookup i (m_caps m).

(** RegExpBuiltinExec from index [i]: the first start index at or after [i]
    where the pattern matches.  [s] is the input from index [i] on. *)
Fixpoint exec_from (icase : bool) (r : regex) (i : nat) (s : jsstring)
  : option match_result :=
  match rmatch icase r (MState i s []) (fun st => Some st) with
  | Some st => Some (MatchResult i (pos st) (caps st))
  | None =>
      match s with
      | [] => None
      | _ :: s' => exec_from icase r (S i) s'
      end
  end.

(** [s.match(r)] / [r.exec(s)] for a regex without the [g] flag. *)
Definition exec (icase : bool) (r : regex) (s : jsstring) : option match_result :=
  exec_from icase r 0 s.

(** [s.replace(r, '')] for a regex without the [g] flag: the first match is
    cut out. *)
Definition replace_empty (icase : bool) (r : regex) (s : jsstring) : jsstring :=
  match exec icase r s with
  | Some m => firstn (m_index m) s ++ skipn (m_end m) s
  | None => s
  end.

(** The loop [while ((match = r.exec(text)) !== null)] for a regex with the
    [g] flag and [lastIndex] = [i]: every [exec] resumes at the end of the
    previous match, and the [exec] that fails resets [lastIndex] to 0.
    [s] is the input from [lastIndex] on; [fuel] bounds the iterations (for
    [urlRegex], whose matches are not empty, the fuel of [exec_all] is
    enough: lemma [urlRegex_fuel]). *)
Fixpoint exec_loop (icase : bool) (r : regex) (fuel : nat) (i : nat) (s : jsstring)
  : list match_result :=
  match fuel with
  | O => []
  | S f =>
      match exec_from icase r i s with
      | None => []
      | Some m => m :: exec_loop icase r f (m_end m) (skipn (m_end m - i) s)
      end
  end.

Definition exec_all (icase : bool) (r : regex) (s : jsstring) : list match_result :=
  exec_loop icase r (S (length s)) 0 s.

(** *** Quantified one-code-unit matchers, by recursion on the input

    [greedy_scan] and [lazy_scan] are [many true (one p)] and
    [many false (one p)] written without fuel (lemmas [many_greedy_one] and
    [many_lazy_one]): the greedy one takes the longest run first and gives
    back one code unit at a time, the lazy one tries the continuation first
    and takes one more code unit when it fails. *)

Fixpoint greedy_scan (p : cu -> bool) (k : cont) (i : nat) (s : jsstring)
    (cs : list (nat * jsstring)) : option mstate :=
  match s with
  | x :: s' =>
      if p x then
        match greedy_scan p k (S i) s' cs with
        | Some r => Some r
        | None => k (MState i s cs)
        end
      else k (MState i s cs)
  | [] => k (MState i s cs)
  end.

Fixpoint lazy_scan (p : cu -> bool) (k : cont) (i : nat) (s : jsstring)
    (cs : list (nat * jsstring)) : option mstate :=
  match k (MState i s cs) with
  | Some r => Some r
  | None =>
      match s with
      | x :: s' => if p x then lazy_scan p k (S i) s' cs else None
      | [] => None
      end
  end.

(** The state after [n] more code units. *)
Definition after (i : nat) (s : jsstring) (cs : list (nat * jsstring)) (n : nat) : mstate :=
  MState (i + n) (skipn n s) cs.

(** [s] starts with the pattern text [p], compared as [char_matches] does. *)
Fixpoint starts (icase : bool) (p s : jsstring) : bool :=
  match p, s with
  | [], _ => true
  | c :: p', x :: s' => char_matches icase c x && starts icase p' s'
  | _ :: _, [] => false
  end.

(** [st'] is [st] after some more code units of the input, with the
    captures made on the way. *)
Definition reaches (st st' : mstate) : Prop :=
  exists n,
    n <= length (rest st) /\ pos st' = pos st + n /\ rest st' = skipn n (rest st)
    /\ exists added, caps st' = added ++ caps st.

(** A matcher that calls its continuation only on states further on. *)
Definition forward (m : matcher) : Prop :=
  forall st k res, m st k = Some res -> exists st', reaches st st' /\ k st' = Some res.

(** A matcher that does not tell apart continuations with equal results. *)
Definition proper (m : matcher) : Prop :=
  forall st k1 k2, (forall st', k1 st' = k2 st') -> m st k1 = m st k2.

(** The same state, [d] code units further in a longer input. *)
Definition shift (d : nat) (st : mstate) : mstate :=
  MState (d + pos st) (rest st) (caps st).

(** The pattern has no [^]: it matches in the same way wherever it is tried. *)
Fixpoint unanchored (r : regex) : bool :=
  match r with
  | Bol => false
  | Cat r1 r2 => unanchored r1 && unanchored r2
  | Opt r1 | Star r1 | Plus r1 | PlusLazy r1 | Group _ r1 => unanchored r1
  | _ => true
  end.

(** A match found [d] code units further. *)
Definition moved (d : nat) (m : match_result) : match_result :=
  MatchResult (d + m_index m) (d + m_end m) (m_caps m).

(** A matcher that commutes with a shift of the index. *)
Definition shiftable (m : matcher) : Prop :=
  forall d st k, m (shift d st) k = m st (fun st' => k (shift d st')).

(** A matcher that returns what its continuation returns, as it is. *)
Definition natural (m : matcher) : Prop :=
  forall (f : mstate -> mstate) st k,
    m st (fun st' => option_map f (k st')) = option_map f (m st k).

End Regex.
Import Regex.

(** ** Values shared by the scripts *)

(** A property that may be missing ([undefined]) or hold a string; the only
    falsy strings are the empty ones. *)
Definition truthy (v : option jsstring) : bool :=
  match v with
  | Some (_ :: _) => true
  | _ => false
  end.

(** [v || ''] *)
Definition or_empty (v : option jsstring) : jsstring :=
  match v with
  | Some s => s
  | None => []
  end.

(** A message of Slack's [conversations.history]. *)
Record Message : Type := {
  text : option jsstring;
  ts : option jsstring;
  bot_id : option jsstring;
  thread_ts : option jsstring;
  subtype : option jsstring
}.

(** What [conversations.history] answers: [fetch] or [response.json()]
    rejects, or the body is an object with [ok] and, possibly, [messages]. *)
Inductive SlackReply : Type :=
| SlackFetchRejects
| SlackBodyNotJson
| SlackData (ok : bool) (messages : option (list Message)).

(** The answer to a form POST: [fetch] rejects, or a response with its [ok]
    flag and whether its body parses as JSON. *)
Inductive PostReply : Type :=
| PostRejects
| PostResponse (ok : bool) (json_body : bool).

(** A JSON file of a script, as [loadState] sees the state file.  The
    script is its only writer: a text that JSON.parse accepts is taken to be
    what JSON.stringify made of a value [s], and JSON.parse gives [s] back. *)
Inductive content (S : Type) : Type :=
| NotJson                (* JSON.parse throws on the text *)
| Document (s : S).      (* the text is what JSON.stringify made of s *)

Inductive file (S : Type) : Type :=
| Absent                 (* fs.existsSync is false *)
| Unreadable             (* the file exists, fs.readFileSync throws *)
| Holds (c : content S).

Arguments NotJson {S}.
Arguments Absent {S}.
Arguments Unreadable {S}.

Definition existsSync {S} (f : file S) : bool :=
  match f with
  | Absent => false
  | _ => true
  end.

(** [inl tt] stands for a thrown exception. *)
Definition readFileSync {S} (f : file S) : unit + content S :=
  match f with
  | Holds c => inr c
  | _ => inl tt
  end.

Definition JSON_parse {S} (c : content S) : unit + S :=
  match c with
  | Document s => inr s
  | NotJson => inl tt
  end.

(** What becomes of a call of [fs.writeFileSync]: it writes the text; or it
    throws before the file is open (the path is a directory, its directory
    is not there, the file may not be written) and the file is as it was; or
    it throws once the file is open, which has emptied it, and leaves the
    beginning of the text that it got to write, on which JSON.parse throws. *)
Inductive Write : Type :=
| Written
| ThrowsUnopened
| ThrowsCutShort.

(** [fs.writeFileSync(f, JSON.stringify(s, null, 2))]: the file afterwards,
    and [inl tt] for a thrown exception. *)
Definition writeFileSync {S} (how : Write) (f : file S) (s : S) : file S * (unit + unit) :=
  match how with
  | Written => (Holds (Document s), inr tt)
  | ThrowsUnopened => (f, inl tt)
  | ThrowsCutShort => (Holds NotJson, inl tt)
  end.

(** How a run of [main] ends: the promise resolves, it rejects (an uncaught
    exception, printed by [main().catch(console.error)]), or the process
    exits through [process.exit]. *)
Inductive Ending : Type :=
| Resolved
| Rejected
| Exited (code : nat).

(** [[...new Set(xs)]]: the distinct strings of [xs] in insertion order. *)
Definition Set_add (seen : list jsstring) (x : jsstring) : list jsstring :=
  if arr_includes seen x then seen else seen ++ [x].

Definition Set_of (xs : list jsstring) : list jsstring :=
  fold_left Set_add xs [].

(** The elements of [l] whose key does not occur earlier in [l], in the
    order of [l]. *)
Definition first_occurrences {A : Type} (key : A -> jsstring) (l : list A) : list A :=
  map snd
    (filter (fun ix => negb (arr_includes (map key (firstn (fst ix) l)) (key (snd ix))))
            (combine (seq 0 (length l)) l)).

(** The same, by recursion, with the keys seen so far. *)
Fixpoint keep_new {A : Type} (key : A -> jsstring) (seen : list jsstring) (l : list A)
  : list A :=
  match l with
  | [] => []
  | x :: l' =>
      if arr_includes seen (key x) then keep_new key seen l'
      else x :: keep_new key (seen ++ [key x]) l'
  end.

(** The elements of [xs] whose flag is set. *)
Fixpoint select {A : Type} (flags : list bool) (xs : list A) : list A :=
  match flags, xs with
  | b :: flags', x :: xs' => if b then x :: select flags' xs' else select flags' xs'
  | _, _ => []
  end.

(** ** scripts/sync-bookmarks-to-microblog.js *)

Module SyncBookmarks.

Record State : Type := {
  syncedUrls : list jsstring;
  lastSync : option jsstring
}.

Definition loadState (STATE_FILE : file State) : State :=
  let attempt : unit + option State :=
    if existsSync STATE_FILE then
      match readFileSync STATE_FILE with
      | inl e => inl e
      | inr c =>
          match JSON_parse c with
          | inl e => inl e
          | inr s => inr (Some s)
          end
      end
    else inr None in
  match attempt with
  | inr (Some s) => s                                   (* return JSON.parse(...) *)
  | inr None => {| syncedUrls := []; lastSync := None |}
  | inl _ => {| syncedUrls := []; lastSync := None |}   (* catch (e) *)
  end.

(** /<(https?:\/\/[^>|]+)(?:\|([^>]+))?>/g *)
Definition urlRegex : regex :=
  Cat (Lit (lit "<"))
 (Cat (Group 1 (Cat (Lit (lit "http")) (Cat (Opt (Lit (lit "s")))
               (Cat (Lit (lit "://")) (Plus (NotIn (lit ">|")))))))
 (Cat (Opt (Cat (Lit (lit "|")) (Group 2 (Plus (NotIn (lit ">"))))))
      (Lit (lit ">")))).

(** The body of [for (const msg of messages)]: the [while] loop over the
    matches of one text, pushing to [urls].  [match[1]] is set in every
    match (lemma [urlRegex_group1]). *)
Fixpoint push_matches (ms : list match_result) (urls : list jsstring) : list jsstring :=
  match ms with
  | [] => urls
  | m :: ms' =>
      let url := or_empty (group 1 m) in
      if includes url (lit "slack.com") then push_matches ms' urls
      else push_matches ms' (urls ++ [url])
  end.

Fixpoint collectUrls (messages : list Message) (urls : list jsstring) : list jsstring :=
  match messages with
  | [] => urls
  | msg :: messages' =>
      let text := or_empty (text msg) in
      collectUrls messages' (push_matches (exec_all false urlRegex text) urls)
  end.

Definition extractUrls (messages : list Message) : list jsstring :=
  Set_of (collectUrls messages []).

(** The urls of the bracketed links of a text, in order: group 1 of every
    match of [urlRegex]. *)
Definition links (text : jsstring) : list jsstring :=
  map (fun m => or_empty (group 1 m)) (exec_all false urlRegex text).

(** Those that do not contain "slack.com". *)
Definition keptLinks (text : jsstring) : list jsstring :=
  filter (fun url => negb (includes url (lit "slack.com"))) (links text).

Definition candidateUrls (messages : list Message) : list jsstring :=
  flat_map (fun msg => keptLinks (or_empty (text msg))) messages.

(** The code units of "<", ">" and "|". *)
Definition lt : cu := 60%N.
Definition gt : cu := 62%N.
Definition bar : cu := 124%N.

(** A message reduced to its text. *)
Definition text_only (msg : Message) : Message :=
  {| text := text msg; ts := None; bot_id := None; thread_ts := None; subtype := None |}.

(** The text of a link [<url>]. *)
Definition angled (url : jsstring) : jsstring := lit "<" ++ url ++ lit ">".

(** The text of a link [<url|label>]. *)
Definition bracketed (url label : jsstring) : jsstring :=
  lit "<" ++ url ++ lit "|" ++ label ++ lit ">".

(** The form body of [createMicroblogBookmark]. *)
Definition bookmarkParams (url : jsstring) : list (jsstring * jsstring) :=
  [(lit "h", lit "entry"); (lit "bookmark-of", url)].

(** Console lines of the publishing loop. *)
Inductive Line : Type :=
| CreatingBookmark (url : jsstring)
| FailedToCreate (url : jsstring)
| SyncedCount (n : nat).

Section Run.

(** The outside world: Slack and Micro.blog, and what the file system makes
    of a write of the state file. *)
Variable World : Type.
Variable slack_history : World -> World * SlackReply.
Variable micropub : World -> list (jsstring * jsstring) -> World * PostReply.
Variable fs_write : World -> Write.

Record Env : Type := {
  SLACK_BOT_TOKEN : option jsstring;
  SLACK_CHANNEL_ID : option jsstring;
  MICROBLOG_TOKEN : option jsstring
}.

(** What a run leaves behind: the world, the state file, the console. *)
Record Run : Type := {
  world : World;
  disk : file State;
  console : list Line
}.

(** The state file after the call, and [inl tt] when the call throws. *)
Definition saveState (w : World) (STATE_FILE : file State) (state : State)
  : file State * (unit + unit) :=
  writeFileSync (fs_write w) STATE_FILE state.

(** [inl tt]: the promise rejects. *)
Definition fetchSlackMessages (w : World) : World * (unit + list Message) :=
  match slack_history w with
  | (w', SlackFetchRejects) => (w', inl tt)
  | (w', SlackBodyNotJson) => (w', inl tt)
  | (w', SlackData ok messages) =>
      if negb ok then (w', inr [])
      else (w', inr (match messages with Some ms => ms | None => [] end))
  end.

Definition createMicroblogBookmark (w : World) (url : jsstring) : World * (unit + unit) :=
  match micropub w (bookmarkParams url) with
  | (w', PostRejects) => (w', inl tt)
  | (w', PostResponse ok _) => if negb ok then (w', inl tt) else (w', inr tt)
  end.

(** [for (const url of newUrls) { try { ... } catch (e) { ... } }] *)
Fixpoint publishAll (newUrls : list jsstring) (w : World) (state : State)
    (synced : nat) (out : list Line) : World * State * nat * list Line :=
  match newUrls with
  | [] => (w, state, synced, out)
  | url :: newUrls' =>
      let out := out ++ [CreatingBookmark url] in
      match createMicroblogBookmark w url with
      | (w', inr _) =>
          publishAll newUrls' w'
            {| syncedUrls := syncedUrls state ++ [url]; lastSync := lastSync state |}
            (S synced) out
      | (w', inl _) =>
          publishAll newUrls' w' state synced (out ++ [FailedToCreate url])
      end
  end.

(** For each url of the loop, in order, whether [createMicroblogBookmark]
    returned ([true]) or threw ([false]). *)
Fixpoint outcomes (newUrls : list jsstring) (w : World) : list bool :=
  match newUrls with
  | [] => []
  | url :: newUrls' =>
      match createMicroblogBookmark w url with
      | (w', inr _) => true :: outcomes newUrls' w'
      | (w', inl _) => false :: outcomes newUrls' w'
      end
  end.

(** The urls that the loop announced ("Creating bookmark: ...") and those it
    gave up on ("Failed to create bookmark for ..."), read off the console. *)
Fixpoint attempted (out : list Line) : list jsstring :=
  match out with
  | [] => []
  | CreatingBookmark url :: out' => url :: attempted out'
  | _ :: out' => attempted out'
  end.

Fixpoint failed (out : list Line) : list jsstring :=
  match out with
  | [] => []
  | FailedToCreate url :: out' => url :: failed out'
  | _ :: out' => failed out'
  end.

(** The urls that [main] finds new, given the loaded state. *)
Definition newUrlsOf (state : State) (messages : list Message) : list jsstring :=
  filter (fun url => negb (arr_includes (syncedUrls state) url)) (extractUrls messages).

(** The required settings are there. *)
Definition configured (env : Env) : bool :=
  truthy (SLACK_BOT_TOKEN env) && truthy (SLACK_CHANNEL_ID env)
  && truthy (MICROBLOG_TOKEN env).

(** [w] is the world and [STATE_FILE] the state file when the process
    starts; [now] is what [new Date().toISOString()] gives at its end. *)
Definition main (env : Env) (now : jsstring) (w : World) (STATE_FILE : file State)
  : Run * Ending :=
  if negb (truthy (SLACK_BOT_TOKEN env)) || negb (truthy (SLACK_CHANNEL_ID env))
  then ({| world := w; disk := STATE_FILE; console := [] |}, Exited 1)
  else if negb (truthy (MICROBLOG_TOKEN env))
  then ({| world := w; disk := STATE_FILE; console := [] |}, Exited 1)
  else
    let state := loadState STATE_FILE in
    match fetchSlackMessages w with
    | (w, inl _) => ({| world := w; disk := STATE_FILE; console := [] |}, Rejected)
    | (w, inr messages) =>
        let urls := extractUrls messages in
        let newUrls := filter (fun url => negb (arr_includes (syncedUrls state) url)) urls in
        let '(w, state, synced, out) := publishAll newUrls w state 0 [] in
        let state := {| syncedUrls := syncedUrls state; lastSync := Some now |} in
        match saveState w STATE_FILE state with
        | (f, inr _) =>
            ({| world := w; disk := f; console := out ++ [SyncedCount synced] |}, Resolved)
        | (f, inl _) => ({| world := w; disk := f; console := out |}, Rejected)
        end
    end.

End Run.

End SyncBookmarks.

(** ** scripts/sync-books-to-microblog.js *)

Module SyncBooks.

Record State : Type := {
  syncedBooks : list jsstring;
  lastSync : option jsstring
}.

Definition loadState (STATE_FILE : file State) : State :=
  let attempt : unit + option State :=
    if existsSync STATE_FILE then
      match readFileSync STATE_FILE with
      | inl e => inl e
      | inr c =>
          match JSON_parse c with
          | inl e => inl e
          | inr s => inr (Some s)
          end
      end
    else inr None in
  match attempt with
  | inr (Some s) => s
  | inr None => {| syncedBooks := []; lastSync := None |}
  | inl _ => {| syncedBooks := []; lastSync := None |}
  end.

Record Book : Type := {
  title : jsstring;
  author : option jsstring;      (* None is null *)
  isbn : option jsstring         (* None is undefined or null *)
}.

(** The book emoji U+1F4DA as its two surrogate code units. *)
Definition book_emoji : jsstring := [0xD83D; 0xDCDA]%N.

(** /^U+1F4DA\s*/i, /^currently reading:\s*/i, /^reading:\s*/i, /^now reading:\s*/i *)
Definition prefixRegex (p : jsstring) : regex := Cat Bol (Cat (Lit p) (Star Space)).

(** /^(.+?)\s+by\s+(.+)$/i *)
Definition byRegex : regex :=
  Cat Bol (Cat (Group 1 (PlusLazy Dot)) (Cat (Plus Space) (Cat (Lit (lit "by"))
 (Cat (Plus Space) (Cat (Group 2 (Plus Dot)) Eol))))).

(** The parts of [byRegex] after the title group (lemma [byRegex_parts]). *)
Definition authorPart : regex := Cat (Group 2 (Plus Dot)) Eol.        (* (.+)$ *)
Definition afterBy : regex := Cat (Plus Space) authorPart.           (* \s+(.+)$ *)
Definition byPart : regex := Cat (Lit (lit "by")) afterBy.           (* by\s+(.+)$ *)
Definition separatorPart : regex := Cat (Plus Space) byPart.         (* \s+by\s+(.+)$ *)

Definition cleanText (text : jsstring) : jsstring :=
  trim
    (replace_empty true (prefixRegex (lit "now reading:"))
    (replace_empty true (prefixRegex (lit "reading:"))
    (replace_empty true (prefixRegex (lit "currently reading:"))
    (replace_empty true (prefixRegex book_emoji) text)))).

(** [None] is null.  Both groups are set in every match of [byRegex] (lemma
    [by_exec_sound]).  The script that fetches the reading list from Slack
    has the same function, word for word. *)
Definition parseBookFromMessage (text : jsstring) : option Book :=
  let cleaned := cleanText text in
  match exec true byRegex cleaned with
  | Some byMatch =>
      Some {| title := trim (or_empty (group 1 byMatch));
              author := Some (trim (or_empty (group 2 byMatch)));
              isbn := None |}
  | None =>
      if Nat.ltb 0 (length cleaned) && Nat.ltb (length cleaned) 200
      then Some {| title := cleaned; author := None; isbn := None |}
      else None
  end.

(** Dropping a leading [p] (whatever its case) and the white space after
    it: what [replace(/^p\s*/i, '')] does. *)
Definition strip_prefix (p s : jsstring) : jsstring :=
  if starts true p s then trimStart (skipn (length p) s) else s.

(** The code units that [/by/i] matches. *)
Definition is_by (b y : cu) : bool :=
  char_matches true 98%N b && char_matches true 121%N y.

(** [s] reads: a title part [t] without line terminators, white space, "by",
    white space, an author part [a] without line terminators. *)
Definition by_split (s t a : jsstring) : Prop :=
  exists w1 b y w2,
    s = t ++ w1 ++ [b; y] ++ w2 ++ a
    /\ t <> [] /\ forallb notLT t = true
    /\ w1 <> [] /\ forallb isSpace w1 = true
    /\ is_by b y = true
    /\ w2 <> [] /\ forallb isSpace w2 = true
    /\ a <> [] /\ forallb notLT a = true.

(** One volume of an Open Library search result. *)
Record Doc : Type := { doc_isbn : option (list jsstring) }.

Inductive SearchReply : Type :=
| SearchThrows                               (* fetch or response.json() rejects *)
| SearchData (docs : option (list Doc)).

Record Shelf : Type := {
  shelf_title : jsstring;
  shelf_id : option jsstring                 (* shelf._microblog?.id *)
}.

Inductive ShelvesReply : Type :=
| ShelvesRejects
| ShelvesResponse (ok : bool) (body : option (option (list Shelf))).
    (* body: None when response.json() rejects, else the [items] property *)

(** The messages that [extractBooks] hands to the parser, and the books
    parsed from them, in order. *)
Definition eligible (msg : Message) : bool :=
  negb (includes (or_empty (text msg)) (lit "http://")
        || includes (or_empty (text msg)) (lit "https://"))
  && negb (truthy (bot_id msg) || truthy (thread_ts msg))
  && negb (truthy (subtype msg)).

Definition parsedBooks (messages : list Message) : list Book :=
  flat_map (fun msg =>
              if eligible msg then
                match parseBookFromMessage (or_empty (text msg)) with
                | Some book => [book]
                | None => []
                end
              else [])
           messages.

Inductive Line : Type :=
| LookingUp (b : Book)
| AddingBook (t : jsstring)
| FailedToAdd (t : jsstring)
| SyncedCount (n : nat).

Section Run.

(** [String.prototype.toLowerCase], taken as given. *)
Variable toLowerCase : jsstring -> jsstring.

Definition bookKey (book : Book) : jsstring :=
  toLowerCase (title book) ++ lit "|" ++ toLowerCase (or_empty (author book)).

(** [for (const msg of messages)] of [extractBooks]. *)
Fixpoint extractLoop (messages : list Message) (books : list Book)
    (seenTitles : list jsstring) : list Book :=
  match messages with
  | [] => books
  | msg :: messages' =>
      let text := or_empty (text msg) in
      if includes text (lit "http://") || includes text (lit "https://")
      then extractLoop messages' books seenTitles
      else if truthy (bot_id msg) || truthy (thread_ts msg)
      then extractLoop messages' books seenTitles
      else if truthy (subtype msg)
      then extractLoop messages' books seenTitles
      else
        match parseBookFromMessage text with
        | Some book =>
            let key := bookKey book in
            if arr_includes seenTitles key
            then extractLoop messages' books seenTitles
            else extractLoop messages' (books ++ [book]) (seenTitles ++ [key])
        | None => extractLoop messages' books seenTitles
        end
  end.

Definition extractBooks (messages : list Message) : list Book :=
  extractLoop messages [] [].

(** The outside world: Slack, Open Library and Micro.blog, and what the
    file system makes of a write of the state file. *)
Variable World : Type.
Variable slack_history : World -> World * SlackReply.
Variable openlibrary_search : World -> jsstring -> World * SearchReply.
Variable bookshelves : World -> World * ShelvesReply.
Variable books_post : World -> list (jsstring * jsstring) -> World * PostReply.
Variable fs_write : World -> Write.

Record Env : Type := {
  SLACK_BOT_TOKEN : option jsstring;
  SLACK_READING_CHANNEL_ID : option jsstring;   (* after [|| SLACK_CHANNEL_ID] *)
  MICROBLOG_TOKEN : option jsstring;
  MICROBLOG_BOOKSHELF_ID : option jsstring
}.

Record Run : Type := {
  world : World;
  disk : file State;
  console : list Line
}.

(** The state file after the call, and [inl tt] when the call throws. *)
Definition saveState (w : World) (STATE_FILE : file State) (state : State)
  : file State * (unit + unit) :=
  writeFileSync (fs_write w) STATE_FILE state.

Definition fetchSlackMessages (w : World) : World * (unit + list Message) :=
  match slack_history w with
  | (w', SlackFetchRejects) => (w', inl tt)
  | (w', SlackBodyNotJson) => (w', inl tt)
  | (w', SlackData ok messages) =>
      if negb ok then (w', inr [])
      else (w', inr (match messages with Some ms => ms | None => [] end))
  end.

(** The whole body is inside [try]: it never throws.  When
    [encodeURIComponent] throws, there is no request. *)
Definition searchIsbn (w : World) (title : jsstring) (author : option jsstring)
  : World * option jsstring :=
  let query := title ++ lit " " ++ or_empty author in
  if negb (isWellFormed query) then (w, None)
  else
    match openlibrary_search w query with
    | (w', SearchThrows) => (w', None)
    | (w', SearchData (Some (book :: _))) =>
        match doc_isbn book with
        | Some (first :: _) => (w', Some first)
        | _ => (w', None)
        end
    | (w', SearchData _) => (w', None)
    end.

Definition getBookshelves (w : World) : World * (unit + option (list Shelf)) :=
  match bookshelves w with
  | (w', ShelvesRejects) => (w', inl tt)
  | (w', ShelvesResponse ok body) =>
      if negb ok then (w', inl tt)
      else match body with
           | Some items => (w', inr items)
           | None => (w', inl tt)
           end
  end.

(** [String(bookshelfId)] inside URLSearchParams. *)
Definition showId (bookshelfId : option jsstring) : jsstring :=
  match bookshelfId with
  | Some s => s
  | None => lit "undefined"
  end.

Definition bookParams (book : Book) (bookshelfId : option jsstring)
  : list (jsstring * jsstring) :=
  [(lit "title", title book);
   (lit "author", if truthy (author book) then or_empty (author book) else lit "Unknown");
   (lit "bookshelf_id", showId bookshelfId)]
  ++ (if truthy (isbn book) then [(lit "isbn", or_empty (isbn book))] else []).

Definition addBookToMicroblog (w : World) (book : Book) (bookshelfId : option jsstring)
  : World * (unit + unit) :=
  match books_post w (bookParams book bookshelfId) with
  | (w', PostRejects) => (w', inl tt)
  | (w', PostResponse ok json_body) =>
      if negb ok then (w', inl tt)
      else if json_body then (w', inr tt) else (w', inl tt)
  end.

(** [for (const book of newBooks) { try { ... } catch (e) { ... } }] *)
Fixpoint publishAll (newBooks : list Book) (bookshelfId : option jsstring)
    (w : World) (state : State) (synced : nat) (out : list Line)
  : World * State * nat * list Line :=
  match newBooks with
  | [] => (w, state, synced, out)
  | book :: newBooks' =>
      let out := out ++ [LookingUp book] in
      let '(w1, found) := searchIsbn w (title book) (author book) in
      let book := {| title := title book; author := author book; isbn := found |} in
      let out := out ++ [AddingBook (title book)] in
      match addBookToMicroblog w1 book bookshelfId with
      | (w2, inr _) =>
          let key := bookKey book in
          publishAll newBooks' bookshelfId w2
            {| syncedBooks := syncedBooks state ++ [key]; lastSync := lastSync state |}
            (S synced) out
      | (w2, inl _) =>
          publishAll newBooks' bookshelfId w2 state synced
            (out ++ [FailedToAdd (title book)])
      end
  end.

(** For each book of the loop, in order, whether the body of [try] ran to
    its end ([true]) or threw ([false]). *)
Fixpoint outcomes (newBooks : list Book) (bookshelfId : option jsstring) (w : World)
  : list bool :=
  match newBooks with
  | [] => []
  | book :: newBooks' =>
      let '(w1, found) := searchIsbn w (title book) (author book) in
      let book := {| title := title book; author := author book; isbn := found |} in
      match addBookToMicroblog w1 book bookshelfId with
      | (w2, inr _) => true :: outcomes newBooks' bookshelfId w2
      | (w2, inl _) => false :: outcomes newBooks' bookshelfId w2
      end
  end.

(** The titles that the loop announced ("Adding to micro.blog: ...") and
    those it gave up on ("Failed to add book ..."), read off the console. *)
Fixpoint attempted (out : list Line) : list jsstring :=
  match out with
  | [] => []
  | AddingBook t :: out' => t :: attempted out'
  | _ :: out' => attempted out'
  end.

Fixpoint failed (out : list Line) : list jsstring :=
  match out with
  | [] => []
  | FailedToAdd t :: out' => t :: failed out'
  | _ :: out' => failed out'
  end.

(** The books that [main] finds new, given the loaded state. *)
Definition newBooksOf (state : State) (messages : list Message) : list Book :=
  filter (fun book => negb (arr_includes (syncedBooks state) (bookKey book)))
         (extractBooks messages).

(** The shelf whose title contains "currently reading". *)
Definition findCurrentlyReading (items : list Shelf) : option Shelf :=
  find (fun s => includes (toLowerCase (shelf_title s)) (lit "currently reading")) items.

(** The part of [main] from [loadState] on. *)
Definition sync (bookshelfId : option jsstring) (now : jsstring) (w : World)
    (STATE_FILE : file State) : Run * Ending :=
  let state := loadState STATE_FILE in
  match fetchSlackMessages w with
  | (w, inl _) => ({| world := w; disk := STATE_FILE; console := [] |}, Rejected)
  | (w, inr messages) =>
      let books := extractBooks messages in
      let newBooks :=
        filter (fun book => negb (arr_includes (syncedBooks state) (bookKey book))) books in
      let '(w, state, synced, out) := publishAll newBooks bookshelfId w state 0 [] in
      let state := {| syncedBooks := syncedBooks state; lastSync := Some now |} in
      match saveState w STATE_FILE state with
      | (f, inr _) =>
          ({| world := w; disk := f; console := out ++ [SyncedCount synced] |}, Resolved)
      | (f, inl _) => ({| world := w; disk := f; console := out |}, Rejected)
      end
  end.

Definition main (env : Env) (now : jsstring) (w : World) (STATE_FILE : file State)
  : Run * Ending :=
  if negb (truthy (SLACK_BOT_TOKEN env)) || negb (truthy (SLACK_READING_CHANNEL_ID env))
  then ({| world := w; disk := STATE_FILE; console := [] |}, Exited 1)
  else if negb (truthy (MICROBLOG_TOKEN env))
  then ({| world := w; disk := STATE_FILE; console := [] |}, Exited 1)
  else if negb (truthy (MICROBLOG_BOOKSHELF_ID env)) then
    match getBookshelves w with
    | (w, inl _) => ({| world := w; disk := STATE_FILE; console := [] |}, Rejected)
    | (w, inr shelves) =>
        let items := match shelves with Some l => l | None => [] end in
        match findCurrentlyReading items with
        | Some currentlyReading => sync (shelf_id currentlyReading) now w STATE_FILE
        | None => ({| world := w; disk := STATE_FILE; console := [] |}, Exited 1)
        end
    end
  else sync (MICROBLOG_BOOKSHELF_ID env) now w STATE_FILE.

End Run.

End SyncBooks.

(** ** A scripted world

    A world for examples: Slack always gives the same answer, Micro.blog
    answers the POSTs it receives from a fixed list of replies, one after
    the other (once the list is used up, the connection fails), and the
    file system takes every write. *)

Module Script.

Record World : Type := {
  slack : SlackReply;
  posts : list PostReply
}.

Definition slack_history (w : World) : World * SlackReply := (w, slack w).

Definition post (w : World) (_ : list (jsstring * jsstring)) : World * PostReply :=
  ({| slack := slack w; posts := tl (posts w) |}, hd PostRejects (posts w)).

Definition openlibrary_search (w : World) (_ : jsstring) : World * SyncBooks.SearchReply :=
  (w, SyncBooks.SearchData None).

Definition bookshelves (w : World) : World * SyncBooks.ShelvesReply :=
  (w, SyncBooks.ShelvesRejects).

Definition fs_write (w : World) : Write := Written.

(** Lower-casing of ASCII letters, which is what [toLowerCase] does on a
    string of ASCII code units. *)
Definition asciiLower (c : cu) : cu :=
  if ((65 <=? c)%N && (c <=? 90)%N)%bool then (c + 32)%N else c.

Definition toLowerCase (s : jsstring) : jsstring := map asciiLower s.

(** A message typed by a person: only [text] is set. *)
Definition said (s : string) : Message :=
  {| text := Some (lit s); ts := None; bot_id := None; thread_ts := None;
     subtype := None |}.

Definition bookmarkEnv : SyncBookmarks.Env :=
  {| SyncBookmarks.SLACK_BOT_TOKEN := Some (lit "xoxb-1");
     SyncBookmarks.SLACK_CHANNEL_ID := Some (lit "C1");
     SyncBookmarks.MICROBLOG_TOKEN := Some (lit "t") |}.

Definition bookEnv : SyncBooks.Env :=
  {| SyncBooks.SLACK_BOT_TOKEN := Some (lit "xoxb-1");
     SyncBooks.SLACK_READING_CHANNEL_ID := Some (lit "C2");
     SyncBooks.MICROBLOG_TOKEN := Some (lit "t");
     SyncBooks.MICROBLOG_BOOKSHELF_ID := Some (lit "7") |}.

(** A link posted by a bot, as a reply in a thread. *)
Definition botReply : Message :=
  {| text := Some (lit "<https://example.com/a|Cool Article>");
     ts := Some (lit "1706600001.000200");
     bot_id := Some (lit "B01");
     thread_ts := Some (lit "1706600000.000100");
     subtype := Some (lit "bot_message") |}.

Definition ok : PostReply := PostResponse true true.
Definition refused : PostReply := PostResponse false false.

(** Three links in two messages; Micro.blog refuses the second POST. *)
Definition linkMessages : list Message :=
  [said "Check this out <https://example.com/a|Cool Article>";
   said "<https://example.com/b> and <https://example.com/c|C>"].

Definition threeLinks : SlackReply := SlackData true (Some linkMessages).

Definition secondRefused : World :=
  {| slack := threeLinks; posts := [ok; refused; ok] |}.

(** Three books; Micro.blog refuses the second POST. *)
Definition bookMessages : list Message :=
  [said "Breakneck by Dan Wang"; said "Reading: Dune"; said "Emma by Jane Austen"].

Definition threeBooks : SlackReply := SlackData true (Some bookMessages).

Definition dune : SyncBooks.Book :=
  {| SyncBooks.title := lit "Dune"; SyncBooks.author := None; SyncBooks.isbn := None |}.

Definition shelf : option jsstring := Some (lit "7").

Definition secondBookRefused : World :=
  {| slack := threeBooks; posts := [ok; refused; ok] |}.

(** One link; Micro.blog refuses every POST. *)
Definition alwaysRefused : World :=
  {| slack := SlackData true (Some [said "<https://example.com/a|Cool Article>"]);
     posts := [refused; refused] |}.

(** Slack answers with [ok] false. *)
Definition slackNotOk : World :=
  {| slack := SlackData false None; posts := [ok] |}.

(** Slack's answer is not JSON. *)
Definition slackGarbled : World :=
  {| slack := SlackBodyNotJson; posts := [ok] |}.

(** A state file written by an earlier run of the bookmark script. *)
Definition earlier : file SyncBookmarks.State :=
  Holds (Document {| SyncBookmarks.syncedUrls := [lit "https://example.com/a"];
                     SyncBookmarks.lastSync := Some (lit "2026-01-01T00:00:00.000Z") |}).

Definition earlierBooks : file SyncBooks.State :=
  Holds (Document {| SyncBooks.syncedBooks := [lit "dune|"];
                     SyncBooks.lastSync := Some (lit "2026-01-01T00:00:00.000Z") |}).

Definition later : jsstring := lit "2026-01-02T00:00:00.000Z".

Definition bookmark_main := SyncBookmarks.main slack_history post fs_write.
Definition book_main :=
  SyncBooks.main toLowerCase slack_history openlibrary_search bookshelves post fs_write.
Definition book_sync :=
  SyncBooks.sync toLowerCase slack_history openlibrary_search post fs_write.

End Script.

(** ** The script that fetches the reading list from Slack

    It has [fetchSlackMessages] and [parseBookFromMessage] of the book sync
    script, word for word, and the same template for the key of a book.
    What the script prints is left out. *)

Module ReadingList.

(** The class [[A-Z0-9]]. *)
Definition isIdChar (c : cu) : bool :=
  ((65 <=? c)%N && (c <=? 90)%N) || ((48 <=? c)%N && (c <=? 57)%N).

(** /^<@U[A-Z0-9]+>/ : the class is none of the constructors of [regex], so
    the matcher is put together from the same pieces as [rmatch] uses. *)
Definition mentionRegex : matcher :=
  fun st k =>
    rmatch false (Cat Bol (Lit (lit "<@U"))) st (fun st1 =>
    one isIdChar st1 (fun st2 =>
    many true (one isIdChar) st2 (fun st3 =>
    rmatch false (Lit (lit ">")) st3 k))).

(** [text.match(m)] is not null: the matcher succeeds at some start index
    at or after [i]. *)
Fixpoint matches_from (m : matcher) (i : nat) (s : jsstring) : bool :=
  match m (MState i s []) (fun st => Some st) with
  | Some _ => true
  | None =>
      match s with
      | [] => false
      | _ :: s' => matches_from m (S i) s'
      end
  end.

(** One volume of an Open Library search result; [cover_i] is a number. *)
Record Doc : Type := { cover_i : option N }.

Inductive SearchReply : Type :=
| SearchThrows                               (* fetch or response.json() rejects *)
| SearchData (docs : option (list Doc)).

(** An entry of [reading.json]. *)
Record Entry : Type := {
  title : jsstring;
  author : jsstring;
  image : option jsstring;       (* None is null *)
  link : option jsstring
}.

Record Output : Type := {
  updated : jsstring;
  books : list Entry
}.

(** The messages that the script sets aside on top of those that the book
    sync script skips. *)
Definition systemLike (msg : Message) : bool :=
  matches_from mentionRegex 0 (or_empty (text msg))
  || includes (or_empty (text msg)) (lit "has joined").

(** [book.author || 'Unknown'] *)
Definition authorOrUnknown (author : option jsstring) : jsstring :=
  if truthy author then or_empty author else lit "Unknown".

(** Title and author of an entry, and of a parsed book as an entry. *)
Definition named (e : Entry) : jsstring * jsstring := (title e, author e).

Definition asNamed (b : SyncBooks.Book) : jsstring * jsstring :=
  (SyncBooks.title b, authorOrUnknown (SyncBooks.author b)).

(** [`${title} ${author || ''}`]: the query of the search for a book. *)
Definition coverQuery (b : SyncBooks.Book) : jsstring :=
  SyncBooks.title b ++ lit " " ++ or_empty (SyncBooks.author b).

Section Run.

(** [String.prototype.toLowerCase] and the conversion of a number to a
    string in a template literal, taken as given. *)
Variable toLowerCase : jsstring -> jsstring.
Variable Number_toString : N -> jsstring.

(** The outside world: Slack and Open Library, and what the file system
    makes of a write of [data/reading.json]. *)
Variable World : Type.
Variable slack_history : World -> World * SlackReply.
Variable openlibrary_search : World -> jsstring -> World * SearchReply.
Variable fs_write : World -> Write.

Record Env : Type := {
  SLACK_BOT_TOKEN : option jsstring;
  SLACK_READING_CHANNEL_ID : option jsstring;   (* after [|| SLACK_CHANNEL_ID] *)
  argv : list jsstring
}.

(** What a run leaves behind: the world and the file [data/reading.json]. *)
Record Run : Type := {
  world : World;
  disk : file Output
}.

Definition fetchSlackMessages (w : World) : World * (unit + list Message) :=
  match slack_history w with
  | (w', SlackFetchRejects) => (w', inl tt)
  | (w', SlackBodyNotJson) => (w', inl tt)
  | (w', SlackData ok messages) =>
      if negb ok then (w', inr [])
      else (w', inr (match messages with Some ms => ms | None => [] end))
  end.

(** The whole body is inside [try]: it never throws.  When
    [encodeURIComponent] throws, there is no request. *)
Definition fetchBookCover (w : World) (title : jsstring) (author : option jsstring)
  : World * option jsstring :=
  let query := title ++ lit " " ++ or_empty author in
  if negb (isWellFormed query) then (w, None)
  else
    match openlibrary_search w query with
    | (w', SearchThrows) => (w', None)
    | (w', SearchData (Some (book :: _))) =>
        match cover_i book with
        | Some coverId =>
            if (coverId =? 0)%N then (w', None)
            else (w', Some (lit "https://covers.openlibrary.org/b/id/"
                              ++ Number_toString coverId ++ lit "-M.jpg"))
        | None => (w', None)
        end
    | (w', SearchData _) => (w', None)
    end.

(** [for (const msg of messages)] of [extractBooks]. *)
Fixpoint extractLoop (messages : list Message) (w : World) (books : list Entry)
    (seenTitles : list jsstring) : World * list Entry :=
  match messages with
  | [] => (w, books)
  | msg :: messages' =>
      let text := or_empty (text msg) in
      if includes text (lit "http://") || includes text (lit "https://")
      then extractLoop messages' w books seenTitles
      else if truthy (bot_id msg) || truthy (thread_ts msg)
      then extractLoop messages' w books seenTitles
      else if truthy (subtype msg)
      then extractLoop messages' w books seenTitles
      else if matches_from mentionRegex 0 text || includes text (lit "has joined")
      then extractLoop messages' w books seenTitles
      else
        match SyncBooks.parseBookFromMessage text with
        | Some book =>
            let key := SyncBooks.bookKey toLowerCase book in
            if arr_includes seenTitles key
            then extractLoop messages' w books seenTitles
            else
              let '(w1, image) :=
                fetchBookCover w (SyncBooks.title book) (SyncBooks.author book) in
              extractLoop messages' w1
                (books ++ [{| title := SyncBooks.title book;
                              author := authorOrUnknown (SyncBooks.author book);
                              image := image;
                              link := None |}])
                (seenTitles ++ [key])
        | None => extractLoop messages' w books seenTitles
        end
  end.

Definition extractBooks (w : World) (messages : list Message) : World * list Entry :=
  extractLoop messages w [] [].

(** The sample data of [--sample]. *)
Definition sampleBooks : list (jsstring * jsstring) :=
  [(lit "Breakneck", lit "Dan Wang");
   (lit "The Design of Everyday Things", lit "Don Norman")].

Fixpoint sampleLoop (sample : list (jsstring * jsstring)) (w : World)
    (booksWithCovers : list Entry) : World * list Entry :=
  match sample with
  | [] => (w, booksWithCovers)
  | (t, a) :: sample' =>
      let '(w1, image) := fetchBookCover w t (Some a) in
      sampleLoop sample' w1
        (booksWithCovers ++ [{| title := t; author := a; image := image; link := None |}])
  end.

(** [w] is the world and [outputPath] the file [data/reading.json] when the
    process starts; [now] is what [new Date().toISOString()] gives when the
    output is put together. *)
Definition main (env : Env) (now : jsstring) (w : World) (outputPath : file Output)
  : Run * Ending :=
  if negb (truthy (SLACK_BOT_TOKEN env)) || negb (truthy (SLACK_READING_CHANNEL_ID env))
  then
    if arr_includes (argv env) (lit "--sample") then
      let '(w, booksWithCovers) := sampleLoop sampleBooks w [] in
      let sampleData := {| updated := now; books := booksWithCovers |} in
      match writeFileSync (fs_write w) outputPath sampleData with
      | (f, inr _) => ({| world := w; disk := f |}, Resolved)
      | (f, inl _) => ({| world := w; disk := f |}, Rejected)
      end
    else ({| world := w; disk := outputPath |}, Resolved)
  else
    match fetchSlackMessages w with
    | (w, inl _) => ({| world := w; disk := outputPath |}, Rejected)
    | (w, inr messages) =>
        let '(w, books) := extractBooks w messages in
        let output := {| updated := now; books := books |} in
        match writeFileSync (fs_write w) outputPath output with
        | (f, inr _) => ({| world := w; disk := f |}, Resolved)
        | (f, inl _) => ({| world := w; disk := f |}, Rejected)
        end
    end.

End Run.

End ReadingList.

(** ** The urls of bracketed links *)

(** The text of a url that [(https?:\/\/[^>|]+)] can capture: the scheme,
    and at least one code unit after it. *)
Definition http_url (https : bool) (x : cu) (body : jsstring) : jsstring :=
  lit "http" ++ (if https then lit "s" else []) ++ lit "://" ++ x :: body.

(** ** Slack's markup of links

    Slack sends a link as [<url>] or as [<url|label>].  A text with links
    is written here as its parts: each link with the text before it, and
    the text after the last link. *)

Module SlackMarkup.

Record Link : Type := {
  secure : bool;                 (* https, not http *)
  first : cu;                    (* the url after the scheme: one code unit *)
  more : jsstring;               (* and the others *)
  label : jsstring               (* empty: the link has no label *)
}.

Definition url (l : Link) : jsstring := http_url (secure l) (first l) (more l).

Definition markup (l : Link) : jsstring :=
  match label l with
  | [] => SyncBookmarks.angled (url l)
  | _ :: _ => SyncBookmarks.bracketed (url l) (label l)
  end.

(** No ">" and no "|" in the url after the scheme, no ">" in the label. *)
Definition wellFormed (l : Link) : bool :=
  forallb (notAmong (lit ">|")) (first l :: more l)
  && forallb (notAmong (lit ">")) (label l).

(** A text without "<". *)
Definition plain (s : jsstring) : bool :=
  forallb (fun c => negb (c =? SyncBookmarks.lt)%N) s.

Fixpoint compose (parts : list (jsstring * Link)) (tail : jsstring) : jsstring :=
  match parts with
  | [] => tail
  | (before, l) :: parts' => before ++ markup l ++ compose parts' tail
  end.

End SlackMarkup.

(** ** The message formats of the reading channel

    The header of the script that fetches the reading list gives the
    formats "Title by Author", "U+1F4DA Title by Author" and "Currently
    reading: Title by Author"; the parser has two more prefixes. *)

Module Formats.

(** What a message can begin with, before the title. *)
Definition beginnings : list jsstring :=
  [ [];
    SyncBooks.book_emoji ++ lit " ";
    lit "Currently reading: ";
    lit "Reading: ";
    lit "Now reading: ";
    SyncBooks.book_emoji ++ lit " Currently reading: " ].

(** The texts of the four prefix patterns of the parser. *)
Definition prefixes : list jsstring :=
  [ SyncBooks.book_emoji; lit "currently reading:"; lit "reading:"; lit "now reading:" ].

(** [s] has, somewhere, a white space, "by" in any case, and a white space
    again. *)
Fixpoint hasByWord (s : jsstring) : bool :=
  match s with
  | [] => false
  | c0 :: s' =>
      match s' with
      | b :: y :: c1 :: _ => isSpace c0 && SyncBooks.is_by b y && isSpace c1
      | _ => false
      end
      || hasByWord s'
  end.

End Formats.

(** ** The requests of a run

    Any world can be paired with a log of the requests made to it; an
    endpoint of the logged world answers as the endpoint of the world does,
    and adds its request to the log.  The file system is no endpoint: a
    write is not logged. *)

Module Traced.

Inductive Request : Type :=
| GetSlackHistory
| PostMicropub (body : list (jsstring * jsstring))
| GetOpenLibrary (query : jsstring)
| GetBookshelves
| PostBook (body : list (jsstring * jsstring)).

Definition isPost (r : Request) : bool :=
  match r with
  | PostMicropub _ | PostBook _ => true
  | _ => false
  end.

(** The ISBN that an answer of Open Library holds for the book script: the
    first ISBN of its first volume. *)
Definition firstIsbn (answer : option SyncBooks.SearchReply) : option jsstring :=
  match answer with
  | Some (SyncBooks.SearchData (Some (volume :: _))) =>
      match SyncBooks.doc_isbn volume with
      | Some (first :: _) => Some first
      | _ => None
      end
  | _ => None
  end.

(** The requests of the book script for a book, given what Open Library
    answers: the search with the query "title author", unless
    [encodeURIComponent] throws on the query, and then the POST of the book,
    with the first ISBN of the answer. *)
Definition requestsFor (bookshelfId : option jsstring)
    (b : SyncBooks.Book * option SyncBooks.SearchReply) : list Request :=
  let query := SyncBooks.title (fst b) ++ lit " " ++ or_empty (SyncBooks.author (fst b)) in
  (if isWellFormed query then [GetOpenLibrary query] else [])
  ++ [PostBook (SyncBooks.bookParams
                  {| SyncBooks.title := SyncBooks.title (fst b);
                     SyncBooks.author := SyncBooks.author (fst b);
                     SyncBooks.isbn := firstIsbn (snd b) |} bookshelfId)].

Section Log.

Variable World : Type.

Definition Logged : Type := World * list Request.

Definition logging {R : Type} (req : Request) (endpoint : World -> World * R)
  : Logged -> Logged * R :=
  fun wl =>
    let '(w', answer) := endpoint (fst wl) in
    ((w', snd wl ++ [req]), answer).

Variable slack_history : World -> World * SlackReply.
Variable micropub : World -> list (jsstring * jsstring) -> World * PostReply.
Variable openlibrary_search : World -> jsstring -> World * SyncBooks.SearchReply.
Variable bookshelves : World -> World * SyncBooks.ShelvesReply.
Variable books_post : World -> list (jsstring * jsstring) -> World * PostReply.
Variable fs_write : World -> Write.

Definition fs_write' (wl : Logged) : Write := fs_write (fst wl).

Definition slack_history' : Logged -> Logged * SlackReply :=
  logging GetSlackHistory slack_history.

Definition micropub' (wl : Logged) (body : list (jsstring * jsstring))
  : Logged * PostReply :=
  logging (PostMicropub body) (fun w => micropub w body) wl.

Definition openlibrary_search' (wl : Logged) (query : jsstring)
  : Logged * SyncBooks.SearchReply :=
  logging (GetOpenLibrary query) (fun w => openlibrary_search w query) wl.

Definition bookshelves' : Logged -> Logged * SyncBooks.ShelvesReply :=
  logging GetBookshelves bookshelves.

Definition books_post' (wl : Logged) (body : list (jsstring * jsstring))
  : Logged * PostReply :=
  logging (PostBook body) (fun w => books_post w body) wl.

(** What Open Library answers when the requests of [requestsFor] are made
    for the books [newBooks], one after the other, from the world [w] on:
    every request moves the world.  [None]: there is no search for the
    book. *)
Fixpoint answers (bookshelfId : option jsstring) (newBooks : list SyncBooks.Book)
    (w : World) : list (option SyncBooks.SearchReply) :=
  match newBooks with
  | [] => []
  | book :: newBooks' =>
      let query := SyncBooks.title book ++ lit " " ++ or_empty (SyncBooks.author book) in
      let '(w1, answer) :=
        if isWellFormed query
        then let '(w1, reply) := openlibrary_search w query in (w1, Some reply)
        else (w, None) in
      let '(w2, _) :=
        books_post w1 (SyncBooks.bookParams
                         {| SyncBooks.title := SyncBooks.title book;
                            SyncBooks.author := SyncBooks.author book;
                            SyncBooks.isbn := firstIsbn answer |} bookshelfId) in
      answer :: answers bookshelfId newBooks' w2
  end.

(** The search of the script that fetches the reading list. *)
Variable cover_search : World -> jsstring -> World * ReadingList.SearchReply.

Definition cover_search' (wl : Logged) (query : jsstring)
  : Logged * ReadingList.SearchReply :=
  logging (GetOpenLibrary query) (fun w => cover_search w query) wl.

End Log.

End Traced.

(** ** The state files that the scripts produce

    A state file is either not there yet, or what a run of [main] left
    behind, started on a state file that was produced in this way; the
    settings, the time and the world of every run are arbitrary, and so is
    what becomes of its write. *)

Section Histories.

Variable toLowerCase : jsstring -> jsstring.
Variable World : Type.
Variable slack_history : World -> World * SlackReply.
Variable micropub : World -> list (jsstring * jsstring) -> World * PostReply.
Variable openlibrary_search : World -> jsstring -> World * SyncBooks.SearchReply.
Variable bookshelves : World -> World * SyncBooks.ShelvesReply.
Variable books_post : World -> list (jsstring * jsstring) -> World * PostReply.
Variable fs_write : World -> Write.

Inductive bookmark_state_file : file SyncBookmarks.State -> Prop :=
| no_bookmark_run : bookmark_state_file Absent
| after_bookmark_run (env : SyncBookmarks.Env) (now : jsstring) (w : World)
    (d : file SyncBookmarks.State) :
    bookmark_state_file d ->
    bookmark_state_file
      (SyncBookmarks.disk
         (fst (SyncBookmarks.main slack_history micropub fs_write env now w d))).

Inductive book_state_file : file SyncBooks.State -> Prop :=
| no_book_run : book_state_file Absent
| after_book_run (env : SyncBooks.Env) (now : jsstring) (w : World)
    (d : file SyncBooks.State) :
    book_state_file d ->
    book_state_file
      (SyncBooks.disk
         (fst (SyncBooks.main toLowerCase slack_history openlibrary_search
                 bookshelves books_post fs_write env now w d))).

End Histories.

(** ** More scripted answers *)

Module Examples.

(** Micro.blog accepts every POST and answers without a JSON body. *)
Definition acceptsWithoutJson (w : Script.World) (_ : list (jsstring * jsstring))
  : Script.World * PostReply :=
  (w, PostResponse true false).

(** Three bookshelves; two of them are for what is being read. *)
Definition wantToRead : SyncBooks.Shelf :=
  {| SyncBooks.shelf_title := lit "Want to read"; SyncBooks.shelf_id := Some (lit "11") |}.

Definition currentlyReading : SyncBooks.Shelf :=
  {| SyncBooks.shelf_title := lit "Currently Reading";
     SyncBooks.shelf_id := Some (lit "12") |}.

Definition audio : SyncBooks.Shelf :=
  {| SyncBooks.shelf_title := lit "Currently reading (audio)";
     SyncBooks.shelf_id := Some (lit "13") |}.

Definition threeShelves (w : Script.World) : Script.World * SyncBooks.ShelvesReply :=
  (w, SyncBooks.ShelvesResponse true (Some (Some [wantToRead; currentlyReading; audio]))).

(** The settings of the book script without MICROBLOG_BOOKSHELF_ID. *)
Definition noShelfId : SyncBooks.Env :=
  {| SyncBooks.SLACK_BOT_TOKEN := Some (lit "xoxb-1");
     SyncBooks.SLACK_READING_CHANNEL_ID := Some (lit "C2");
     SyncBooks.MICROBLOG_TOKEN := Some (lit "t");
     SyncBooks.MICROBLOG_BOOKSHELF_ID := None |}.

(** The decimal digits of a number, which is what a template literal makes
    of a cover id. *)
Fixpoint digits (fuel : nat) (n : N) (acc : jsstring) : jsstring :=
  match fuel with
  | O => acc
  | S f =>
      let acc' := (48 + n mod 10)%N :: acc in
      if (n / 10 =? 0)%N then acc' else digits f (n / 10) acc'
  end.

Definition Number_toString (n : N) : jsstring := digits (S (N.to_nat (N.log2 n))) n [].

(** Open Library knows one cover, whatever the query. *)
Definition oneCover (w : Script.World) (_ : jsstring)
  : Script.World * ReadingList.SearchReply :=
  (w, ReadingList.SearchData (Some [{| ReadingList.cover_i := Some 8231856%N |}])).

Definition readingEnv : ReadingList.Env :=
  {| ReadingList.SLACK_BOT_TOKEN := Some (lit "xoxb-1");
     ReadingList.SLACK_READING_CHANNEL_ID := Some (lit "C2");
     ReadingList.argv := [lit "node"; lit "fetch-reading.js"] |}.

(** A channel of the reading list: a book, a member joining, a mention,
    the same book again, a book without author. *)
Definition readingMessages : list Message :=
  [Script.said "Breakneck by Dan Wang";
   Script.said "Sophie has joined the channel";
   Script.said "<@U02ABC> Dune by Frank Herbert";
   Script.said "breakneck BY dan wang";
   Script.said "Reading: Dune"].

Definition reading_main :=
  ReadingList.main Script.toLowerCase Number_toString Script.slack_history oneCover
    Script.fs_write.

(** A file system that lets no file be opened for writing. *)
Definition readOnly (w : Script.World) : Write := ThrowsUnopened.

(** Open Library knows one volume, with two ISBNs, whatever the query. *)
Definition oneVolume (w : Script.World) (_ : jsstring)
  : Script.World * SyncBooks.SearchReply :=
  (w, SyncBooks.SearchData
        (Some [{| SyncBooks.doc_isbn := Some [lit "9780593239506"; lit "0593239504"] |}])).

End Examples.

(** * Properties *)

Unset Implicit Arguments.

(** ** Strings and arrays of strings *)

Lemma str_eqb_eq (a b : jsstring) : str_eqb a b = true <-> a = b.
Proof.
  revert b; induction a as [|x a IH]; intros [|y b]; simpl; split; intros H;
    try reflexivity; try discriminate.
  - apply andb_true_iff in H as [Hx Hab].
    apply N.eqb_eq in Hx. apply IH in Hab. now subst.
  - injection H as -> ->. apply andb_true_iff; split.
    + apply N.eqb_refl.
    + now apply IH.
Qed.

Lemma str_eqb_refl (a : jsstring) : str_eqb a a = true.
Proof. now apply str_eqb_eq. Qed.

Lemma arr_includes_In (arr : list jsstring) (x : jsstring) :
  arr_includes arr x = true <-> In x arr.
Proof.
  unfold arr_includes. rewrite existsb_exists. split.
  - intros (y & Hy & E). apply str_eqb_eq in E. now subst.
  - intros H. exists x. split; [assumption | apply str_eqb_refl].
Qed.

Lemma arr_includes_false (arr : list jsstring) (x : jsstring) :
  arr_includes arr x = false <-> ~ In x arr.
Proof.
  destruct (arr_includes arr x) eqn:E; split; intros H.
  - discriminate.
  - elim H. now apply arr_includes_In.
  - intros Hin. apply arr_includes_In in Hin. congruence.
  - reflexivity.
Qed.

Lemma arr_includes_app (a b : list jsstring) (x : jsstring) :
  arr_includes (a ++ b) x = arr_includes a x || arr_includes b x.
Proof. unfold arr_includes. apply existsb_app. Qed.

(** ** The state store *)

(** C9 -- [loadState] never throws: it is a total function, and when the
    state file is absent, cannot be read, or holds text that JSON.parse
    rejects, it returns the fresh state (no synced keys, [lastSync] null),
    in the bookmark script and in the book script alike. *)
Theorem C9_loadState_total_default :
  forall (fb : file SyncBookmarks.State) (fk : file SyncBooks.State),
    (fb = Absent \/ fb = Unreadable \/ fb = Holds NotJson) ->
    (fk = Absent \/ fk = Unreadable \/ fk = Holds NotJson) ->
    SyncBookmarks.loadState fb
      = {| SyncBookmarks.syncedUrls := []; SyncBookmarks.lastSync := None |}
    /\ SyncBooks.loadState fk
      = {| SyncBooks.syncedBooks := []; SyncBooks.lastSync := None |}.
Proof.
  intros fb fk [-> | [-> | ->]] [-> | [-> | ->]]; split; reflexivity.
Qed.

Lemma C9_loadState_total_default_witness :
  SyncBookmarks.loadState (Holds NotJson)
    = {| SyncBookmarks.syncedUrls := []; SyncBookmarks.lastSync := None |}
  /\ SyncBooks.loadState Unreadable
    = {| SyncBooks.syncedBooks := []; SyncBooks.lastSync := None |}.
Proof.
  apply (C9_loadState_total_default (Holds NotJson) Unreadable).
  - right; right; reflexivity.
  - right; left; reflexivity.
Defined.

(** ** The matcher on one-code-unit patterns *)

Lemma repeat_greedy_one (p : cu -> bool) (k : cont) (s : jsstring) :
  forall fuel i cs, length s <= fuel ->
    repeat true (one p) fuel (MState i s cs) k = greedy_scan p k i s cs.
Proof.
  induction s as [|x s IH]; intros fuel i cs Hf.
  - destruct fuel; reflexivity.
  - destruct fuel as [|f]; [simpl in Hf; lia|].
    simpl. unfold one. simpl. destruct (p x); [|reflexivity].
    replace (length s <? S (length s)) with true
      by (symmetry; apply Nat.ltb_lt; lia).
    rewrite IH by (simpl in Hf; lia). reflexivity.
Qed.

Lemma repeat_lazy_one (p : cu -> bool) (k : cont) (s : jsstring) :
  forall fuel i cs, length s <= fuel ->
    repeat false (one p) fuel (MState i s cs) k = lazy_scan p k i s cs.
Proof.
  induction s as [|x s IH]; intros fuel i cs Hf.
  - destruct fuel; simpl; destruct (k _); reflexivity.
  - destruct fuel as [|f]; [simpl in Hf; lia|].
    simpl. destruct (k _); [reflexivity|].
    unfold one. simpl. destruct (p x); [|reflexivity].
    replace (length s <? S (length s)) with true
      by (symmetry; apply Nat.ltb_lt; lia).
    rewrite IH by (simpl in Hf; lia). reflexivity.
Qed.

Lemma many_greedy_one (p : cu -> bool) (k : cont) (st : mstate) :
  many true (one p) st k = greedy_scan p k (pos st) (rest st) (caps st).
Proof. destruct st as [i s cs]. unfold many. now apply repeat_greedy_one. Qed.

Lemma many_lazy_one (p : cu -> bool) (k : cont) (st : mstate) :
  many false (one p) st k = lazy_scan p k (pos st) (rest st) (caps st).
Proof. destruct st as [i s cs]. unfold many. now apply repeat_lazy_one. Qed.

Lemma after_0 i s cs : after i s cs 0 = MState i s cs.
Proof. unfold after. now rewrite Nat.add_0_r. Qed.

Lemma after_S i x s cs n : after i (x :: s) cs (S n) = after (S i) s cs n.
Proof. unfold after. simpl. f_equal. lia. Qed.

(** [greedy_scan] fails when the continuation fails after every run. *)
Lemma greedy_scan_None (p : cu -> bool) (k : cont) (s : jsstring) :
  forall i cs,
    greedy_scan p k i s cs = None <->
    (forall n, n <= length s -> forallb p (firstn n s) = true -> k (after i s cs n) = None).
Proof.
  induction s as [|x s IH]; intros i cs; simpl.
  - split.
    + intros H n Hn _. assert (n = 0) by lia. subst. now rewrite after_0.
    + intros H. rewrite <- after_0. apply H; [lia | reflexivity].
  - destruct (p x) eqn:Px.
    + destruct (greedy_scan p k (S i) s cs) eqn:G.
      * split; [discriminate|]. intros H. exfalso.
        assert (G' : greedy_scan p k (S i) s cs <> None) by congruence.
        apply G'. apply IH. intros n Hn Hp. rewrite <- (after_S i x). apply H.
        -- simpl; lia.
        -- simpl. now rewrite Px.
      * split.
        -- intros H [|n] Hn Hp.
           ++ now rewrite after_0.
           ++ rewrite after_S. simpl in Hp. rewrite Px in Hp.
              apply (proj1 (IH (S i) cs) G); [simpl in Hn; lia | exact Hp].
        -- intros H. rewrite <- after_0. apply H; [lia | reflexivity].
    + split.
      * intros H [|n] Hn Hp; [now rewrite after_0|].
        simpl in Hp. now rewrite Px in Hp.
      * intros H. rewrite <- after_0. apply H; [lia | reflexivity].
Qed.

(** [greedy_scan] returns what the continuation returns after the longest
    run that it accepts. *)
Lemma greedy_scan_Some (p : cu -> bool) (k : cont) (s : jsstring) :
  forall i cs r,
    greedy_scan p k i s cs = Some r <->
    exists n, n <= length s /\ forallb p (firstn n s) = true
      /\ k (after i s cs n) = Some r
      /\ (forall j, n < j -> j <= length s -> forallb p (firstn j s) = true ->
          k (after i s cs j) = None).
Proof.
  induction s as [|x s IH]; intros i cs r; simpl.
  - split.
    + intros H. exists 0. rewrite after_0. repeat split; auto. intros; lia.
    + intros (n & Hn & _ & Hk & _). assert (n = 0) by lia. subst.
      now rewrite after_0 in Hk.
  - destruct (p x) eqn:Px.
    + destruct (greedy_scan p k (S i) s cs) eqn:G.
      * apply IH in G as (n & Hn & Hp & Hk & Hmax). split.
        -- intros E. injection E as <-. exists (S n). rewrite after_S. simpl. rewrite Px.
           repeat split; auto; [lia|].
           intros [|j] Hj Hj' Hpj; [lia|]. rewrite after_S. simpl in Hpj.
           rewrite Px in Hpj. apply Hmax; [lia | simpl in Hj'; lia | exact Hpj].
        -- intros (n' & Hn' & Hp' & Hk' & Hmax').
           destruct (Nat.lt_trichotomy n' (S n)) as [L | [E | L]].
           ++ rewrite <- (after_S i x) in Hk. rewrite (Hmax' (S n)) in Hk;
                [discriminate | lia | simpl; lia | simpl; now rewrite Px].
           ++ subst. rewrite after_S in Hk'. congruence.
           ++ destruct n' as [|n']; [lia|]. rewrite after_S in Hk'. simpl in Hp'.
              rewrite Px in Hp'. rewrite (Hmax n') in Hk';
                [discriminate | lia | simpl in Hn'; lia | exact Hp'].
      * pose proof (proj1 (greedy_scan_None p k s (S i) cs) G) as N. split.
        -- intros H. exists 0. rewrite after_0. repeat split; auto; [lia|].
           intros [|j] Hj Hj' Hpj; [lia|]. rewrite after_S. simpl in Hpj.
           rewrite Px in Hpj. apply N; [simpl in Hj'; lia | exact Hpj].
        -- intros ([|n] & Hn & Hp & Hk & _); [now rewrite after_0 in Hk|].
           rewrite after_S in Hk. simpl in Hp. rewrite Px in Hp.
           rewrite N in Hk; [discriminate | simpl in Hn; lia | exact Hp].
    + split.
      * intros H. exists 0. rewrite after_0. repeat split; auto; [lia|].
        intros [|j] Hj Hj' Hpj; [lia|]. simpl in Hpj. now rewrite Px in Hpj.
      * intros ([|n] & Hn & Hp & Hk & _); [now rewrite after_0 in Hk|].
        simpl in Hp. now rewrite Px in Hp.
Qed.

(** [lazy_scan] returns what the continuation returns after the shortest
    run that it accepts. *)
Lemma lazy_scan_Some (p : cu -> bool) (k : cont) (s : jsstring) :
  forall i cs r,
    lazy_scan p k i s cs = Some r <->
    exists n, n <= length s /\ forallb p (firstn n s) = true
      /\ k (after i s cs n) = Some r
      /\ (forall j, j < n -> k (after i s cs j) = None).
Proof.
  induction s as [|x s IH]; intros i cs r; simpl.
  - destruct (k (MState i [] cs)) eqn:K.
    + split.
      * intros E. injection E as <-. exists 0. rewrite after_0.
        repeat split; auto. intros; lia.
      * intros (n & Hn & _ & Hk & _). assert (n = 0) by lia. subst.
        rewrite after_0 in Hk. congruence.
    + split; [discriminate|]. intros (n & Hn & _ & Hk & _).
      assert (n = 0) by lia. subst. rewrite after_0 in Hk. congruence.
  - destruct (k (MState i (x :: s) cs)) eqn:K.
    + split.
      * intros E. injection E as <-. exists 0. rewrite after_0.
        repeat split; auto; [lia|]. intros; lia.
      * intros ([|n] & Hn & _ & Hk & Hmin).
        -- rewrite after_0 in Hk. congruence.
        -- specialize (Hmin 0). rewrite after_0 in Hmin. rewrite Hmin in K; [discriminate|lia].
    + destruct (p x) eqn:Px.
      * rewrite IH. split.
        -- intros (n & Hn & Hp & Hk & Hmin). exists (S n). rewrite after_S. simpl.
           rewrite Px. repeat split; auto; [lia|].
           intros [|j] Hj; [now rewrite after_0|]. rewrite after_S. apply Hmin. lia.
        -- intros ([|n] & Hn & Hp & Hk & Hmin).
           ++ rewrite after_0 in Hk. congruence.
           ++ exists n. rewrite after_S in Hk. simpl in Hp. rewrite Px in Hp.
              repeat split; auto; [simpl in Hn; lia|].
              intros j Hj. rewrite <- (after_S i x). apply Hmin. lia.
      * split; [discriminate|]. intros ([|n] & Hn & Hp & Hk & _).
        -- rewrite after_0 in Hk. congruence.
        -- simpl in Hp. now rewrite Px in Hp.
Qed.

(** ** Literals, anchors, white space *)

Lemma rmatch_Lit (ic : bool) (p : jsstring) (k : cont) :
  forall i s cs,
    rmatch ic (Lit p) (MState i s cs) k
    = if starts ic p s then k (after i s cs (length p)) else None.
Proof.
  induction p as [|c p IH]; intros i s cs; simpl.
  - now rewrite after_0.
  - unfold one. simpl. destruct s as [|x s]; [reflexivity|].
    destruct (char_matches ic c x); [|reflexivity]. simpl.
    rewrite IH. now rewrite after_S.
Qed.

Lemma exec_from_Bol (ic : bool) (r : regex) (s : jsstring) :
  forall i, 0 < i -> exec_from ic (Cat Bol r) i s = None.
Proof.
  induction s as [|x s IH]; intros i Hi; simpl;
    destruct (Nat.eqb_spec i 0); try lia; [reflexivity|].
  apply IH. lia.
Qed.

(** An anchored pattern matches at index 0 or not at all. *)
Lemma exec_Bol (ic : bool) (r : regex) (s : jsstring) :
  exec ic (Cat Bol r) s
  = match rmatch ic r (MState 0 s []) (fun st => Some st) with
    | Some st => Some (MatchResult 0 (pos st) (caps st))
    | None => None
    end.
Proof.
  unfold exec. destruct s as [|x s]; simpl.
  - destruct (rmatch ic r _ _); reflexivity.
  - destruct (rmatch ic r _ _); [reflexivity|]. apply exec_from_Bol. lia.
Qed.

Lemma trimStart_length (s : jsstring) : length (trimStart s) <= length s.
Proof.
  induction s as [|x s IH]; simpl; [lia|]. destruct (isSpace x); simpl; lia.
Qed.

Lemma skipn_trimStart (s : jsstring) :
  skipn (length s - length (trimStart s)) s = trimStart s.
Proof.
  induction s as [|x s IH]; [reflexivity|].
  cbn [trimStart]. destruct (isSpace x).
  - pose proof (trimStart_length s).
    change (length (x :: s)) with (S (length s)).
    replace (S (length s) - length (trimStart s))
      with (S (length s - length (trimStart s))) by lia.
    cbn [skipn]. exact IH.
  - now rewrite Nat.sub_diag.
Qed.

(** [\s*] followed by nothing takes all the leading white space. *)
Lemma greedy_space_all (s : jsstring) :
  forall i cs,
    greedy_scan isSpace (fun st => Some st) i s cs
    = Some (MState (i + (length s - length (trimStart s))) (trimStart s) cs).
Proof.
  induction s as [|x s IH]; intros i cs.
  - simpl. now rewrite Nat.add_0_r.
  - cbn [greedy_scan trimStart]. destruct (isSpace x).
    + rewrite IH. pose proof (trimStart_length s).
      change (length (x :: s)) with (S (length s)). do 2 f_equal. lia.
    + rewrite Nat.sub_diag. now rewrite Nat.add_0_r.
Qed.

Lemma starts_length (ic : bool) (p s : jsstring) :
  starts ic p s = true -> length p <= length s.
Proof.
  revert s; induction p as [|c p IH]; intros [|x s] H; simpl in *; try lia;
    try discriminate.
  apply andb_true_iff in H as [_ H]. apply IH in H. lia.
Qed.

(** The four [replace] calls of [parseBookFromMessage]. *)
Lemma replace_prefix (p s : jsstring) :
  replace_empty true (SyncBooks.prefixRegex p) s = SyncBooks.strip_prefix p s.
Proof.
  unfold replace_empty, SyncBooks.prefixRegex, SyncBooks.strip_prefix.
  rewrite exec_Bol. simpl. rewrite rmatch_Lit.
  destruct (starts true p s) eqn:E; [|reflexivity].
  change (rmatch true Space) with (one isSpace).
  rewrite many_greedy_one. unfold after. simpl. rewrite greedy_space_all. simpl.
  pose proof (starts_length _ _ _ E) as L.
  pose proof (trimStart_length (skipn (length p) s)) as T.
  rewrite length_skipn in *.
  replace (length p + (length s - length p - length (trimStart (skipn (length p) s))))
    with ((length s - length p - length (trimStart (skipn (length p) s))) + length p) by lia.
  rewrite <- skipn_skipn. rewrite <- (length_skipn (length p) s).
  apply skipn_trimStart.
Qed.

Lemma lazy_scan_None (p : cu -> bool) (k : cont) (s : jsstring) :
  forall i cs,
    lazy_scan p k i s cs = None ->
    forall n, n <= length s -> forallb p (firstn n s) = true -> k (after i s cs n) = None.
Proof.
  induction s as [|x s IH]; intros i cs H n Hn Hp; simpl in H.
  - assert (n = 0) by (simpl in Hn; lia). subst. rewrite after_0.
    destruct (k (MState i [] cs)); [discriminate | reflexivity].
  - destruct (k (MState i (x :: s) cs)) eqn:K; [discriminate|].
    destruct n as [|n]; [now rewrite after_0|].
    simpl in Hp. apply andb_true_iff in Hp as [Px Hp]. rewrite Px in H.
    rewrite after_S. apply IH; [exact H | simpl in Hn; lia | exact Hp].
Qed.

(** A greedy run whose continuation wants the end of the input. *)
Lemma greedy_to_end (p : cu -> bool) (k : cont) (s : jsstring) :
  (forall st, rest st <> [] -> k st = None) ->
  forall i cs,
    greedy_scan p k i s cs
    = if forallb p s then k (after i s cs (length s)) else None.
Proof.
  intros Hk. induction s as [|x s IH]; intros i cs.
  - simpl. now rewrite after_0.
  - cbn [greedy_scan forallb]. destruct (p x); simpl.
    + rewrite IH. rewrite after_S.
      destruct (forallb p s).
      * destruct (k (after (S i) s cs (length s))); [reflexivity|].
        apply Hk. simpl. discriminate.
      * apply Hk. simpl. discriminate.
    + apply Hk. simpl. discriminate.
Qed.

(** Quantified one-code-unit patterns: [r] is [.], [\s] or [[^...]]. *)
Lemma rmatch_Plus_one (ic : bool) (r : regex) (p : cu -> bool) (k : cont)
    (i : nat) (s : jsstring) (cs : list (nat * jsstring)) :
  rmatch ic r = one p ->
  rmatch ic (Plus r) (MState i s cs) k
  = match s with
    | [] => None
    | x :: s' => if p x then greedy_scan p k (S i) s' cs else None
    end.
Proof.
  intros E. cbn [rmatch]. rewrite E. unfold one at 1. cbn [rest pos caps].
  destruct s as [|x s']; [reflexivity|]. destruct (p x); [|reflexivity].
  now rewrite many_greedy_one.
Qed.

Lemma rmatch_PlusLazy_one (ic : bool) (r : regex) (p : cu -> bool) (k : cont)
    (i : nat) (s : jsstring) (cs : list (nat * jsstring)) :
  rmatch ic r = one p ->
  rmatch ic (PlusLazy r) (MState i s cs) k
  = match s with
    | [] => None
    | x :: s' => if p x then lazy_scan p k (S i) s' cs else None
    end.
Proof.
  intros E. cbn [rmatch]. rewrite E. unfold one at 1. cbn [rest pos caps].
  destruct s as [|x s']; [reflexivity|]. destruct (p x); [|reflexivity].
  now rewrite many_lazy_one.
Qed.

Lemma rmatch_Star_one (ic : bool) (r : regex) (p : cu -> bool) (k : cont)
    (i : nat) (s : jsstring) (cs : list (nat * jsstring)) :
  rmatch ic r = one p ->
  rmatch ic (Star r) (MState i s cs) k = greedy_scan p k i s cs.
Proof. intros E. cbn [rmatch]. rewrite E. now rewrite many_greedy_one. Qed.

Lemma rmatch_Cat (ic : bool) (r1 r2 : regex) (st : mstate) (k : cont) :
  rmatch ic (Cat r1 r2) st k = rmatch ic r1 st (fun st1 => rmatch ic r2 st1 k).
Proof. reflexivity. Qed.

Lemma rmatch_Group (ic : bool) (n : nat) (r : regex) (st : mstate) (k : cont) :
  rmatch ic (Group n r) st k
  = rmatch ic r st (fun st1 =>
      k (MState (pos st1) (rest st1)
           ((n, firstn (pos st1 - pos st) (rest st)) :: caps st1))).
Proof. reflexivity. Qed.

Section ByRegex.

Import SyncBooks.

Lemma byRegex_parts : byRegex = Cat Bol (Cat (Group 1 (PlusLazy Dot)) separatorPart).
Proof. reflexivity. Qed.

(** (.+)$ *)
Lemma author_match (i : nat) (u : jsstring) (cs : list (nat * jsstring)) :
  rmatch true authorPart (MState i u cs) (fun st => Some st)
  = match u with
    | [] => None
    | _ :: _ => if forallb notLT u
                then Some (MState (i + length u) [] ((2, u) :: cs)) else None
    end.
Proof.
  unfold authorPart. rewrite rmatch_Cat, rmatch_Group.
  rewrite (rmatch_Plus_one true Dot notLT) by reflexivity.
  destruct u as [|x u]; [reflexivity|].
  cbn [forallb]. destruct (notLT x); [|reflexivity]. cbn [andb].
  rewrite greedy_to_end.
  - destruct (forallb notLT u); [|reflexivity].
    unfold after. cbn [rmatch rest pos caps]. rewrite skipn_all.
    replace (S i + length u - i) with (S (length u)) by lia.
    cbn [firstn]. rewrite firstn_all. do 2 f_equal. simpl. lia.
  - intros st Hst. cbn [rmatch rest]. destruct (rest st); [congruence | reflexivity].
Qed.

(** \s+(.+)$ *)
Lemma afterBy_sound (i : nat) (u : jsstring) (cs : list (nat * jsstring)) (r : mstate) :
  rmatch true afterBy (MState i u cs) (fun st => Some st) = Some r ->
  exists w2 a,
    u = w2 ++ a /\ w2 <> [] /\ forallb isSpace w2 = true
    /\ a <> [] /\ forallb notLT a = true /\ caps r = (2, a) :: cs.
Proof.
  unfold afterBy. rewrite rmatch_Cat.
  rewrite (rmatch_Plus_one true Space isSpace) by reflexivity.
  destruct u as [|x u]; [discriminate|].
  destruct (isSpace x) eqn:Sx; [|discriminate]. intros H.
  apply greedy_scan_Some in H as (n & Hn & Hp & Hk & _).
  unfold after in Hk. rewrite author_match in Hk.
  destruct (skipn n u) as [|y a] eqn:E; [discriminate|].
  destruct (forallb notLT (y :: a)) eqn:Ha; [|discriminate].
  injection Hk as <-.
  exists (x :: firstn n u), (y :: a). repeat split.
  - simpl. rewrite <- E. now rewrite firstn_skipn.
  - discriminate.
  - simpl. now rewrite Sx, Hp.
  - discriminate.
  - exact Ha.
Qed.

Lemma afterBy_complete (i : nat) (w2 a : jsstring) (cs : list (nat * jsstring)) :
  w2 <> [] -> forallb isSpace w2 = true -> a <> [] -> forallb notLT a = true ->
  rmatch true afterBy (MState i (w2 ++ a) cs) (fun st => Some st) <> None.
Proof.
  intros Hw Hs Ha Hl. unfold afterBy. rewrite rmatch_Cat.
  rewrite (rmatch_Plus_one true Space isSpace) by reflexivity.
  destruct w2 as [|x w2]; [congruence|]. simpl in Hs.
  apply andb_true_iff in Hs as [Sx Hs]. cbn [app]. rewrite Sx. intros N.
  pose proof (proj1 (greedy_scan_None _ _ _ _ _) N (length w2)) as K.
  unfold after in K. rewrite skipn_app, skipn_all, Nat.sub_diag in K.
  cbn beta in K. cbn [skipn app] in K.
  rewrite author_match in K. destruct a as [|y a]; [congruence|].
  rewrite Hl in K. 
  assert (Some (MState (S i + length w2 + length (y :: a)) [] ((2, y :: a) :: cs)) = None);
    [|discriminate].
  apply K.
  - rewrite length_app. lia.
  - rewrite firstn_app, firstn_all, Nat.sub_diag. simpl. now rewrite app_nil_r.
Qed.

Lemma starts_by (u : jsstring) :
  starts true (lit "by") u = true <-> exists b y u', u = b :: y :: u' /\ is_by b y = true.
Proof.
  unfold is_by. split.
  - destruct u as [|b [|y u']]; simpl; try discriminate.
    + now rewrite andb_false_r.
    + intros H. exists b, y, u'. split; [reflexivity|].
      now rewrite andb_true_r in H.
  - intros (b & y & u' & -> & H). simpl. now rewrite andb_true_r.
Qed.

(** \s+by\s+(.+)$ *)
Lemma separatorPart_sound (i : nat) (u : jsstring) (cs : list (nat * jsstring)) (r : mstate) :
  rmatch true separatorPart (MState i u cs) (fun st => Some st) = Some r ->
  exists w1 b y w2 a,
    u = w1 ++ [b; y] ++ w2 ++ a
    /\ w1 <> [] /\ forallb isSpace w1 = true
    /\ is_by b y = true
    /\ w2 <> [] /\ forallb isSpace w2 = true
    /\ a <> [] /\ forallb notLT a = true /\ caps r = (2, a) :: cs.
Proof.
  unfold separatorPart. rewrite rmatch_Cat.
  rewrite (rmatch_Plus_one true Space isSpace) by reflexivity.
  destruct u as [|x u]; [discriminate|].
  destruct (isSpace x) eqn:Sx; [|discriminate]. intros H.
  apply greedy_scan_Some in H as (n & Hn & Hp & Hk & _).
  unfold after in Hk. unfold byPart in Hk. rewrite rmatch_Cat, rmatch_Lit in Hk.
  destruct (starts true (lit "by") (skipn n u)) eqn:B; [|discriminate].
  apply starts_by in B as (b & y & u' & E & Hby).
  unfold after in Hk. rewrite E in Hk. simpl skipn in Hk.
  apply afterBy_sound in Hk as (w2 & a & -> & Hw2 & Hs2 & Ha & Hl & Hc).
  exists (x :: firstn n u), b, y, w2, a. repeat split; try assumption.
  - simpl. f_equal. rewrite <- (firstn_skipn n u) at 1. now rewrite E.
  - discriminate.
  - simpl. now rewrite Sx, Hp.
Qed.

Lemma separatorPart_complete (i : nat) (w1 w2 a : jsstring) (b y : cu) (cs : list (nat * jsstring)) :
  w1 <> [] -> forallb isSpace w1 = true -> is_by b y = true ->
  w2 <> [] -> forallb isSpace w2 = true -> a <> [] -> forallb notLT a = true ->
  rmatch true separatorPart (MState i (w1 ++ [b; y] ++ w2 ++ a) cs) (fun st => Some st) <> None.
Proof.
  intros Hw1 Hs1 Hby Hw2 Hs2 Ha Hl. unfold separatorPart. rewrite rmatch_Cat.
  rewrite (rmatch_Plus_one true Space isSpace) by reflexivity.
  destruct w1 as [|x w1]; [congruence|]. simpl in Hs1.
  apply andb_true_iff in Hs1 as [Sx Hs1]. cbn [app]. rewrite Sx. intros N.
  pose proof (proj1 (greedy_scan_None _ _ _ _ _) N (length w1)) as K.
  unfold after in K. rewrite skipn_app, skipn_all, Nat.sub_diag in K.
  cbn beta in K. cbn [skipn app] in K.
  unfold byPart in K. rewrite rmatch_Cat, rmatch_Lit in K.
  assert (B : starts true (lit "by") (b :: y :: w2 ++ a) = true)
    by (apply starts_by; eauto).
  rewrite B in K. unfold after in K. simpl skipn in K.
  eapply afterBy_complete; [exact Hw2 | exact Hs2 | exact Ha | exact Hl |].
  apply K.
  - rewrite length_app. lia.
  - rewrite firstn_app, firstn_all, Nat.sub_diag. simpl. now rewrite app_nil_r.
Qed.

End ByRegex.

Section ByExec.

Import SyncBooks.

Lemma app_same_length {A} (a b c d : list A) :
  a ++ b = c ++ d -> length a = length c -> a = c /\ b = d.
Proof.
  revert c; induction a as [|x a IH]; intros [|y c] H L; simpl in *;
    try discriminate; [now split|].
  injection H as -> H. injection L as L. destruct (IH c H L) as [-> ->]. now split.
Qed.

(** What the match of [byRegex] is made of. *)
Lemma by_exec_sound (s : jsstring) (m : match_result) :
  exec true byRegex s = Some m ->
  exists t a,
    by_split s t a /\ group 1 m = Some t /\ group 2 m = Some a
    /\ (forall t' a', by_split s t' a' -> length t <= length t').
Proof.
  rewrite byRegex_parts, exec_Bol, rmatch_Cat, rmatch_Group.
  rewrite (rmatch_PlusLazy_one true Dot notLT) by reflexivity.
  destruct s as [|x s]; [discriminate|].
  destruct (notLT x) eqn:Lx; [|discriminate].
  destruct (lazy_scan _ _ _ _ _) as [st|] eqn:L; [|discriminate].
  intros E. injection E as <-.
  apply lazy_scan_Some in L as (n & Hn & Hp & Hk & Hmin).
  unfold after in Hk. cbn [pos rest caps] in Hk.
  apply separatorPart_sound in Hk as (w1 & b & y & w2 & a & E & H1 & H2 & H3 & H4 & H5 & H6 & H7 & Hc).
  exists (x :: firstn n s), a. split; [|split; [|split]].
  - exists w1, b, y, w2. repeat split; try assumption.
    + cbn [app]. f_equal. rewrite <- (firstn_skipn n s) at 1. rewrite E. reflexivity.
    + discriminate.
    + simpl. now rewrite Lx, Hp.
  - unfold group. cbn [m_caps]. rewrite Hc. simpl.
    replace (n - 0) with n by lia. reflexivity.
  - unfold group. cbn [m_caps]. rewrite Hc. reflexivity.
  - intros t' a' (w1' & b' & y' & w2' & E' & T1 & T2 & T3 & T4 & T5 & T6 & T7 & T8 & T9).
    simpl. rewrite length_firstn. rewrite Nat.min_l by exact Hn.
    destruct t' as [|x' t']; [congruence|]. simpl.
    destruct (Nat.le_gt_cases n (length t')) as [Hle | Hlt]; [lia|]. exfalso.
    simpl in E'. injection E' as -> E'.
    specialize (Hmin (length t') Hlt). unfold after in Hmin. cbn [pos rest caps] in Hmin.
    rewrite E' in Hmin at 1. rewrite skipn_app, skipn_all, Nat.sub_diag in Hmin.
    cbn [skipn app] in Hmin.
    apply (separatorPart_complete (S (length t')) w1' w2' a' b' y'
             [(1, firstn (S (length t') - 0)
                    (x' :: s))]); assumption.
Qed.

(** A text that can be split is matched. *)
Lemma by_exec_complete (s t a : jsstring) :
  by_split s t a -> exec true byRegex s <> None.
Proof.
  intros (w1 & b & y & w2 & E & T1 & T2 & T3 & T4 & T5 & T6 & T7 & T8 & T9).
  rewrite byRegex_parts, exec_Bol, rmatch_Cat, rmatch_Group.
  rewrite (rmatch_PlusLazy_one true Dot notLT) by reflexivity.
  destruct t as [|x t]; [congruence|]. subst s. cbn [app].
  simpl in T2. apply andb_true_iff in T2 as [Lx T2]. rewrite Lx.
  destruct (lazy_scan _ _ _ _ _) as [st|] eqn:L; [discriminate|]. exfalso.
  pose proof (lazy_scan_None _ _ _ _ _ L (length t)) as K.
  unfold after in K. cbn [pos rest caps] in K.
  rewrite skipn_app, skipn_all, Nat.sub_diag in K. cbn [skipn app] in K.
  eapply (separatorPart_complete _ w1 w2 a b y); try eassumption.
  apply K.
  - rewrite length_app. lia.
  - rewrite firstn_app, firstn_all, Nat.sub_diag. simpl. now rewrite app_nil_r.
Qed.

Lemma trimStart_spaces (w a : jsstring) :
  forallb isSpace w = true -> trimStart (w ++ a) = trimStart a.
Proof.
  induction w as [|x w IH]; simpl; intros H; [reflexivity|].
  apply andb_true_iff in H as [-> H]. now apply IH.
Qed.

Lemma matches_b (b : cu) : char_matches true 98%N b = true -> b = 98%N \/ b = 66%N.
Proof.
  unfold char_matches. change (true && (98 <? 128)%N)%bool with true. cbn [andb].
  destruct (b <? 128)%N.
  - change (asciiUpper 98%N) with 66%N. unfold asciiUpper.
    destruct ((97 <=? b)%N && (b <=? 122)%N) eqn:R; intros H; apply N.eqb_eq in H.
    + apply andb_true_iff in R as [R1 R2]. apply N.leb_le in R1, R2. left. lia.
    + now right.
  - intros H. apply N.eqb_eq in H. now left.
Qed.

Lemma is_by_not_space (b y : cu) : is_by b y = true -> isSpace b = false.
Proof.
  unfold is_by. intros H. apply andb_true_iff in H as [H _].
  apply matches_b in H as [-> | ->]; reflexivity.
Qed.

(** The white space before "by" is determined by what precedes it. *)
Lemma space_run_unique (w w' : jsstring) (b b' : cu) (u u' : jsstring) :
  forallb isSpace w = true -> forallb isSpace w' = true ->
  isSpace b = false -> isSpace b' = false ->
  w ++ b :: u = w' ++ b' :: u' -> w = w' /\ b :: u = b' :: u'.
Proof.
  revert w'; induction w as [|x w IH]; intros [|x' w'] Hw Hw' Hb Hb' E; simpl in *.
  - now split.
  - injection E as -> E. apply andb_true_iff in Hw' as [Hx _]. congruence.
  - injection E as -> E. apply andb_true_iff in Hw as [Hx _]. congruence.
  - injection E as -> E. apply andb_true_iff in Hw as [_ Hw].
    apply andb_true_iff in Hw' as [_ Hw'].
    destruct (IH w' Hw Hw' Hb Hb' E) as [-> E']. now split.
Qed.

(** Two splits with the same title part give the same trimmed author. *)
Lemma by_split_author (s t a a' : jsstring) :
  by_split s t a -> by_split s t a' -> trim a = trim a'.
Proof.
  intros (w1 & b & y & w2 & E & _ & _ & _ & S1 & B & _ & S2 & _ & _)
         (w1' & b' & y' & w2' & E' & _ & _ & _ & S1' & B' & _ & S2' & _ & _).
  rewrite E in E'. apply app_inv_head in E'.
  simpl in E'.
  apply space_run_unique in E' as [_ E'];
    [| assumption | assumption | eapply is_by_not_space; eassumption
     | eapply is_by_not_space; eassumption].
  injection E' as _ _ E'.
  unfold trim. rewrite <- (trimStart_spaces w2 a S2), <- (trimStart_spaces w2' a' S2').
  now rewrite E'.
Qed.

Lemma by_split_title (s t t' a a' : jsstring) :
  by_split s t a -> by_split s t' a' -> length t = length t' -> t = t'.
Proof.
  intros (w1 & b & y & w2 & E & _) (w1' & b' & y' & w2' & E' & _) L.
  rewrite E in E'. now apply app_same_length in E' as [-> _].
Qed.

(** [parseBookFromMessage] on a text that splits, and on one that does not. *)
Lemma parse_split (text t a : jsstring) :
  by_split (cleanText text) t a ->
  (forall t' a', by_split (cleanText text) t' a' -> length t <= length t') ->
  parseBookFromMessage text
  = Some {| title := trim t; author := Some (trim a); isbn := None |}.
Proof.
  intros Hs Hmin. unfold parseBookFromMessage.
  destruct (exec true byRegex (cleanText text)) as [m|] eqn:E.
  - apply by_exec_sound in E as (t0 & a0 & Hs0 & G1 & G2 & Hmin0).
    rewrite G1, G2. simpl.
    assert (t0 = t).
    { apply (by_split_title _ _ _ _ _ Hs0 Hs).
      apply Nat.le_antisymm; [eapply Hmin0 | eapply Hmin]; eassumption. }
    subst t0. now rewrite (by_split_author _ _ _ _ Hs0 Hs).
  - exfalso. eapply by_exec_complete; eassumption.
Qed.

Lemma parse_no_split (text : jsstring) :
  (forall t a, ~ by_split (cleanText text) t a) ->
  parseBookFromMessage text
  = if Nat.ltb 0 (length (cleanText text)) && Nat.ltb (length (cleanText text)) 200
    then Some {| title := cleanText text; author := None; isbn := None |}
    else None.
Proof.
  intros H. unfold parseBookFromMessage.
  destruct (exec true byRegex (cleanText text)) as [m|] eqn:E; [|reflexivity].
  apply by_exec_sound in E as (t0 & a0 & Hs0 & _). now elim (H t0 a0).
Qed.

(** Either there is a shortest split, or there is none. *)
Lemma by_split_cases (s : jsstring) :
  (exists t a, by_split s t a
               /\ forall t' a', by_split s t' a' -> length t <= length t')
  \/ (forall t a, ~ by_split s t a).
Proof.
  destruct (exec true byRegex s) as [m|] eqn:E.
  - left. apply by_exec_sound in E as (t & a & Hs & _ & _ & Hmin). eauto.
  - right. intros t a Hs. eapply by_exec_complete; eassumption.
Qed.

Lemma cleanText_spec (text : jsstring) :
  cleanText text
  = trim (strip_prefix (lit "now reading:")
         (strip_prefix (lit "reading:")
         (strip_prefix (lit "currently reading:")
         (strip_prefix book_emoji text)))).
Proof. unfold cleanText. now rewrite !replace_prefix. Qed.

End ByExec.

(** A greedy run that stops at a code unit outside the class. *)
Lemma greedy_run (p : cu -> bool) (k : cont) (run : jsstring) (c : cu) (u : jsstring)
    (cs : list (nat * jsstring)) (r : mstate) :
  forallb p run = true -> p c = false ->
  forall i,
    k (MState (i + length run) (c :: u) cs) = Some r ->
    greedy_scan p k i (run ++ c :: u) cs = Some r.
Proof.
  intros Hp Hc. induction run as [|x run IH]; intros i Hk; simpl in *.
  - rewrite Hc. now rewrite Nat.add_0_r in Hk.
  - apply andb_true_iff in Hp as [-> Hp]. rewrite IH; [reflexivity | exact Hp |].
    rewrite <- Hk. do 2 f_equal. lia.
Qed.

Lemma starts_exact (p s : jsstring) : starts false p (p ++ s) = true.
Proof.
  induction p as [|c p IH]; simpl; [reflexivity|].
  unfold char_matches. simpl. now rewrite N.eqb_refl.
Qed.

Lemma after_app (i : nat) (p s : jsstring) (cs : list (nat * jsstring)) :
  after i (p ++ s) cs (length p) = MState (i + length p) s cs.
Proof. unfold after. now rewrite skipn_app, skipn_all, Nat.sub_diag. Qed.

Lemma rmatch_Lit_exact (p s : jsstring) (k : cont) (i : nat) (cs : list (nat * jsstring)) :
  rmatch false (Lit p) (MState i (p ++ s) cs) k = k (MState (i + length p) s cs).
Proof. now rewrite rmatch_Lit, starts_exact, after_app. Qed.

Lemma rmatch_Plus_run (ic : bool) (r : regex) (p : cu -> bool) (k : cont)
    (i : nat) (x : cu) (run : jsstring) (c : cu) (u : jsstring)
    (cs : list (nat * jsstring)) (res : mstate) :
  rmatch ic r = one p ->
  forallb p (x :: run) = true -> p c = false ->
  k (MState (i + length (x :: run)) (c :: u) cs) = Some res ->
  rmatch ic (Plus r) (MState i (x :: run ++ c :: u) cs) k = Some res.
Proof.
  intros E Hp Hc Hk. rewrite (rmatch_Plus_one ic r p) by exact E.
  cbn [forallb] in Hp. apply andb_true_iff in Hp as [-> Hp].
  apply greedy_run; [exact Hp | exact Hc |].
  rewrite <- Hk. do 2 f_equal. simpl. lia.
Qed.

Lemma rmatch_Opt_take (ic : bool) (r : regex) (st : mstate) (k : cont) (res : mstate) :
  rmatch ic r st (fun st1 =>
    if Nat.ltb (length (rest st1)) (length (rest st)) then k st1 else None) = Some res ->
  rmatch ic (Opt r) st k = Some res.
Proof. intros H. cbn [rmatch]. now rewrite H. Qed.

Lemma rmatch_Opt_skip (ic : bool) (r : regex) (st : mstate) (k : cont) :
  rmatch ic r st (fun st1 =>
    if Nat.ltb (length (rest st1)) (length (rest st)) then k st1 else None) = None ->
  rmatch ic (Opt r) st k = k st.
Proof. intros H. cbn [rmatch]. now rewrite H. Qed.

Section UrlRegex.

Import SyncBookmarks.

(** (https?:\/\/[^>|]+) on a url that ends at a ">" or a "|". *)
Lemma url_group_match (https : bool) (i : nat) (x : cu) (body : jsstring)
    (c : cu) (u : jsstring) (k : cont) (res : mstate) :
  forallb (notAmong (lit ">|")) (x :: body) = true ->
  notAmong (lit ">|") c = false ->
  let url := lit "http" ++ (if https then lit "s" else []) ++ lit "://" ++ x :: body in
  k (MState (i + length url) (c :: u) [(1, url)]) = Some res ->
  rmatch false
    (Group 1 (Cat (Lit (lit "http")) (Cat (Opt (Lit (lit "s")))
             (Cat (Lit (lit "://")) (Plus (NotIn (lit ">|")))))))
    (MState i (url ++ c :: u) []) k
  = Some res.
Proof.
  intros Hb Hc url Hk.
  assert (Ecap : firstn (length url) (url ++ c :: u) = url)
    by (rewrite firstn_app, firstn_all, Nat.sub_diag; simpl; now rewrite app_nil_r).
  assert (Elen : length url = (if https then 8 else 7) + length (x :: body)).
  { unfold url. destruct https; rewrite !length_app; reflexivity. }
  set (whole := url ++ c :: u) in *.
  rewrite rmatch_Group. cbn [pos rest caps]. rewrite rmatch_Cat.
  replace (MState i whole [])
    with (MState i (lit "http" ++ (if https then lit "s" else []) ++ lit "://"
                      ++ (x :: body) ++ c :: u) [])
    by (unfold whole, url; now rewrite <- !app_assoc).
  rewrite rmatch_Lit_exact. rewrite rmatch_Cat.
  assert (Hrest : forall j,
    j = i + (if https then 5 else 4) ->
    rmatch false (Cat (Lit (lit "://")) (Plus (NotIn (lit ">|"))))
      (MState j (lit "://" ++ (x :: body) ++ c :: u) [])
      (fun st1 => k (MState (pos st1) (rest st1)
                       ((1, firstn (pos st1 - i) whole) :: caps st1)))
    = Some res).
  { intros j Hj. rewrite rmatch_Cat, rmatch_Lit_exact. cbn [app].
    apply (rmatch_Plus_run false (NotIn (lit ">|")) (notAmong (lit ">|")));
      [reflexivity | exact Hb | exact Hc |].
    cbn [pos rest caps].
    replace (j + length (lit "://") + length (x :: body) - i)
      with (length url) by (rewrite Elen, Hj; destruct https; simpl; lia).
    rewrite Ecap. rewrite <- Hk. do 2 f_equal.
    rewrite Elen, Hj. destruct https; simpl; lia. }
  destruct https.
  - apply rmatch_Opt_take. rewrite rmatch_Lit_exact. cbn [pos rest caps].
    replace (length (lit "://" ++ (x :: body) ++ c :: u)
             <? length (lit "s" ++ lit "://" ++ (x :: body) ++ c :: u)) with true
      by (symmetry; apply Nat.ltb_lt; simpl; lia).
    apply Hrest. simpl. lia.
  - rewrite rmatch_Opt_skip.
    + cbn [app]. apply Hrest. simpl. lia.
    + reflexivity.
Qed.

(** A well-formed link [<url|label>] is matched where it stands. *)
Lemma url_link_match (https : bool) (i : nat) (x : cu) (body : jsstring)
    (y : cu) (label post : jsstring) :
  forallb (notAmong (lit ">|")) (x :: body) = true ->
  forallb (notAmong (lit ">")) (y :: label) = true ->
  let url := lit "http" ++ (if https then lit "s" else []) ++ lit "://" ++ x :: body in
  rmatch false urlRegex
    (MState i (lt :: url ++ bar :: y :: label ++ gt :: post) [])
    (fun st => Some st)
  = Some (MState (i + length url + length (y :: label) + 3) post
            [(2, y :: label); (1, url)]).
Proof.
  intros Hb Hl url. unfold urlRegex.
  rewrite rmatch_Cat. change (lit "<") with [lt].
  change (lt :: url ++ bar :: y :: label ++ gt :: post)
    with ([lt] ++ url ++ bar :: y :: label ++ gt :: post).
  rewrite rmatch_Lit_exact. rewrite rmatch_Cat.
  apply (url_group_match https (i + length [lt]) x body bar); [exact Hb | reflexivity |].
  fold url. rewrite rmatch_Cat. apply rmatch_Opt_take.
  rewrite rmatch_Cat. change (lit "|") with [bar].
  change (bar :: y :: label ++ gt :: post) with ([bar] ++ y :: label ++ gt :: post).
  rewrite rmatch_Lit_exact, rmatch_Group.
  apply (rmatch_Plus_run false (NotIn (lit ">")) (notAmong (lit ">")));
    [reflexivity | exact Hl | reflexivity |].
  cbn [pos rest caps].
  replace (length (gt :: post) <? length ([bar] ++ y :: label ++ gt :: post)) with true.
  2:{ symmetry. apply Nat.ltb_lt. simpl. rewrite length_app. simpl. lia. }
  change (lit ">") with [gt]. change (gt :: post) with ([gt] ++ post).
  rewrite rmatch_Lit_exact. f_equal. f_equal.
  - simpl. lia.
  - f_equal. f_equal.
    replace (i + length [lt] + length url + length [bar] + length (y :: label)
             - (i + length [lt] + length url + length [bar]))
      with (length (y :: label)) by lia.
    change (y :: label ++ [gt] ++ post) with ((y :: label) ++ [gt] ++ post).
    rewrite firstn_app, firstn_all, Nat.sub_diag. simpl. now rewrite app_nil_r.
Qed.

(** A well-formed link [<url>] is matched where it stands. *)
Lemma url_angled_match (https : bool) (i : nat) (x : cu) (body post : jsstring) :
  forallb (notAmong (lit ">|")) (x :: body) = true ->
  let url := lit "http" ++ (if https then lit "s" else []) ++ lit "://" ++ x :: body in
  rmatch false urlRegex (MState i (lt :: url ++ gt :: post) []) (fun st => Some st)
  = Some (MState (i + length url + 2) post [(1, url)]).
Proof.
  intros Hb url. unfold urlRegex.
  rewrite rmatch_Cat. change (lit "<") with [lt].
  change (lt :: url ++ gt :: post) with ([lt] ++ url ++ gt :: post).
  rewrite rmatch_Lit_exact. rewrite rmatch_Cat.
  apply (url_group_match https (i + length [lt]) x body gt); [exact Hb | reflexivity |].
  fold url. rewrite rmatch_Cat. rewrite rmatch_Opt_skip by reflexivity.
  change (lit ">") with [gt]. change (gt :: post) with ([gt] ++ post).
  rewrite rmatch_Lit_exact. do 2 f_equal. simpl. lia.
Qed.

End UrlRegex.

(** ** The matcher only moves forward *)

Lemma reaches_refl (st : mstate) : reaches st st.
Proof. exists 0. repeat split; [lia | lia |]. now exists []. Qed.

Lemma reaches_trans (a b c : mstate) : reaches a b -> reaches b c -> reaches a c.
Proof.
  intros (n & Hn & Pn & Rn & c1 & Cn) (m & Hm & Pm & Rm & c2 & Cm). exists (n + m).
  rewrite Rn in Hm. rewrite length_skipn in Hm.
  repeat split; [lia | lia | |].
  - rewrite Rm, Rn. rewrite skipn_skipn. f_equal. lia.
  - exists (c2 ++ c1). now rewrite Cm, Cn, app_assoc.
Qed.

Lemma one_forward (p : cu -> bool) : forward (one p).
Proof.
  intros [i s cs] k res. unfold one. simpl.
  destruct s as [|x s]; [discriminate|]. destruct (p x); [|discriminate].
  intros H. eexists. split; [|exact H]. exists 1. simpl.
  repeat split; [lia | lia |]. now exists [].
Qed.

Lemma repeat_forward (g : bool) (body : matcher) :
  forward body -> forall fuel, forward (repeat g body fuel).
Proof.
  intros Hb fuel. induction fuel as [|f IH]; intros st k res; simpl.
  - intros H. exists st. split; [apply reaches_refl | exact H].
  - assert (More : body st (fun st1 =>
              if length (rest st1) <? length (rest st) then repeat g body f st1 k else None)
            = Some res -> exists st', reaches st st' /\ k st' = Some res).
    { intros H. apply Hb in H as (st1 & R1 & H).
      destruct (length (rest st1) <? length (rest st)); [|discriminate].
      apply IH in H as (st2 & R2 & H). exists st2. split; [|exact H].
      eapply reaches_trans; eassumption. }
    destruct g.
    + destruct (body st _) eqn:B.
      * intros E. injection E as <-. now apply More.
      * intros H. exists st. split; [apply reaches_refl | exact H].
    + destruct (k st) eqn:K.
      * intros E. injection E as <-. exists st. split; [apply reaches_refl | exact K].
      * exact More.
Qed.

Lemma rmatch_forward (ic : bool) (r : regex) : forward (rmatch ic r).
Proof.
  induction r as [|c| | |cs| | |r1 IH1 r2 IH2|r1 IH1|r1 IH1|r1 IH1|r1 IH1|n r1 IH1];
    intros st k res; cbn [rmatch].
  - intros H. exists st. split; [apply reaches_refl | exact H].
  - apply one_forward.
  - apply one_forward.
  - apply one_forward.
  - apply one_forward.
  - destruct (pos st =? 0); [|discriminate].
    intros H. exists st. split; [apply reaches_refl | exact H].
  - destruct (rest st); [|discriminate].
    intros H. exists st. split; [apply reaches_refl | exact H].
  - intros H. apply IH1 in H as (st1 & R1 & H). apply IH2 in H as (st2 & R2 & H).
    exists st2. split; [eapply reaches_trans; eassumption | exact H].
  - destruct (rmatch ic r1 st _) eqn:B.
    + intros E. injection E as <-. apply IH1 in B as (st1 & R1 & H).
      destruct (length (rest st1) <? length (rest st)); [|discriminate].
      exists st1. now split.
    + intros H. exists st. split; [apply reaches_refl | exact H].
  - apply repeat_forward. exact IH1.
  - intros H. apply IH1 in H as (st1 & R1 & H).
    apply (repeat_forward true _ IH1) in H as (st2 & R2 & H).
    exists st2. split; [eapply reaches_trans; eassumption | exact H].
  - intros H. apply IH1 in H as (st1 & R1 & H).
    apply (repeat_forward false _ IH1) in H as (st2 & R2 & H).
    exists st2. split; [eapply reaches_trans; eassumption | exact H].
  - intros H. apply IH1 in H as (st1 & R1 & H).
    eexists. split; [|exact H]. destruct R1 as (m & Hm & Pm & Rm & c1 & Cm).
    exists m. cbn [pos rest caps]. repeat split; try assumption.
    eexists (_ :: c1). rewrite Cm. reflexivity.
Qed.

(** [exec_from] on a pattern that begins with a literal code unit: the
    match is not empty and lies within the input. *)
Lemma exec_from_bounds (ic : bool) (c : cu) (r : regex) (s : jsstring) :
  forall i m,
    exec_from ic (Cat (Lit [c]) r) i s = Some m ->
    i <= m_index m /\ m_index m < m_end m /\ m_end m <= i + length s.
Proof.
  induction s as [|x s IH]; intros i m; cbn [exec_from].
  - rewrite rmatch_Cat, rmatch_Lit. simpl. discriminate.
  - destruct (rmatch ic (Cat (Lit [c]) r) _ _) as [st|] eqn:M.
    + intros E. injection E as <-. cbn [m_index m_end].
      rewrite rmatch_Cat, rmatch_Lit in M.
      destruct (starts ic [c] (x :: s)); [|discriminate].
      apply rmatch_forward in M as (st' & (n & Hn & Pn & Rn & _) & E).
      injection E as <-. unfold after in *. cbn [pos rest length skipn] in *.
      simpl. lia.
    + intros H. apply IH in H. simpl. lia.
Qed.

(** More fuel does not change the matches found by the [exec] loop. *)
Lemma exec_loop_fuel (ic : bool) (c : cu) (r : regex) :
  forall f1 f2 s i,
    length s < f1 -> length s < f2 ->
    exec_loop ic (Cat (Lit [c]) r) f1 i s = exec_loop ic (Cat (Lit [c]) r) f2 i s.
Proof.
  induction f1 as [|f1 IH]; intros [|f2] s i H1 H2; try lia.
  cbn [exec_loop]. destruct (exec_from ic _ i s) as [m|] eqn:E; [|reflexivity].
  f_equal. apply exec_from_bounds in E as (B1 & B2 & B3).
  apply IH; rewrite length_skipn; lia.
Qed.

Lemma cap_lookup_app (i : nat) (u : jsstring) (a b : list (nat * jsstring)) :
  exists v, cap_lookup i (a ++ (i, u) :: b) = Some v.
Proof.
  induction a as [|[j w] a IH]; simpl.
  - rewrite Nat.eqb_refl. eauto.
  - destruct (Nat.eqb i j); eauto.
Qed.

(** A group that is not under a quantifier or an alternative is set in
    every match: here group 1 of [r1 (g) r2]. *)
Lemma exec_from_group (ic : bool) (r1 g r2 : regex) (s : jsstring) :
  forall i m,
    exec_from ic (Cat r1 (Cat (Group 1 g) r2)) i s = Some m ->
    exists u, group 1 m = Some u.
Proof.
  assert (Hit : forall i s st,
    rmatch ic (Cat r1 (Cat (Group 1 g) r2)) (MState i s []) (fun st => Some st) = Some st ->
    exists u, cap_lookup 1 (caps st) = Some u).
  { intros i s0 st M. rewrite rmatch_Cat in M.
    apply rmatch_forward in M as (st1 & _ & M). rewrite rmatch_Cat, rmatch_Group in M.
    apply rmatch_forward in M as (st2 & _ & M).
    apply rmatch_forward in M as (st3 & (n & _ & _ & _ & added & C) & M).
    injection M as <-. cbn [caps] in C. rewrite C. apply cap_lookup_app. }
  induction s as [|x s IH]; intros i m; cbn [exec_from];
    destruct (rmatch ic _ _ _) as [st|] eqn:M; try discriminate.
  - intros E. injection E as <-. unfold group. cbn [m_caps]. eapply Hit; eassumption.
  - intros E. injection E as <-. unfold group. cbn [m_caps]. eapply Hit; eassumption.
  - apply IH.
Qed.


(** ** The fuel of [many] is enough *)

Lemma one_proper (p : cu -> bool) : proper (one p).
Proof.
  intros st k1 k2 H. unfold one. destruct (rest st) as [|x s]; [reflexivity|].
  destruct (p x); [apply H | reflexivity].
Qed.

Lemma repeat_proper (g : bool) (body : matcher) :
  proper body -> forall fuel, proper (repeat g body fuel).
Proof.
  intros Hb fuel. induction fuel as [|f IH]; intros st k1 k2 H; simpl; [apply H|].
  rewrite (Hb st _ (fun st1 =>
    if length (rest st1) <? length (rest st) then repeat g body f st1 k2 else None)).
  - rewrite (H st). reflexivity.
  - intros st1. destruct (length (rest st1) <? length (rest st)); [|reflexivity].
    now apply IH.
Qed.

Lemma rmatch_proper (ic : bool) (r : regex) : proper (rmatch ic r).
Proof.
  induction r as [|c| | |cs| | |r1 IH1 r2 IH2|r1 IH1|r1 IH1|r1 IH1|r1 IH1|n r1 IH1];
    intros st k1 k2 H; cbn [rmatch]; try (apply one_proper; exact H).
  - apply H.
  - destruct (pos st =? 0); [apply H | reflexivity].
  - destruct (rest st); [apply H | reflexivity].
  - apply IH1. intros st1. now apply IH2.
  - rewrite (IH1 st _ (fun st1 =>
      if length (rest st1) <? length (rest st) then k2 st1 else None)).
    + now rewrite (H st).
    + intros st1. destruct (length (rest st1) <? length (rest st)); [apply H | reflexivity].
  - apply repeat_proper; assumption.
  - apply IH1. intros st1. apply repeat_proper; assumption.
  - apply IH1. intros st1. apply repeat_proper; assumption.
  - apply IH1. intros st1. apply H.
Qed.

(** With no input left, an iteration cannot make progress. *)
Lemma repeat_at_end (g : bool) (body : matcher) (fuel : nat) (st : mstate) (k : cont) :
  forward body -> rest st = [] -> repeat g body fuel st k = k st.
Proof.
  intros Hf He. destruct fuel as [|f]; [reflexivity|]. simpl.
  assert (N : body st (fun st1 =>
            if length (rest st1) <? length (rest st) then repeat g body f st1 k else None)
          = None).
  { destruct (body st _) as [res|] eqn:B; [|reflexivity].
    apply Hf in B as (st1 & _ & B). rewrite He in B. simpl in B. discriminate. }
  rewrite N. destruct g; [reflexivity|]. now destruct (k st).
Qed.

(** Any fuel from the length of the remaining input on gives the same
    result: [many] does not stop early. *)
Lemma repeat_fuel (g : bool) (body : matcher) :
  forward body -> proper body ->
  forall f1 f2 st k,
    length (rest st) <= f1 -> length (rest st) <= f2 ->
    repeat g body f1 st k = repeat g body f2 st k.
Proof.
  intros Hf Hp. induction f1 as [|f1 IH]; intros f2 st k H1 H2.
  - assert (E : rest st = []) by (destruct (rest st); [reflexivity | simpl in H1; lia]).
    now rewrite !repeat_at_end.
  - destruct f2 as [|f2].
    + assert (E : rest st = []) by (destruct (rest st); [reflexivity | simpl in H2; lia]).
      now rewrite !repeat_at_end.
    + simpl.
      rewrite (Hp st _ (fun st1 =>
        if length (rest st1) <? length (rest st) then repeat g body f2 st1 k else None)).
      * reflexivity.
      * intros st1. destruct (length (rest st1) <? length (rest st)) eqn:L; [|reflexivity].
        apply Nat.ltb_lt in L. apply IH; lia.
Qed.

Lemma many_fuel (ic g : bool) (r : regex) (fuel : nat) (st : mstate) (k : cont) :
  length (rest st) <= fuel ->
  repeat g (rmatch ic r) fuel st k = many g (rmatch ic r) st k.
Proof.
  intros H. unfold many.
  apply repeat_fuel; [apply rmatch_forward | apply rmatch_proper | exact H | lia].
Qed.

(** ** A pattern without [^] does not see the index *)

Lemma one_shiftable (p : cu -> bool) : shiftable (one p).
Proof.
  intros d [i s cs] k. unfold one, shift. simpl.
  destruct s as [|x s]; [reflexivity|]. destruct (p x); [|reflexivity].
  do 2 f_equal. lia.
Qed.

Lemma repeat_shiftable (g : bool) (body : matcher) :
  shiftable body -> proper body -> forall fuel, shiftable (repeat g body fuel).
Proof.
  intros Hs Hp fuel. induction fuel as [|f IH]; intros d st k; [reflexivity|].
  simpl. rewrite Hs.
  rewrite (Hp st _ (fun st1 =>
    if length (rest st1) <? length (rest st)
    then repeat g body f st1 (fun st' => k (shift d st')) else None)).
  - reflexivity.
  - intros st1. cbn [shift rest].
    destruct (length (rest st1) <? length (rest st)); [apply IH | reflexivity].
Qed.

Lemma rmatch_shiftable (ic : bool) (r : regex) :
  unanchored r = true -> shiftable (rmatch ic r).
Proof.
  induction r as [|c| | |cs| | |r1 IH1 r2 IH2|r1 IH1|r1 IH1|r1 IH1|r1 IH1|n r1 IH1];
    intros U d st k; cbn [rmatch]; try (apply one_shiftable); try discriminate.
  - reflexivity.
  - reflexivity.
  - simpl in U. apply andb_true_iff in U as [U1 U2].
    rewrite (IH1 U1). apply rmatch_proper. intros st1. now apply IH2.
  - simpl in U. rewrite (IH1 U).
    rewrite (rmatch_proper ic r1 st _ (fun st1 =>
      if length (rest st1) <? length (rest st) then k (shift d st1) else None)).
    + reflexivity.
    + intros st1. reflexivity.
  - simpl in U. unfold many. cbn [shift rest].
    apply (repeat_shiftable true _ (IH1 U) (rmatch_proper ic r1)).
  - simpl in U. rewrite (IH1 U). apply rmatch_proper. intros st1.
    unfold many. cbn [shift rest].
    apply (repeat_shiftable true _ (IH1 U) (rmatch_proper ic r1)).
  - simpl in U. rewrite (IH1 U). apply rmatch_proper. intros st1.
    unfold many. cbn [shift rest].
    apply (repeat_shiftable false _ (IH1 U) (rmatch_proper ic r1)).
  - simpl in U. rewrite (IH1 U). apply rmatch_proper. intros st1.
    unfold shift. cbn [pos rest caps].
    replace (d + pos st1 - (d + pos st)) with (pos st1 - pos st) by lia. reflexivity.
Qed.

Lemma one_natural (p : cu -> bool) : natural (one p).
Proof.
  intros f st k. unfold one. destruct (rest st) as [|x s]; [reflexivity|].
  now destruct (p x).
Qed.

Lemma repeat_natural (g : bool) (body : matcher) :
  natural body -> proper body -> forall fuel, natural (repeat g body fuel).
Proof.
  intros Hn Hp fuel. induction fuel as [|n IH]; intros f st k; [reflexivity|].
  simpl.
  rewrite (Hp st _ (fun st1 => option_map f
    (if length (rest st1) <? length (rest st) then repeat g body n st1 k else None))).
  - rewrite Hn. destruct g.
    + now destruct (body st _).
    + destruct (k st); [reflexivity|]. reflexivity.
  - intros st1. destruct (length (rest st1) <? length (rest st)); [apply IH | reflexivity].
Qed.

Lemma rmatch_natural (ic : bool) (r : regex) : natural (rmatch ic r).
Proof.
  induction r as [|c| | |cs| | |r1 IH1 r2 IH2|r1 IH1|r1 IH1|r1 IH1|r1 IH1|n r1 IH1];
    intros f st k; cbn [rmatch]; try (apply one_natural).
  - reflexivity.
  - now destruct (pos st =? 0).
  - now destruct (rest st).
  - rewrite <- IH1. apply rmatch_proper. intros st1. apply IH2.
  - rewrite (rmatch_proper ic r1 st _ (fun st1 => option_map f
      (if length (rest st1) <? length (rest st) then k st1 else None))).
    + rewrite IH1. now destruct (rmatch ic r1 st _).
    + intros st1. now destruct (length (rest st1) <? length (rest st)).
  - apply repeat_natural; [exact IH1 | apply rmatch_proper].
  - rewrite <- IH1. apply rmatch_proper. intros st1.
    apply repeat_natural; [exact IH1 | apply rmatch_proper].
  - rewrite <- IH1. apply rmatch_proper. intros st1.
    apply repeat_natural; [exact IH1 | apply rmatch_proper].
  - rewrite <- IH1. reflexivity.
Qed.

(** The captures found by [exec] and by the [exec] loop do not depend on
    the index at which the input is taken up. *)
Lemma rmatch_shift_top (ic : bool) (r : regex) (d i : nat) (s : jsstring) :
  unanchored r = true ->
  rmatch ic r (MState (d + i) s []) (fun st => Some st)
  = option_map (shift d) (rmatch ic r (MState i s []) (fun st => Some st)).
Proof.
  intros U. change (MState (d + i) s []) with (shift d (MState i s [])).
  rewrite (rmatch_shiftable ic r U). rewrite <- rmatch_natural. reflexivity.
Qed.

Lemma exec_from_shift (ic : bool) (r : regex) (s : jsstring) :
  unanchored r = true ->
  forall d i, exec_from ic r (d + i) s = option_map (moved d) (exec_from ic r i s).
Proof.
  intros U. induction s as [|x s IH]; intros d i; cbn [exec_from];
    rewrite (rmatch_shift_top ic r d i _ U);
    destruct (rmatch ic r (MState i _ []) (fun st => Some st)) as [st|]; try reflexivity.
  replace (S (d + i)) with (d + S i) by lia. apply IH.
Qed.

Lemma exec_loop_shift (ic : bool) (r : regex) :
  unanchored r = true ->
  forall fuel d i s,
    map m_caps (exec_loop ic r fuel (d + i) s) = map m_caps (exec_loop ic r fuel i s).
Proof.
  intros U. induction fuel as [|f IH]; intros d i s; [reflexivity|].
  cbn [exec_loop]. rewrite (exec_from_shift ic r s U).
  destruct (exec_from ic r i s) as [m|]; [|reflexivity].
  cbn [option_map map moved m_caps m_end]. f_equal.
  replace (d + m_end m - (d + i)) with (m_end m - i) by lia. apply IH.
Qed.

(** ** Selections *)

Lemma select_In {A} (f : list bool) (xs : list A) (x : A) :
  In x (select f xs) -> In x xs.
Proof.
  revert xs; induction f as [|b f IH]; intros [|y xs]; simpl; try tauto.
  destruct b; simpl; intros H; [destruct H|]; auto.
Qed.

Lemma select_map_true {A B} (g : B -> bool) (l : list B) (xs : list A) :
  length l = length xs -> (forall j, In j l -> g j = true) ->
  select (map g l) xs = xs.
Proof.
  revert xs; induction l as [|j l IH]; intros [|x xs] Hlen Hg; simpl in *;
    try discriminate; [reflexivity|].
  rewrite Hg by auto. f_equal. apply IH; [lia | auto].
Qed.

(** With every flag set but the k-th, the k-th element is left out. *)
Lemma select_all_but {A} (xs : list A) (k i : nat) :
  select (map (fun j => negb (Nat.eqb j (i + k))) (seq i (length xs))) xs
  = firstn k xs ++ skipn (S k) xs.
Proof.
  revert k i; induction xs as [|x xs IH]; intros k i; simpl.
  - now destruct k.
  - destruct k as [|k]; simpl.
    + rewrite Nat.add_0_r, Nat.eqb_refl. simpl.
      apply select_map_true; [apply length_seq|].
      intros j Hj. apply in_seq in Hj.
      destruct (Nat.eqb_spec j i); [lia | reflexivity].
    + destruct (Nat.eqb_spec i (i + S k)); [lia|]. simpl. f_equal.
      replace (i + S k) with (S i + k) by lia. apply IH.
Qed.

(** Among elements with distinct keys, those whose key is neither in [seen]
    nor among the selected ones are those selected by the complement. *)
Lemma filter_not_selected {A} (key : A -> jsstring) (f : list bool)
    (xs : list A) (seen : list jsstring) :
  length f = length xs -> NoDup (map key xs) ->
  (forall x, In x xs -> ~ In (key x) seen) ->
  filter (fun x => negb (arr_includes (seen ++ map key (select f xs)) (key x))) xs
  = select (map negb f) xs.
Proof.
  revert xs seen; induction f as [|b f IH]; intros [|x xs] seen Hlen Hnd Hseen;
    simpl in *; try discriminate; [reflexivity|].
  injection Hlen as Hlen. inversion Hnd as [|? ? Hx Hnd']; subst.
  destruct b; simpl.
  - rewrite arr_includes_app. simpl. unfold arr_includes at 2. simpl.
    rewrite str_eqb_refl, orb_true_r. simpl.
    replace (seen ++ key x :: map key (select f xs))
      with ((seen ++ [key x]) ++ map key (select f xs))
      by (rewrite <- app_assoc; reflexivity).
    apply IH; auto.
    intros y Hy Hin. apply in_app_or in Hin as [Hin | [E | []]].
    + apply (Hseen y); auto.
    + apply Hx. rewrite E. now apply in_map.
  - assert (E : arr_includes (seen ++ map key (select f xs)) (key x) = false).
    { apply arr_includes_false. intros Hin. apply in_app_or in Hin as [Hin | Hin].
      - apply (Hseen x); auto.
      - apply Hx. apply in_map_iff in Hin as (y & Ey & Hy). rewrite <- Ey.
        apply in_map. eapply select_In; eassumption. }
    rewrite E. simpl. f_equal. apply IH; auto.
Qed.

(** ** Lists with distinct keys *)

Lemma nth_error_split {A} (l : list A) (k : nat) (x : A) :
  nth_error l k = Some x -> l = firstn k l ++ x :: skipn (S k) l.
Proof.
  revert k; induction l as [|y l IH]; intros [|k] H; simpl in *; try discriminate.
  - now injection H as ->.
  - f_equal. now apply IH.
Qed.

Lemma NoDup_keys_but_nth {A B} (key : A -> B) (l : list A) (k : nat) (x : A) :
  NoDup (map key l) -> nth_error l k = Some x ->
  ~ In (key x) (map key (firstn k l ++ skipn (S k) l)).
Proof.
  intros Hn Hk. rewrite (nth_error_split l k x Hk) in Hn.
  rewrite map_app in Hn. simpl in Hn. apply NoDup_remove_2 in Hn.
  now rewrite map_app.
Qed.

Lemma filter_filter_weaken {A} (p q : A -> bool) (l : list A) :
  (forall x, p x = true -> q x = true) -> filter p (filter q l) = filter p l.
Proof.
  intros Hpq. induction l as [|x l IH]; simpl; [reflexivity|].
  destruct (q x) eqn:Q; simpl; rewrite IH; [reflexivity|].
  destruct (p x) eqn:P; [|reflexivity]. apply Hpq in P. congruence.
Qed.

Lemma select_complement_disjoint {A B} (key : A -> B) (f : list bool) (xs : list A) :
  NoDup (map key xs) ->
  forall x y, In x (select f xs) -> In y (select (map negb f) xs) -> key x <> key y.
Proof.
  revert xs; induction f as [|b f IH]; intros [|z xs] Hn x y Hx Hy; simpl in *;
    try contradiction.
  inversion Hn as [|? ? Hz Hn']; subst.
  destruct b; simpl in *.
  - destruct Hx as [-> | Hx]; [|now apply (IH xs)].
    intros E. apply Hz. rewrite E. apply in_map. eapply select_In; eassumption.
  - destruct Hy as [-> | Hy]; [|now apply (IH xs)].
    intros E. apply Hz. rewrite <- E. apply in_map. eapply select_In; eassumption.
Qed.

Lemma NoDup_keys_select {A B} (key : A -> B) (f : list bool) (xs : list A) :
  NoDup (map key xs) -> NoDup (map key (select f xs)).
Proof.
  revert xs; induction f as [|b f IH]; intros [|z xs] Hn; simpl; try constructor.
  inversion Hn as [|? ? Hz Hn']; subst. destruct b; simpl; auto.
  constructor; auto. intros Hin. apply Hz.
  apply in_map_iff in Hin as (y & E & Hy). rewrite <- E. apply in_map.
  eapply select_In; eassumption.
Qed.

(** Two successive selections from a list with distinct keys, the second
    among what the first left out, are disjoint. *)
Lemma NoDup_keys_two_runs {A B} (key : A -> B) (f g : list bool) (xs : list A) :
  NoDup (map key xs) ->
  NoDup (map key (select f xs) ++ map key (select g (select (map negb f) xs))).
Proof.
  intros Hn. apply NoDup_app.
  - now apply NoDup_keys_select.
  - now apply NoDup_keys_select, NoDup_keys_select.
  - intros a Ha Hb.
    apply in_map_iff in Ha as (x & Ex & Hx). apply in_map_iff in Hb as (y & Ey & Hy).
    apply select_In in Hy.
    apply (select_complement_disjoint key f xs Hn x y Hx Hy). congruence.
Qed.

(** ** [new Set] *)

Lemma Set_add_NoDup (seen : list jsstring) (x : jsstring) :
  NoDup seen -> NoDup (Set_add seen x).
Proof.
  intros H. unfold Set_add. destruct (arr_includes seen x) eqn:E; [assumption|].
  apply arr_includes_false in E.
  apply NoDup_rev in H. rewrite <- (rev_involutive (seen ++ [x])).
  apply NoDup_rev. rewrite rev_app_distr. simpl. constructor; [|assumption].
  now rewrite <- in_rev.
Qed.

Lemma Set_add_In (seen : list jsstring) (x y : jsstring) :
  In y (Set_add seen x) <-> In y seen \/ y = x.
Proof.
  unfold Set_add. destruct (arr_includes seen x) eqn:E.
  - apply arr_includes_In in E. split; [auto | intros [H | ->]; assumption].
  - rewrite in_app_iff. simpl. intuition congruence.
Qed.

Lemma fold_Set_add_NoDup (xs seen : list jsstring) :
  NoDup seen -> NoDup (fold_left Set_add xs seen).
Proof.
  revert seen; induction xs as [|x xs IH]; intros seen H; simpl; [assumption|].
  apply IH. now apply Set_add_NoDup.
Qed.

Lemma fold_Set_add_In (xs seen : list jsstring) (y : jsstring) :
  In y (fold_left Set_add xs seen) <-> In y seen \/ In y xs.
Proof.
  revert seen; induction xs as [|x xs IH]; intros seen; simpl; [tauto|].
  rewrite IH, Set_add_In. intuition congruence.
Qed.

Lemma Set_of_NoDup (xs : list jsstring) : NoDup (Set_of xs).
Proof. apply fold_Set_add_NoDup. constructor. Qed.

Lemma Set_of_In (xs : list jsstring) (y : jsstring) : In y (Set_of xs) <-> In y xs.
Proof. unfold Set_of. rewrite fold_Set_add_In. simpl. tauto. Qed.

(** ** First occurrences *)

Lemma keep_new_ext {A} (key : A -> jsstring) (l : list A) :
  forall s1 s2, (forall k, In k s1 <-> In k s2) -> keep_new key s1 l = keep_new key s2 l.
Proof.
  induction l as [|x l IH]; intros s1 s2 H; simpl; [reflexivity|].
  assert (E : arr_includes s1 (key x) = arr_includes s2 (key x)).
  { destruct (arr_includes s2 (key x)) eqn:E2.
    - apply arr_includes_In. apply H. now apply arr_includes_In.
    - apply arr_includes_false. intros Hin. apply H in Hin.
      apply arr_includes_In in Hin. congruence. }
  rewrite E. destruct (arr_includes s2 (key x)).
  - now apply IH.
  - f_equal. apply IH. intros k. rewrite !in_app_iff. now rewrite H.
Qed.

Lemma first_occurrences_from {A} (key : A -> jsstring) (l : list A) :
  forall pre,
    map snd
      (filter (fun ix => negb (arr_includes (map key (firstn (fst ix) (pre ++ l)))
                                 (key (snd ix))))
              (combine (seq (length pre) (length l)) l))
    = keep_new key (map key pre) l.
Proof.
  induction l as [|x l IH]; intros pre; [reflexivity|].
  cbn [length seq combine filter fst snd keep_new].
  rewrite firstn_app, firstn_all, Nat.sub_diag. cbn [firstn]. rewrite app_nil_r.
  specialize (IH (pre ++ [x])).
  rewrite length_app in IH. cbn [length] in IH. rewrite Nat.add_1_r in IH.
  rewrite <- app_assoc in IH. cbn [app] in IH.
  destruct (arr_includes (map key pre) (key x)) eqn:E; cbn [negb map snd].
  - rewrite IH. apply keep_new_ext. intros k. rewrite map_app, in_app_iff. simpl.
    apply arr_includes_In in E. intuition congruence.
  - f_equal. rewrite IH. now rewrite map_app.
Qed.

Lemma first_occurrences_keep_new {A} (key : A -> jsstring) (l : list A) :
  first_occurrences key l = keep_new key [] l.
Proof. exact (first_occurrences_from key l []). Qed.

Lemma keep_new_In {A} (key : A -> jsstring) (l : list A) :
  forall seen x, In x (keep_new key seen l) -> In x l /\ ~ In (key x) seen.
Proof.
  induction l as [|y l IH]; intros seen x; simpl; [tauto|].
  destruct (arr_includes seen (key y)) eqn:E.
  - intros H. apply IH in H. tauto.
  - intros [-> | H].
    + split; [now left | now apply arr_includes_false].
    + apply IH in H as [H1 H2]. split; [now right|].
      intros Hin. apply H2. apply in_or_app. now left.
Qed.

Lemma keep_new_keys_NoDup {A} (key : A -> jsstring) (l : list A) :
  forall seen, NoDup (map key (keep_new key seen l)).
Proof.
  induction l as [|y l IH]; intros seen; simpl; [constructor|].
  destruct (arr_includes seen (key y)); [apply IH|].
  simpl. constructor; [|apply IH].
  intros Hin. apply in_map_iff in Hin as (z & E & Hz).
  apply keep_new_In in Hz as [_ Hz]. apply Hz. rewrite E.
  apply in_or_app. right. now left.
Qed.

Lemma keep_new_complete {A} (key : A -> jsstring) (l : list A) :
  forall seen x, In x l -> In (key x) seen \/ In (key x) (map key (keep_new key seen l)).
Proof.
  induction l as [|y l IH]; intros seen x; simpl; [tauto|].
  intros [-> | H].
  - destruct (arr_includes seen (key x)) eqn:E.
    + left. now apply arr_includes_In.
    + right. now left.
  - destruct (arr_includes seen (key y)) eqn:E.
    + now apply IH.
    + destruct (IH (seen ++ [key y]) x H) as [Hin | Hin].
      * apply in_app_or in Hin as [Hin | [<- | []]]; [now left|]. right. now left.
      * right. now right.
Qed.

(** [new Set] keeps first occurrences. *)
Lemma fold_Set_add_keep_new (l seen : list jsstring) :
  fold_left Set_add l seen = seen ++ keep_new (fun u => u) seen l.
Proof.
  revert seen; induction l as [|x l IH]; intros seen; simpl.
  - now rewrite app_nil_r.
  - rewrite IH. unfold Set_add. destruct (arr_includes seen x); [reflexivity|].
    now rewrite <- app_assoc.
Qed.

Lemma Set_of_first_occurrences (l : list jsstring) :
  Set_of l = first_occurrences (fun u => u) l.
Proof.
  unfold Set_of. now rewrite fold_Set_add_keep_new, first_occurrences_keep_new.
Qed.

(** ** The two extractors as first occurrences *)

Section Extractors.

Variable toLowerCase : jsstring -> jsstring.

Lemma push_matches_spec (ms : list match_result) :
  forall urls,
    SyncBookmarks.push_matches ms urls
    = urls ++ filter (fun url => negb (includes url (lit "slack.com")))
                     (map (fun m => or_empty (group 1 m)) ms).
Proof.
  induction ms as [|m ms IH]; intros urls; simpl.
  - now rewrite app_nil_r.
  - destruct (includes (or_empty (group 1 m)) (lit "slack.com")); simpl.
    + apply IH.
    + rewrite IH. now rewrite <- app_assoc.
Qed.

Lemma collectUrls_spec (messages : list Message) :
  forall urls,
    SyncBookmarks.collectUrls messages urls
    = urls ++ SyncBookmarks.candidateUrls messages.
Proof.
  induction messages as [|m messages IH]; intros urls; simpl.
  - now rewrite app_nil_r.
  - rewrite IH, push_matches_spec. now rewrite <- app_assoc.
Qed.

Lemma extractUrls_spec (messages : list Message) :
  SyncBookmarks.extractUrls messages
  = first_occurrences (fun u => u) (SyncBookmarks.candidateUrls messages).
Proof.
  unfold SyncBookmarks.extractUrls. rewrite collectUrls_spec. simpl.
  apply Set_of_first_occurrences.
Qed.

Lemma extractLoop_spec (messages : list Message) :
  forall books seen,
    SyncBooks.extractLoop toLowerCase messages books seen
    = books ++ keep_new (SyncBooks.bookKey toLowerCase) seen
                 (SyncBooks.parsedBooks messages).
Proof.
  induction messages as [|m messages IH]; intros books seen; simpl.
  - now rewrite app_nil_r.
  - unfold SyncBooks.eligible.
    destruct (includes _ _ || includes _ _); simpl; [apply IH|].
    destruct (truthy (bot_id m) || truthy (thread_ts m)); simpl; [apply IH|].
    destruct (truthy (subtype m)); simpl; [apply IH|].
    destruct (SyncBooks.parseBookFromMessage _) as [b|]; simpl; [|apply IH].
    destruct (arr_includes seen _); [apply IH|].
    rewrite IH. now rewrite <- app_assoc.
Qed.

Lemma extractBooks_spec (messages : list Message) :
  SyncBooks.extractBooks toLowerCase messages
  = first_occurrences (SyncBooks.bookKey toLowerCase) (SyncBooks.parsedBooks messages).
Proof.
  unfold SyncBooks.extractBooks. rewrite extractLoop_spec. simpl.
  now rewrite first_occurrences_keep_new.
Qed.

End Extractors.

(** ** Runs of the bookmark script *)

Section BookmarkRuns.

Import SyncBookmarks.

Variable World : Type.
Variable slack_history : World -> World * SlackReply.
Variable micropub : World -> list (jsstring * jsstring) -> World * PostReply.
Variable fs_write : World -> Write.

Abbreviation fetchSlackMessages := (fetchSlackMessages slack_history).
Abbreviation createMicroblogBookmark := (createMicroblogBookmark micropub).
Abbreviation publishAll := (publishAll micropub).
Abbreviation outcomes := (outcomes micropub).
Abbreviation saveState := (saveState fs_write).
Abbreviation main := (main slack_history micropub fs_write).

Lemma outcomes_length (urls : list jsstring) (w : World) :
  length (outcomes urls w) = length urls.
Proof.
  revert w; induction urls as [|u urls IH]; intros w; simpl; [reflexivity|].
  destruct (createMicroblogBookmark w u) as [w' [e|r]]; simpl; now rewrite IH.
Qed.

Lemma attempted_app (a b : list Line) : attempted (a ++ b) = attempted a ++ attempted b.
Proof.
  induction a as [|[u|u|n] a IH]; simpl; [reflexivity| |assumption|assumption].
  now rewrite IH.
Qed.

Lemma failed_app (a b : list Line) : failed (a ++ b) = failed a ++ failed b.
Proof.
  induction a as [|[u|u|n] a IH]; simpl; [reflexivity|assumption| |assumption].
  now rewrite IH.
Qed.

(** The loop: the keys of the urls that went through are appended, in
    order; every url is announced; the failures are reported. *)
Lemma publishAll_spec (urls : list jsstring) :
  forall (w : World) (state : State) (synced : nat) (out : list Line),
    let '(_, state', synced', out') := publishAll urls w state synced out in
    syncedUrls state' = syncedUrls state ++ select (outcomes urls w) urls
    /\ lastSync state' = lastSync state
    /\ synced' = synced + length (select (outcomes urls w) urls)
    /\ attempted out' = attempted out ++ urls
    /\ failed out' = failed out ++ select (map negb (outcomes urls w)) urls.
Proof.
  induction urls as [|u urls IH]; intros w state synced out; simpl.
  - rewrite !app_nil_r. repeat split; lia.
  - destruct (createMicroblogBookmark w u) as [w' [e|r]]; simpl.
    + specialize (IH w' state synced ((out ++ [CreatingBookmark u]) ++ [FailedToCreate u])).
      destruct (publishAll urls w' state synced _) as [[[w2 st2] n2] out2].
      destruct IH as (H1 & H2 & H3 & H4 & H5).
      rewrite !attempted_app in H4. rewrite !failed_app in H5. simpl in H4, H5.
      rewrite app_nil_r in H4, H5. rewrite <- !app_assoc in H4, H5. simpl in H4, H5.
      repeat split; assumption.
    + specialize (IH w' {| syncedUrls := syncedUrls state ++ [u]; lastSync := lastSync state |}
                     (S synced) (out ++ [CreatingBookmark u])).
      destruct (publishAll urls w' _ (S synced) _) as [[[w2 st2] n2] out2].
      destruct IH as (H1 & H2 & H3 & H4 & H5). simpl in H1, H2.
      rewrite !attempted_app in H4. rewrite !failed_app in H5. simpl in H4, H5.
      rewrite app_nil_r in H5. rewrite <- !app_assoc in H1, H4. simpl in H1, H4.
      repeat split; try assumption. lia.
Qed.

(** The candidates of a run are distinct and not in the loaded state. *)
Lemma newUrlsOf_NoDup (state : State) (messages : list Message) :
  NoDup (newUrlsOf state messages).
Proof. apply NoDup_filter, Set_of_NoDup. Qed.

Lemma newUrlsOf_fresh (state : State) (messages : list Message) (u : jsstring) :
  In u (newUrlsOf state messages) -> ~ In u (syncedUrls state).
Proof.
  intros H. apply filter_In in H as [_ H]. apply negb_true_iff in H.
  now apply arr_includes_false.
Qed.

(** A configured run whose fetch returns goes through the loop and gets to
    the write of the state file; how it ends is how the write ends. *)
Lemma main_saves (env : Env) (now : jsstring) (w w1 : World)
    (d : file State) (messages : list Message) :
  configured env = true ->
  fetchSlackMessages w = (w1, inr messages) ->
  let new := newUrlsOf (loadState d) messages in
  exists w2 out,
    attempted out = new
    /\ failed out = select (map negb (outcomes new w1)) new
    /\ main env now w d
       = match saveState w2 d
                 {| syncedUrls := syncedUrls (loadState d) ++ select (outcomes new w1) new;
                    lastSync := Some now |} with
         | (f, inr _) =>
             ({| world := w2; disk := f;
                 console := out ++ [SyncedCount (length (select (outcomes new w1) new))] |},
              Resolved)
         | (f, inl _) => ({| world := w2; disk := f; console := out |}, Rejected)
         end.
Proof.
  intros Hc Hf new. unfold SyncBookmarks.main, configured in *.
  apply andb_true_iff in Hc as [Hc H3]. apply andb_true_iff in Hc as [H1 H2].
  rewrite H1, H2, H3. simpl. rewrite Hf.
  fold (newUrlsOf (loadState d) messages). fold new.
  pose proof (publishAll_spec new w1 (loadState d) 0 []) as S.
  destruct (publishAll new w1 (loadState d) 0 []) as [[[w2 st2] n2] out2].
  destruct S as (S1 & S2 & S3 & S4 & S5). simpl in S3, S4, S5.
  exists w2, out2. split; [exact S4|]. split; [exact S5|].
  now rewrite S1, S3.
Qed.

(** What a write leaves of the state file, and when it goes through. *)
Lemma saveState_cases (w : World) (d : file State) (s : State) :
  (fs_write w = Written /\ saveState w d s = (Holds (Document s), inr tt))
  \/ (fs_write w = ThrowsUnopened /\ saveState w d s = (d, inl tt))
  \/ (fs_write w = ThrowsCutShort /\ saveState w d s = (Holds NotJson, inl tt)).
Proof.
  unfold SyncBookmarks.saveState, writeFileSync.
  destruct (fs_write w); [left | right; left | right; right]; now split.
Qed.

(** The loop of a run announces every new url, whatever becomes of the
    write. *)
Lemma main_attempts (env : Env) (now : jsstring) (w w1 : World)
    (d : file State) (messages : list Message) :
  configured env = true ->
  fetchSlackMessages w = (w1, inr messages) ->
  let new := newUrlsOf (loadState d) messages in
  forall r e, main env now w d = (r, e) ->
    attempted (console r) = new
    /\ failed (console r) = select (map negb (outcomes new w1)) new.
Proof.
  intros Hc Hf new r e E.
  destruct (main_saves env now w w1 d messages Hc Hf) as (w2 & out & Ha & Hx & E').
  fold new in Ha, Hx, E'. rewrite E in E'.
  destruct (saveState w2 d _) as [f [t|t]]; injection E' as -> _; cbn [console].
  - now split.
  - rewrite attempted_app, failed_app. cbn. now rewrite !app_nil_r.
Qed.

(** A run that resolves has written the loaded keys and the keys of the
    urls that went through. *)
Lemma main_resolves (env : Env) (now : jsstring) (w w1 : World)
    (d : file State) (messages : list Message) (r : Run World) :
  configured env = true ->
  fetchSlackMessages w = (w1, inr messages) ->
  main env now w d = (r, Resolved) ->
  let new := newUrlsOf (loadState d) messages in
  fs_write (world r) = Written
  /\ disk r = Holds (Document
       {| syncedUrls := syncedUrls (loadState d) ++ select (outcomes new w1) new;
          lastSync := Some now |})
  /\ attempted (console r) = new
  /\ failed (console r) = select (map negb (outcomes new w1)) new
  /\ exists out,
       console r = out ++ [SyncedCount (length (select (outcomes new w1) new))].
Proof.
  intros Hc Hf E new.
  destruct (main_attempts env now w w1 d messages Hc Hf r Resolved E) as [Ha Hx].
  fold new in Ha, Hx.
  destruct (main_saves env now w w1 d messages Hc Hf) as (w2 & out & _ & _ & E').
  fold new in E'. rewrite E in E'.
  destruct (saveState_cases w2 d
              {| syncedUrls := syncedUrls (loadState d) ++ select (outcomes new w1) new;
                 lastSync := Some now |}) as [[Hw S] | [[Hw S] | [Hw S]]];
    rewrite S in E'; [|discriminate|discriminate].
  injection E' as ->. cbn [world disk console].
  split; [exact Hw|]. split; [reflexivity|]. split; [exact Ha|]. split; [exact Hx|].
  now exists out.
Qed.

(** A run that got to the loop and does not resolve has rejected at the
    write of the state file. *)
Lemma main_rejects_at_write (env : Env) (now : jsstring) (w w1 : World)
    (d : file State) (messages : list Message) :
  configured env = true ->
  fetchSlackMessages w = (w1, inr messages) ->
  forall r e, main env now w d = (r, e) -> e <> Resolved ->
    e = Rejected /\ fs_write (world r) <> Written.
Proof.
  intros Hc Hf r e E Hne.
  destruct (main_saves env now w w1 d messages Hc Hf) as (w2 & out & _ & _ & E').
  rewrite E in E'.
  match type of E' with context [saveState w2 d ?st] =>
    destruct (saveState_cases w2 d st) as [[Hw S] | [[Hw S] | [Hw S]]] end;
    rewrite S in E'; injection E' as -> ->; cbn [world];
    [now elim Hne | split; [reflexivity | congruence] ..].
Qed.

(** The state file after a run: as it was, or cut short, or written with
    the loaded keys and the keys of the urls that went through. *)
Lemma main_disk (env : Env) (now : jsstring) (w : World) (d : file State) :
  forall r e, main env now w d = (r, e) ->
    disk r = d
    \/ disk r = Holds NotJson
    \/ exists w1 messages,
         fetchSlackMessages w = (w1, inr messages)
         /\ disk r = Holds (Document
              {| syncedUrls :=
                   syncedUrls (loadState d)
                   ++ select (outcomes (newUrlsOf (loadState d) messages) w1)
                             (newUrlsOf (loadState d) messages);
                 lastSync := Some now |}).
Proof.
  intros r e H. pose proof H as H0. unfold SyncBookmarks.main in H.
  destruct (negb (truthy (SLACK_BOT_TOKEN env)) || negb (truthy (SLACK_CHANNEL_ID env)))
    eqn:E12; [injection H as <- _; now left|].
  destruct (negb (truthy (MICROBLOG_TOKEN env))) eqn:E3; [injection H as <- _; now left|].
  clear H. assert (Hc : configured env = true).
  { unfold configured. apply orb_false_iff in E12 as [E1 E2].
    apply negb_false_iff in E1, E2, E3. now rewrite E1, E2, E3. }
  destruct (fetchSlackMessages w) as [w1 [e1|messages]] eqn:Hf.
  - unfold SyncBookmarks.main in H0. rewrite E12, E3, Hf in H0.
    injection H0 as <- _. now left.
  - destruct (main_saves env now w w1 d messages Hc Hf) as (w2 & out & _ & _ & E').
    rewrite H0 in E'.
    match type of E' with context [saveState w2 d ?st] =>
      destruct (saveState_cases w2 d st) as [[Hw S] | [[Hw S] | [Hw S]]] end;
      rewrite S in E'; injection E' as -> _; cbn [disk].
    + right. right. now exists w1, messages.
    + now left.
    + right. now left.
Qed.

(** Any run either ends before the loop, and then it does not resolve and
    leaves the state file as it was, or it gets to the loop. *)
Lemma main_cases (env : Env) (now : jsstring) (w : World) (d : file State) :
  forall r e, main env now w d = (r, e) ->
    (e <> Resolved /\ disk r = d /\ console r = [])
    \/ ((e = Resolved \/ e = Rejected) /\ configured env = true
        /\ exists w1 messages, fetchSlackMessages w = (w1, inr messages)).
Proof.
  intros r e H. unfold SyncBookmarks.main, configured in *.
  destruct (truthy (SLACK_BOT_TOKEN env)); simpl in *;
    [| injection H as <- <-; left; repeat split; discriminate].
  destruct (truthy (SLACK_CHANNEL_ID env)); simpl in *;
    [| injection H as <- <-; left; repeat split; discriminate].
  destruct (truthy (MICROBLOG_TOKEN env)); simpl in *;
    [| injection H as <- <-; left; repeat split; discriminate].
  destruct (fetchSlackMessages w) as [w1 [e1|messages]].
  - injection H as <- <-. left; repeat split; discriminate.
  - destruct (SyncBookmarks.publishAll _ _ _ _ _ _) as [[[w2 st2] n2] out2].
    destruct (SyncBookmarks.saveState _ _ _ _) as [f [t|t]]; injection H as <- <-;
      right; (split; [auto|]); (split; [reflexivity|]); now exists w1, messages.
Qed.

(** What is new for the run that follows: what the loop did not get
    through. *)
Lemma newUrlsOf_next (state : State) (messages : list Message) (f : list bool)
    (last : option jsstring) :
  length f = length (newUrlsOf state messages) ->
  newUrlsOf {| syncedUrls := syncedUrls state ++ select f (newUrlsOf state messages);
               lastSync := last |} messages
  = select (map negb f) (newUrlsOf state messages).
Proof.
  intros Hlen. set (new := newUrlsOf state messages) in *.
  unfold newUrlsOf at 1. simpl.
  rewrite <- (filter_filter_weaken _
    (fun url => negb (arr_includes (syncedUrls state) url))).
  - fold (newUrlsOf state messages). fold new.
    rewrite <- (map_id (select f new)).
    apply (filter_not_selected (fun x : jsstring => x)); [assumption| |].
    + rewrite map_id. apply newUrlsOf_NoDup.
    + intros x Hx. now apply (newUrlsOf_fresh state messages).
  - intros x Hx. rewrite arr_includes_app in Hx.
    destruct (arr_includes (syncedUrls state) x); [discriminate | reflexivity].
Qed.

End BookmarkRuns.

(** ** Runs of the book script *)

Section BookRuns.

Import SyncBooks.

Variable toLowerCase : jsstring -> jsstring.
Variable World : Type.
Variable slack_history : World -> World * SlackReply.
Variable openlibrary_search : World -> jsstring -> World * SearchReply.
Variable bookshelves : World -> World * ShelvesReply.
Variable books_post : World -> list (jsstring * jsstring) -> World * PostReply.
Variable fs_write : World -> Write.

Abbreviation bookKey := (bookKey toLowerCase).
Abbreviation extractLoop := (extractLoop toLowerCase).
Abbreviation extractBooks := (extractBooks toLowerCase).
Abbreviation newBooksOf := (newBooksOf toLowerCase).
Abbreviation fetchSlackMessages := (fetchSlackMessages slack_history).
Abbreviation searchIsbn := (searchIsbn openlibrary_search).
Abbreviation addBookToMicroblog := (addBookToMicroblog books_post).
Abbreviation publishAll := (publishAll toLowerCase openlibrary_search books_post).
Abbreviation outcomes := (outcomes openlibrary_search books_post).
Abbreviation saveState := (saveState fs_write).
Abbreviation sync :=
  (sync toLowerCase slack_history openlibrary_search books_post fs_write).
Abbreviation main :=
  (main toLowerCase slack_history openlibrary_search bookshelves books_post fs_write).

Lemma book_outcomes_length (books : list Book) (id : option jsstring) (w : World) :
  length (outcomes books id w) = length books.
Proof.
  revert w; induction books as [|b books IH]; intros w; simpl; [reflexivity|].
  destruct (searchIsbn w (title b) (author b)) as [w1 found].
  destruct (addBookToMicroblog w1 _ id) as [w2 [e|r]]; simpl; now rewrite IH.
Qed.

Lemma book_attempted_app (a b : list Line) :
  attempted (a ++ b) = attempted a ++ attempted b.
Proof.
  induction a as [|[x|x|x|n] a IH]; simpl; try assumption; [reflexivity|].
  now rewrite IH.
Qed.

Lemma book_failed_app (a b : list Line) : failed (a ++ b) = failed a ++ failed b.
Proof.
  induction a as [|[x|x|x|n] a IH]; simpl; try assumption; [reflexivity|].
  now rewrite IH.
Qed.

Lemma book_publishAll_spec (books : list Book) (id : option jsstring) :
  forall (w : World) (state : State) (synced : nat) (out : list Line),
    let '(_, state', synced', out') := publishAll books id w state synced out in
    syncedBooks state'
      = syncedBooks state ++ map bookKey (select (outcomes books id w) books)
    /\ lastSync state' = lastSync state
    /\ synced' = synced + length (select (outcomes books id w) books)
    /\ attempted out' = attempted out ++ map title books
    /\ failed out'
       = failed out ++ map title (select (map negb (outcomes books id w)) books).
Proof.
  induction books as [|b books IH]; intros w state synced out; simpl.
  - rewrite !app_nil_r. repeat split; lia.
  - destruct (searchIsbn w (title b) (author b)) as [w1 found].
    destruct (addBookToMicroblog w1 _ id) as [w2 [e|r]]; simpl.
    + specialize (IH w2 state synced
        (((out ++ [LookingUp b]) ++ [AddingBook (title b)]) ++ [FailedToAdd (title b)])).
      destruct (publishAll books id w2 state synced _) as [[[w3 st3] n3] out3].
      destruct IH as (H1 & H2 & H3 & H4 & H5).
      rewrite !book_attempted_app in H4. rewrite !book_failed_app in H5.
      simpl in H4, H5. rewrite !app_nil_r in H4, H5.
      rewrite <- !app_assoc in H4, H5. simpl in H4, H5.
      repeat split; assumption.
    + specialize (IH w2
        {| syncedBooks := syncedBooks state
             ++ [bookKey {| title := title b; author := author b; isbn := found |}];
           lastSync := lastSync state |}
        (S synced) ((out ++ [LookingUp b]) ++ [AddingBook (title b)])).
      destruct (publishAll books id w2 _ (S synced) _) as [[[w3 st3] n3] out3].
      destruct IH as (H1 & H2 & H3 & H4 & H5). simpl in H1, H2.
      rewrite !book_attempted_app in H4. rewrite !book_failed_app in H5.
      simpl in H4, H5. rewrite !app_nil_r in H5. rewrite app_nil_r in H4.
      rewrite <- !app_assoc in H1, H4. simpl in H1, H4.
      repeat split; try assumption. lia.
Qed.

(** The loop of [extractBooks] keeps [seenTitles] equal to the keys of
    [books], and these keys distinct. *)
Lemma extractLoop_keys (messages : list Message) :
  forall books seen,
    seen = map bookKey books -> NoDup seen ->
    NoDup (map bookKey (extractLoop messages books seen)).
Proof.
  induction messages as [|m messages IH]; intros books seen Hs Hn; simpl.
  - now subst.
  - destruct (includes _ _ || includes _ _); [now apply IH|].
    destruct (truthy (bot_id m) || truthy (thread_ts m)); [now apply IH|].
    destruct (truthy (subtype m)); [now apply IH|].
    destruct (parseBookFromMessage _) as [b|]; [|now apply IH].
    destruct (arr_includes seen (bookKey b)) eqn:E; [now apply IH|].
    apply IH.
    + subst. now rewrite map_app.
    + fold (Set_add seen (bookKey b)).
      replace (seen ++ [bookKey b]) with (Set_add seen (bookKey b))
        by (unfold Set_add; now rewrite E).
      now apply Set_add_NoDup.
Qed.

Lemma extractBooks_keys_NoDup (messages : list Message) :
  NoDup (map bookKey (extractBooks messages)).
Proof. apply extractLoop_keys; [reflexivity | constructor]. Qed.

(** Filtering keeps the keys distinct. *)
Lemma distinct_keys_filter {T} (key : T -> jsstring) (keep : T -> bool) (xs : list T) :
  NoDup (map key xs) -> NoDup (map key (filter keep xs)).
Proof.
  intros Hd. induction xs as [|x xs IH]; cbn [filter map]; [constructor|].
  apply NoDup_cons_iff in Hd as [Hx Hd]. destruct (keep x); [|now apply IH].
  cbn [map]. apply NoDup_cons_iff. split; [|now apply IH].
  rewrite in_map_iff. intros (z & Ez & Hz). apply Hx. rewrite <- Ez.
  apply in_map. apply filter_In in Hz. exact (proj1 Hz).
Qed.

Lemma newBooksOf_keys_NoDup (state : State) (messages : list Message) :
  NoDup (map bookKey (newBooksOf state messages)).
Proof. apply distinct_keys_filter, extractBooks_keys_NoDup. Qed.

Lemma newBooksOf_fresh (state : State) (messages : list Message) (b : Book) :
  In b (newBooksOf state messages) -> ~ In (bookKey b) (syncedBooks state).
Proof.
  intros H. apply filter_In in H as [_ H]. apply negb_true_iff in H.
  now apply arr_includes_false.
Qed.

(** From [loadState] on, a run whose fetch returns goes through the loop
    and gets to the write of the state file; how it ends is how the write
    ends. *)
Lemma sync_saves (id : option jsstring) (now : jsstring) (w w1 : World)
    (d : file State) (messages : list Message) :
  fetchSlackMessages w = (w1, inr messages) ->
  let new := newBooksOf (loadState d) messages in
  exists w2 out,
    attempted out = map title new
    /\ failed out = map title (select (map negb (outcomes new id w1)) new)
    /\ sync id now w d
       = match saveState w2 d
                 {| syncedBooks := syncedBooks (loadState d)
                      ++ map bookKey (select (outcomes new id w1) new);
                    lastSync := Some now |} with
         | (f, inr _) =>
             ({| world := w2; disk := f;
                 console := out ++ [SyncedCount (length (select (outcomes new id w1) new))] |},
              Resolved)
         | (f, inl _) => ({| world := w2; disk := f; console := out |}, Rejected)
         end.
Proof.
  intros Hf new. unfold SyncBooks.sync. rewrite Hf.
  fold (newBooksOf (loadState d) messages). fold new.
  pose proof (book_publishAll_spec new id w1 (loadState d) 0 []) as S.
  destruct (publishAll new id w1 (loadState d) 0 []) as [[[w2 st2] n2] out2].
  destruct S as (S1 & S2 & S3 & S4 & S5). simpl in S3, S4, S5.
  exists w2, out2. split; [exact S4|]. split; [exact S5|].
  now rewrite S1, S3.
Qed.

Lemma book_saveState_cases (w : World) (d : file State) (s : State) :
  (fs_write w = Written /\ saveState w d s = (Holds (Document s), inr tt))
  \/ (fs_write w = ThrowsUnopened /\ saveState w d s = (d, inl tt))
  \/ (fs_write w = ThrowsCutShort /\ saveState w d s = (Holds NotJson, inl tt)).
Proof.
  unfold SyncBooks.saveState, writeFileSync.
  destruct (fs_write w); [left | right; left | right; right]; now split.
Qed.

(** The loop of a run announces every new book, whatever becomes of the
    write. *)
Lemma sync_attempts (id : option jsstring) (now : jsstring) (w w1 : World)
    (d : file State) (messages : list Message) :
  fetchSlackMessages w = (w1, inr messages) ->
  let new := newBooksOf (loadState d) messages in
  forall r e, sync id now w d = (r, e) ->
    attempted (console r) = map title new
    /\ failed (console r) = map title (select (map negb (outcomes new id w1)) new).
Proof.
  intros Hf new r e E.
  destruct (sync_saves id now w w1 d messages Hf) as (w2 & out & Ha & Hx & E').
  fold new in Ha, Hx, E'. rewrite E in E'.
  destruct (saveState w2 d _) as [f [t|t]]; injection E' as -> _; cbn [console].
  - now split.
  - rewrite book_attempted_app, book_failed_app. cbn. now rewrite !app_nil_r.
Qed.

(** A run that resolves has written the loaded keys and the keys of the
    books that went through. *)
Lemma sync_resolves (id : option jsstring) (now : jsstring) (w w1 : World)
    (d : file State) (messages : list Message) (r : Run World) :
  fetchSlackMessages w = (w1, inr messages) ->
  sync id now w d = (r, Resolved) ->
  let new := newBooksOf (loadState d) messages in
  fs_write (world r) = Written
  /\ disk r = Holds (Document
       {| syncedBooks := syncedBooks (loadState d)
            ++ map bookKey (select (outcomes new id w1) new);
          lastSync := Some now |})
  /\ attempted (console r) = map title new
  /\ failed (console r) = map title (select (map negb (outcomes new id w1)) new)
  /\ exists out,
       console r = out ++ [SyncedCount (length (select (outcomes new id w1) new))].
Proof.
  intros Hf E new.
  destruct (sync_attempts id now w w1 d messages Hf r Resolved E) as [Ha Hx].
  fold new in Ha, Hx.
  destruct (sync_saves id now w w1 d messages Hf) as (w2 & out & _ & _ & E').
  fold new in E'. rewrite E in E'.
  destruct (book_saveState_cases w2 d
              {| syncedBooks := syncedBooks (loadState d)
                   ++ map bookKey (select (outcomes new id w1) new);
                 lastSync := Some now |}) as [[Hw S] | [[Hw S] | [Hw S]]];
    rewrite S in E'; [|discriminate|discriminate].
  injection E' as ->. cbn [world disk console].
  split; [exact Hw|]. split; [reflexivity|]. split; [exact Ha|]. split; [exact Hx|].
  now exists out.
Qed.

(** A run that got to the loop and does not resolve has rejected at the
    write of the state file. *)
Lemma sync_rejects_at_write (id : option jsstring) (now : jsstring) (w w1 : World)
    (d : file State) (messages : list Message) :
  fetchSlackMessages w = (w1, inr messages) ->
  forall r e, sync id now w d = (r, e) -> e <> Resolved ->
    e = Rejected /\ fs_write (world r) <> Written.
Proof.
  intros Hf r e E Hne.
  destruct (sync_saves id now w w1 d messages Hf) as (w2 & out & _ & _ & E').
  rewrite E in E'.
  match type of E' with context [saveState w2 d ?st] =>
    destruct (book_saveState_cases w2 d st) as [[Hw S] | [[Hw S] | [Hw S]]] end;
    rewrite S in E'; injection E' as -> ->; cbn [world];
    [now elim Hne | split; [reflexivity | congruence] ..].
Qed.

(** The state file after the part of a run from [loadState] on. *)
Lemma sync_disk (id : option jsstring) (now : jsstring) (w : World) (d : file State) :
  forall r e, sync id now w d = (r, e) ->
    disk r = d
    \/ disk r = Holds NotJson
    \/ exists w1 messages,
         fetchSlackMessages w = (w1, inr messages)
         /\ disk r = Holds (Document
              {| syncedBooks :=
                   syncedBooks (loadState d)
                   ++ map bookKey
                        (select (outcomes (newBooksOf (loadState d) messages) id w1)
                                (newBooksOf (loadState d) messages));
                 lastSync := Some now |}).
Proof.
  intros r e H.
  destruct (fetchSlackMessages w) as [w1 [e1|messages]] eqn:Hf.
  - unfold SyncBooks.sync in H. rewrite Hf in H. injection H as <- _. now left.
  - destruct (sync_saves id now w w1 d messages Hf) as (w2 & out & _ & _ & E').
    rewrite H in E'.
    match type of E' with context [saveState w2 d ?st] =>
      destruct (book_saveState_cases w2 d st) as [[Hw S] | [[Hw S] | [Hw S]]] end;
      rewrite S in E'; injection E' as -> _; cbn [disk].
    + right. right. now exists w1, messages.
    + now left.
    + right. now left.
Qed.

(** From [loadState] on, a run either rejects at the fetch, and leaves the
    state file as it was, or gets to the loop. *)
Lemma sync_cases (id : option jsstring) (now : jsstring) (w : World) (d : file State) :
  forall r e, sync id now w d = (r, e) ->
    (e = Rejected /\ disk r = d /\ console r = [])
    \/ ((e = Resolved \/ e = Rejected)
        /\ exists w1 messages, fetchSlackMessages w = (w1, inr messages)).
Proof.
  intros r e H. unfold SyncBooks.sync in H.
  destruct (fetchSlackMessages w) as [w1 [e1|messages]].
  - injection H as <- <-. left; repeat split.
  - destruct (SyncBooks.publishAll _ _ _ _ _ _ _ _ _) as [[[w2 st2] n2] out2].
    destruct (SyncBooks.saveState _ _ _ _) as [f [t|t]]; injection H as <- <-;
      right; (split; [auto|]); now exists w1, messages.
Qed.

(** [main] either stops before [loadState], leaving the state file as it
    was, or continues as [sync] with the shelf it settled on. *)
Lemma book_main_cases (env : Env) (now : jsstring) (w : World) (d : file State) :
  forall r e, main env now w d = (r, e) ->
    (e <> Resolved /\ disk r = d /\ console r = [])
    \/ (exists id w0, sync id now w0 d = (r, e)).
Proof.
  intros r e H. unfold SyncBooks.main in H.
  destruct (negb (truthy (SLACK_BOT_TOKEN env)) || negb (truthy (SLACK_READING_CHANNEL_ID env)));
    [injection H as <- <-; left; repeat split; discriminate|].
  destruct (negb (truthy (MICROBLOG_TOKEN env)));
    [injection H as <- <-; left; repeat split; discriminate|].
  destruct (negb (truthy (MICROBLOG_BOOKSHELF_ID env))).
  - destruct (getBookshelves bookshelves w) as [w0 [e0|shelves]];
      [injection H as <- <-; left; repeat split; discriminate|].
    destruct (findCurrentlyReading _ _) as [s|];
      [|injection H as <- <-; left; repeat split; discriminate].
    right. eauto.
  - right. eauto.
Qed.

Lemma newBooksOf_next (state : State) (messages : list Message) (f : list bool)
    (last : option jsstring) :
  length f = length (newBooksOf state messages) ->
  newBooksOf {| syncedBooks := syncedBooks state
                  ++ map bookKey (select f (newBooksOf state messages));
                lastSync := last |} messages
  = select (map negb f) (newBooksOf state messages).
Proof.
  intros Hlen. set (new := newBooksOf state messages) in *.
  unfold SyncBooks.newBooksOf at 1. simpl.
  rewrite <- (filter_filter_weaken _
    (fun book => negb (arr_includes (syncedBooks state) (bookKey book)))).
  - fold (newBooksOf state messages). fold new.
    apply (filter_not_selected bookKey); [assumption| |].
    + apply newBooksOf_keys_NoDup.
    + intros x Hx. now apply (newBooksOf_fresh state messages).
  - intros x Hx. rewrite arr_includes_app in Hx.
    destruct (arr_includes (syncedBooks state) (bookKey x)); [discriminate | reflexivity].
Qed.

End BookRuns.

(** ** Claims about the extractors *)

Lemma parsedBooks_app (a b : list Message) :
  SyncBooks.parsedBooks (a ++ b) = SyncBooks.parsedBooks a ++ SyncBooks.parsedBooks b.
Proof. unfold SyncBooks.parsedBooks. apply flat_map_app. Qed.

Lemma candidateUrls_app (a b : list Message) :
  SyncBookmarks.candidateUrls (a ++ b)
  = SyncBookmarks.candidateUrls a ++ SyncBookmarks.candidateUrls b.
Proof. unfold SyncBookmarks.candidateUrls. apply flat_map_app. Qed.

(** C5 (amended) -- The book extractor yields nothing from a message that
    has a [bot_id], a [thread_ts] or a [subtype]: the books extracted are
    those of the other messages, whatever the text of that message.  The
    bookmark extractor has no such rule: what it yields depends on the texts
    of the messages only. *)
Theorem C5_message_filtering_amended :
  forall toLowerCase : jsstring -> jsstring,
    (forall ms1 m ms2,
        truthy (bot_id m) = true \/ truthy (thread_ts m) = true
        \/ truthy (subtype m) = true ->
        SyncBooks.extractBooks toLowerCase (ms1 ++ m :: ms2)
        = SyncBooks.extractBooks toLowerCase (ms1 ++ ms2))
    /\ (forall messages,
        SyncBookmarks.extractUrls messages
        = SyncBookmarks.extractUrls (map SyncBookmarks.text_only messages)).
Proof.
  intros toLowerCase. split.
  - intros ms1 m ms2 H. rewrite !extractBooks_spec. f_equal.
    rewrite !parsedBooks_app. f_equal.
    change (m :: ms2) with ([m] ++ ms2). rewrite parsedBooks_app.
    assert (E : SyncBooks.eligible m = false).
    { unfold SyncBooks.eligible.
      destruct H as [H | [H | H]]; rewrite H; simpl;
        rewrite ?orb_true_r, ?andb_false_r; reflexivity. }
    unfold SyncBooks.parsedBooks at 1. simpl. now rewrite E.
  - intros messages. rewrite !extractUrls_spec. f_equal.
    unfold SyncBookmarks.candidateUrls.
    induction messages as [|m messages IH]; simpl; [reflexivity|]. now rewrite IH.
Qed.

Lemma C5_message_filtering_amended_witness :
  SyncBooks.extractBooks Script.toLowerCase
    ([Script.said "Dune by Frank Herbert"]
       ++ {| text := Some (lit "Emma by Jane Austen"); ts := None;
             bot_id := Some (lit "B01"); thread_ts := None; subtype := None |}
       :: [Script.said "Breakneck by Dan Wang"])
  = SyncBooks.extractBooks Script.toLowerCase
      ([Script.said "Dune by Frank Herbert"] ++ [Script.said "Breakneck by Dan Wang"]).
Proof.
  apply (proj1 (C5_message_filtering_amended Script.toLowerCase)).
  left. reflexivity.
Defined.

(** C5, as stated, fails for the bookmark extractor: a link posted by a
    bot, in a thread, with a subtype, is extracted. *)
Lemma C5_counterexample :
  truthy (bot_id Script.botReply) = true
  /\ truthy (thread_ts Script.botReply) = true
  /\ truthy (subtype Script.botReply) = true
  /\ SyncBookmarks.extractUrls [Script.botReply] = [lit "https://example.com/a"].
Proof. repeat split; vm_compute; reflexivity. Qed.

(** C8 -- Each extractor yields the first occurrence of every identity key
    among its candidates, in the order of the candidates: the url itself
    for bookmarks, the lower-cased "title|author" for books.  No key occurs
    twice in the output and no key of a candidate is missing from it. *)
Theorem C8_dedup_first_occurrence :
  forall (toLowerCase : jsstring -> jsstring) (messages : list Message),
    SyncBookmarks.extractUrls messages
      = first_occurrences (fun u => u) (SyncBookmarks.candidateUrls messages)
    /\ NoDup (SyncBookmarks.extractUrls messages)
    /\ (forall u, In u (SyncBookmarks.candidateUrls messages) ->
                  In u (SyncBookmarks.extractUrls messages))
    /\ SyncBooks.extractBooks toLowerCase messages
       = first_occurrences (SyncBooks.bookKey toLowerCase)
                           (SyncBooks.parsedBooks messages)
    /\ NoDup (map (SyncBooks.bookKey toLowerCase)
                  (SyncBooks.extractBooks toLowerCase messages))
    /\ (forall b, In b (SyncBooks.parsedBooks messages) ->
                  In (SyncBooks.bookKey toLowerCase b)
                     (map (SyncBooks.bookKey toLowerCase)
                          (SyncBooks.extractBooks toLowerCase messages))).
Proof.
  intros toLowerCase messages. repeat split.
  - apply extractUrls_spec.
  - apply Set_of_NoDup.
  - intros u Hu. unfold SyncBookmarks.extractUrls. apply Set_of_In.
    rewrite collectUrls_spec. exact Hu.
  - apply extractBooks_spec.
  - apply extractBooks_keys_NoDup.
  - intros b Hb. rewrite extractBooks_spec, first_occurrences_keep_new.
    destruct (keep_new_complete (SyncBooks.bookKey toLowerCase)
                (SyncBooks.parsedBooks messages) [] b Hb) as [[] | H].
    exact H.
Qed.

Lemma C8_dedup_first_occurrence_witness :
  In (lit "https://example.com/a")
     (SyncBookmarks.extractUrls
        [Script.said "<https://example.com/a|One> <https://example.com/b>";
         Script.said "<https://example.com/a|Two>"])
  /\ SyncBookmarks.extractUrls
       [Script.said "<https://example.com/a|One> <https://example.com/b>";
        Script.said "<https://example.com/a|Two>"]
     = [lit "https://example.com/a"; lit "https://example.com/b"]
  /\ SyncBooks.extractBooks Script.toLowerCase
       [Script.said "Dune by Frank Herbert"; Script.said "Emma";
        Script.said "DUNE  by  FRANK HERBERT"; Script.said "emma"]
     = [{| SyncBooks.title := lit "Dune"; SyncBooks.author := Some (lit "Frank Herbert");
           SyncBooks.isbn := None |};
        {| SyncBooks.title := lit "Emma"; SyncBooks.author := None;
           SyncBooks.isbn := None |}].
Proof.
  split; [|split].
  - apply (C8_dedup_first_occurrence Script.toLowerCase).
    vm_compute. left. reflexivity.
  - vm_compute. reflexivity.
  - vm_compute. reflexivity.
Defined.

Lemma exec_from_hit (ic : bool) (r : regex) (i : nat) (s : jsstring) (st : mstate) :
  rmatch ic r (MState i s []) (fun st => Some st) = Some st ->
  exec_from ic r i s = Some (MatchResult i (pos st) (caps st)).
Proof. intros H. destruct s; simpl; now rewrite H. Qed.

Lemma exec_from_miss (ic : bool) (r : regex) (i : nat) (x : cu) (s : jsstring) :
  rmatch ic r (MState i (x :: s) []) (fun st => Some st) = None ->
  exec_from ic r i (x :: s) = exec_from ic r (S i) s.
Proof. intros H. simpl. now rewrite H. Qed.

(** The loop over the matches of [urlRegex] has all the fuel it needs, and
    [match[1]] is defined in each of its matches. *)
Lemma urlRegex_fuel (s : jsstring) (fuel : nat) :
  length s < fuel ->
  exec_loop false SyncBookmarks.urlRegex fuel 0 s = exec_all false SyncBookmarks.urlRegex s.
Proof.
  intros H. unfold exec_all, SyncBookmarks.urlRegex.
  change (lit "<") with [SyncBookmarks.lt]. apply exec_loop_fuel; lia.
Qed.

Lemma urlRegex_loop_group1 (m : match_result) :
  forall fuel i s,
    In m (exec_loop false SyncBookmarks.urlRegex fuel i s) -> exists u, group 1 m = Some u.
Proof.
  induction fuel as [|f IH]; intros i s; cbn [exec_loop]; [intros []|].
  destruct (exec_from false SyncBookmarks.urlRegex i s) as [m0|] eqn:E; [|intros []].
  intros [<- | H].
  - unfold SyncBookmarks.urlRegex in E. eapply exec_from_group. exact E.
  - eapply IH. exact H.
Qed.

Lemma urlRegex_group1 (s : jsstring) (m : match_result) :
  In m (exec_all false SyncBookmarks.urlRegex s) -> exists u, group 1 m = Some u.
Proof. apply urlRegex_loop_group1. Qed.

(** Before the first "<" there is no match. *)
Lemma exec_from_skip (pre : jsstring) :
  forallb (fun c => negb (c =? SyncBookmarks.lt)%N) pre = true ->
  forall i s,
    exec_from false SyncBookmarks.urlRegex i (pre ++ s)
    = exec_from false SyncBookmarks.urlRegex (i + length pre) s.
Proof.
  induction pre as [|c pre IH]; intros H i s; simpl app.
  - simpl. now rewrite Nat.add_0_r.
  - simpl in H. apply andb_true_iff in H as [Hc H].
    rewrite exec_from_miss.
    + rewrite IH by exact H. f_equal. simpl. lia.
    + unfold SyncBookmarks.urlRegex. rewrite rmatch_Cat, rmatch_Lit.
      change (lit "<") with [SyncBookmarks.lt]. cbn [starts].
      unfold char_matches. cbn [andb]. rewrite N.eqb_sym.
      apply negb_true_iff in Hc. now rewrite Hc.
Qed.

Lemma first_occurrences_head {A} (key : A -> jsstring) (x : A) (l : list A) :
  exists more, first_occurrences key (x :: l) = x :: more.
Proof. rewrite first_occurrences_keep_new. simpl. eauto. Qed.

Lemma links_caps (text : jsstring) :
  SyncBookmarks.links text
  = map (fun cs => or_empty (cap_lookup 1 cs))
        (map m_caps (exec_all false SyncBookmarks.urlRegex text)).
Proof. unfold SyncBookmarks.links. now rewrite map_map. Qed.

(** A text without "<" has no link. *)
Lemma links_none (s : jsstring) :
  forallb (fun c => negb (c =? SyncBookmarks.lt)%N) s = true ->
  SyncBookmarks.links s = [].
Proof.
  intros H. unfold SyncBookmarks.links, exec_all. cbn [exec_loop].
  pose proof (exec_from_skip s H 0 []) as E. rewrite app_nil_r in E.
  rewrite E. reflexivity.
Qed.

(** After a first match that ends where [post] begins, the scan goes on in
    [post] as if it were a text of its own. *)
Lemma links_after_match (text post : jsstring) (i e : nat) (cs : list (nat * jsstring)) :
  exec_from false SyncBookmarks.urlRegex 0 text = Some (MatchResult i e cs) ->
  skipn e text = post -> length post < length text ->
  SyncBookmarks.links text = or_empty (cap_lookup 1 cs) :: SyncBookmarks.links post.
Proof.
  intros E Ek Lk. rewrite links_caps. unfold exec_all. cbn [exec_loop]. rewrite E.
  cbn [m_end map m_caps]. f_equal. rewrite Nat.sub_0_r, Ek.
  rewrite links_caps. f_equal. unfold exec_all.
  unfold SyncBookmarks.urlRegex. change (lit "<") with [SyncBookmarks.lt].
  rewrite (exec_loop_fuel false SyncBookmarks.lt _ (length text) (S (length post)))
    by lia.
  replace e with (e + 0) by lia. apply exec_loop_shift. reflexivity.
Qed.

Lemma skipn_exact {A} (a b : list A) (n : nat) : n = length a -> skipn n (a ++ b) = b.
Proof. intros ->. now rewrite skipn_app, skipn_all, Nat.sub_diag. Qed.

(** The links of a text that begins, after some text without "<", with a
    well-formed link: its url, then the links of what follows. *)
Lemma links_cons (https : bool) (pre : jsstring) (x : cu) (body : jsstring)
    (y : cu) (label post : jsstring) :
  forallb (fun c => negb (c =? SyncBookmarks.lt)%N) pre = true ->
  forallb (notAmong (lit ">|")) (x :: body) = true ->
  forallb (notAmong (lit ">")) (y :: label) = true ->
  let url := lit "http" ++ (if https then lit "s" else []) ++ lit "://" ++ x :: body in
  SyncBookmarks.links (pre ++ SyncBookmarks.bracketed url (y :: label) ++ post)
  = url :: SyncBookmarks.links post.
Proof.
  intros Hpre Hb Hl url.
  pose proof (url_link_match https (0 + length pre) x body y label post Hb Hl) as M.
  fold url in M. cbv zeta in M. apply exec_from_hit in M. cbn [pos caps] in M.
  clearbody url.
  assert (Et : pre ++ SyncBookmarks.bracketed url (y :: label) ++ post
               = pre ++ SyncBookmarks.lt :: url ++ SyncBookmarks.bar :: y :: label
                   ++ SyncBookmarks.gt :: post).
  { unfold SyncBookmarks.bracketed. rewrite <- !app_assoc. reflexivity. }
  rewrite <- (exec_from_skip pre Hpre), <- Et in M.
  apply (links_after_match _ post) in M; [exact M | |].
  - rewrite Et.
    replace (pre ++ SyncBookmarks.lt :: url ++ SyncBookmarks.bar :: y :: label
               ++ SyncBookmarks.gt :: post)
      with ((pre ++ SyncBookmarks.lt :: url ++ SyncBookmarks.bar :: y :: label
               ++ [SyncBookmarks.gt]) ++ post)
      by (repeat (rewrite <- app_assoc || rewrite <- app_comm_cons); reflexivity).
    apply skipn_exact. repeat (rewrite length_app || cbn [length]). lia.
  - rewrite Et. repeat (rewrite length_app || cbn [length]). lia.
Qed.

Lemma links_cons_angled (https : bool) (pre : jsstring) (x : cu) (body post : jsstring) :
  forallb (fun c => negb (c =? SyncBookmarks.lt)%N) pre = true ->
  forallb (notAmong (lit ">|")) (x :: body) = true ->
  let url := lit "http" ++ (if https then lit "s" else []) ++ lit "://" ++ x :: body in
  SyncBookmarks.links (pre ++ SyncBookmarks.angled url ++ post)
  = url :: SyncBookmarks.links post.
Proof.
  intros Hpre Hb url.
  pose proof (url_angled_match https (0 + length pre) x body post Hb) as M.
  fold url in M. cbv zeta in M. apply exec_from_hit in M. cbn [pos caps] in M.
  clearbody url.
  assert (Et : pre ++ SyncBookmarks.angled url ++ post
               = pre ++ SyncBookmarks.lt :: url ++ SyncBookmarks.gt :: post).
  { unfold SyncBookmarks.angled. rewrite <- !app_assoc. reflexivity. }
  rewrite <- (exec_from_skip pre Hpre), <- Et in M.
  apply (links_after_match _ post) in M; [exact M | |].
  - rewrite Et.
    replace (pre ++ SyncBookmarks.lt :: url ++ SyncBookmarks.gt :: post)
      with ((pre ++ SyncBookmarks.lt :: url ++ [SyncBookmarks.gt]) ++ post)
      by (repeat (rewrite <- app_assoc || rewrite <- app_comm_cons); reflexivity).
    apply skipn_exact. repeat (rewrite length_app || cbn [length]). lia.
  - rewrite Et. repeat (rewrite length_app || cbn [length]). lia.
Qed.

(** C6 (amended) -- For a message whose text has, before any other "<", a
    link [<url|label>] with an http or https url free of ">" and "|", a
    label free of ">", and a url that does not contain "slack.com": the
    links of the text are that url followed by the links of the text after
    the link, and the bookmark extractor yields the url as a candidate, first
    among those of that message.  The candidate is the url string alone: the
    label is not kept (with any other label in its place the extractor
    yields the same), and the POST to Micro.blog carries [h=entry] and
    [bookmark-of=url] only.  "Check this out <https://example.com/a|Cool
    Article>" yields the one candidate "https://example.com/a". *)
Theorem C6_bookmark_link_amended :
  (forall (https : bool) (pre : jsstring) (x : cu) (body : jsstring) (y : cu)
          (label post : jsstring) (ms1 : list Message) (m : Message) (ms2 : list Message),
      forallb (fun c => negb (c =? SyncBookmarks.lt)%N) pre = true ->
      forallb (notAmong (lit ">|")) (x :: body) = true ->
      forallb (notAmong (lit ">")) (y :: label) = true ->
      let url := lit "http" ++ (if https then lit "s" else []) ++ lit "://" ++ x :: body in
      includes url (lit "slack.com") = false ->
      or_empty (text m) = pre ++ SyncBookmarks.bracketed url (y :: label) ++ post ->
      SyncBookmarks.links (or_empty (text m)) = url :: SyncBookmarks.links post
      /\ In url (SyncBookmarks.extractUrls (ms1 ++ m :: ms2))
      /\ (exists more, SyncBookmarks.extractUrls (m :: ms2) = url :: more)
      /\ (forall (y' : cu) (label' : jsstring) (m' : Message),
            forallb (notAmong (lit ">")) (y' :: label') = true ->
            or_empty (text m') = pre ++ SyncBookmarks.bracketed url (y' :: label') ++ post ->
            SyncBookmarks.extractUrls (ms1 ++ m' :: ms2)
            = SyncBookmarks.extractUrls (ms1 ++ m :: ms2))
      /\ SyncBookmarks.bookmarkParams url
         = [(lit "h", lit "entry"); (lit "bookmark-of", url)])
  /\ SyncBookmarks.extractUrls
       [Script.said "Check this out <https://example.com/a|Cool Article>"]
     = [lit "https://example.com/a"].
Proof.
  split; [|vm_compute; reflexivity].
  intros https pre x body y label post ms1 m ms2 Hpre Hb Hl url Hs Ht.
  pose proof (links_cons https pre x body y label post Hpre Hb Hl) as L.
  fold url in L. cbv zeta in L. rewrite <- Ht in L.
  assert (K : SyncBookmarks.candidateUrls [m]
              = url :: SyncBookmarks.keptLinks post).
  { unfold SyncBookmarks.candidateUrls. cbn [flat_map]. rewrite app_nil_r.
    unfold SyncBookmarks.keptLinks at 1. rewrite L. cbn [filter]. rewrite Hs.
    reflexivity. }
  split; [exact L|]. split; [|split; [|split]].
  - unfold SyncBookmarks.extractUrls. apply Set_of_In. rewrite collectUrls_spec.
    cbn [app]. change (m :: ms2) with ([m] ++ ms2).
    rewrite !candidateUrls_app, K. apply in_or_app. right. now left.
  - rewrite extractUrls_spec. change (m :: ms2) with ([m] ++ ms2).
    rewrite candidateUrls_app, K. apply first_occurrences_head.
  - intros y' label' m' Hl' Ht'.
    pose proof (links_cons https pre x body y' label' post Hpre Hb Hl') as L'.
    fold url in L'. cbv zeta in L'. rewrite <- Ht' in L'.
    rewrite !extractUrls_spec. f_equal.
    change (m' :: ms2) with ([m'] ++ ms2). change (m :: ms2) with ([m] ++ ms2).
    rewrite !candidateUrls_app, K. f_equal. f_equal.
    unfold SyncBookmarks.candidateUrls. cbn [flat_map]. rewrite app_nil_r.
    unfold SyncBookmarks.keptLinks at 1. rewrite L'. cbn [filter]. rewrite Hs.
    reflexivity.
  - reflexivity.
Qed.

Lemma C6_bookmark_link_amended_witness :
  SyncBookmarks.links (lit "Check this out <https://example.com/a|Cool Article>")
  = lit "https://example.com/a" :: SyncBookmarks.links []
  /\ In (lit "https://example.com/a")
        (SyncBookmarks.extractUrls
           [Script.said "Check this out <https://example.com/a|Cool Article>"])
  /\ SyncBookmarks.bookmarkParams (lit "https://example.com/a")
     = [(lit "h", lit "entry"); (lit "bookmark-of", lit "https://example.com/a")].
Proof.
  destruct (proj1 C6_bookmark_link_amended true (lit "Check this out ")
              101%N (lit "xample.com/a") 67%N (lit "ool Article") []
              [] (Script.said "Check this out <https://example.com/a|Cool Article>") [])
    as (H1 & H2 & _ & _ & H5); try reflexivity.
  split; [exact H1|]. split; [exact H2 | exact H5].
Defined.

(** C6, as stated, fails: the candidate has no title.  Two texts that differ
    in the label only give the same candidate, and the label is not among
    the values posted. *)
Lemma C6_counterexample :
  SyncBookmarks.extractUrls
    [Script.said "Check this out <https://example.com/a|Cool Article>"]
  = [lit "https://example.com/a"]
  /\ SyncBookmarks.extractUrls
       [Script.said "Check this out <https://example.com/a|Another Title>"]
     = [lit "https://example.com/a"]
  /\ ~ In (lit "Cool Article")
          (map snd (SyncBookmarks.bookmarkParams (lit "https://example.com/a"))).
Proof.
  split; [vm_compute; reflexivity|]. split; [vm_compute; reflexivity|].
  vm_compute. intros [H | [H | []]]; discriminate.
Qed.

Lemma extractUrls_In (messages : list Message) (u : jsstring) :
  In u (SyncBookmarks.extractUrls messages)
  <-> (exists msg, In msg messages /\ In u (SyncBookmarks.links (or_empty (text msg))))
      /\ includes u (lit "slack.com") = false.
Proof.
  unfold SyncBookmarks.extractUrls. rewrite Set_of_In.
  rewrite collectUrls_spec. cbn [app]. unfold SyncBookmarks.candidateUrls.
  rewrite in_flat_map. unfold SyncBookmarks.keptLinks. split.
  - intros (m & Hm & Hu). apply filter_In in Hu as [Hu Hs].
    apply negb_true_iff in Hs. split; [eauto | exact Hs].
  - intros ((m & Hm & Hu) & Hs). exists m. split; [exact Hm|].
    apply filter_In. split; [exact Hu|]. now rewrite Hs.
Qed.

(** C10 -- A bracketed link is a candidate of the bookmark extractor exactly
    when its url does not contain "slack.com" as a substring, wherever in the
    url that is.  So it is for every match of the link pattern in any
    message, and so, in particular, for a well-formed link [<url>] or
    [<url|label>] that stands before any other "<" of its text.
    "https://example.com/slack.com-review" is a link, and is dropped. *)
Theorem C10_self_link_filter_is_substring :
  (forall (messages : list Message) (u : jsstring),
      In u (SyncBookmarks.extractUrls messages)
      <-> (exists msg, In msg messages /\ In u (SyncBookmarks.links (or_empty (text msg))))
          /\ includes u (lit "slack.com") = false)
  /\ (forall (https : bool) (pre : jsstring) (x : cu) (body : jsstring) (y : cu)
             (label post link : jsstring) (ms1 : list Message) (m : Message)
             (ms2 : list Message),
      forallb (fun c => negb (c =? SyncBookmarks.lt)%N) pre = true ->
      forallb (notAmong (lit ">|")) (x :: body) = true ->
      let url := lit "http" ++ (if https then lit "s" else []) ++ lit "://" ++ x :: body in
      link = SyncBookmarks.angled url
      \/ (link = SyncBookmarks.bracketed url (y :: label)
          /\ forallb (notAmong (lit ">")) (y :: label) = true) ->
      or_empty (text m) = pre ++ link ++ post ->
      (In url (SyncBookmarks.extractUrls (ms1 ++ m :: ms2))
       <-> includes url (lit "slack.com") = false))
  /\ SyncBookmarks.links (lit "<https://example.com/slack.com-review>")
     = [lit "https://example.com/slack.com-review"]
  /\ includes (lit "https://example.com/slack.com-review") (lit "slack.com") = true
  /\ SyncBookmarks.extractUrls [Script.said "<https://example.com/slack.com-review>"] = [].
Proof.
  split; [exact extractUrls_In|]. split; [|repeat split; vm_compute; reflexivity].
  intros https pre x body y label post link ms1 m ms2 Hpre Hb url Hlink Ht.
  assert (L : In url (SyncBookmarks.links (or_empty (text m)))).
  { rewrite Ht. destruct Hlink as [-> | [-> Hl]].
    - pose proof (links_cons_angled https pre x body post Hpre Hb) as L.
      cbv zeta in L. fold url in L. rewrite L. now left.
    - pose proof (links_cons https pre x body y label post Hpre Hb Hl) as L.
      cbv zeta in L. fold url in L. rewrite L. now left. }
  rewrite extractUrls_In. split.
  - intros [_ Hs]. exact Hs.
  - intros Hs. split; [|exact Hs]. exists m. split; [|exact L].
    apply in_or_app. right. now left.
Qed.

Lemma C10_self_link_filter_is_substring_witness :
  In (lit "https://example.com/b")
     (SyncBookmarks.extractUrls
        [Script.said "<https://slack.com/archives/C1> <https://example.com/b>"])
  /\ (In (lit "https://example.com/slack.com-review")
         (SyncBookmarks.extractUrls
            ([] ++ Script.said "see <https://example.com/slack.com-review> again" :: []))
      <-> includes (lit "https://example.com/slack.com-review") (lit "slack.com") = false).
Proof.
  destruct C10_self_link_filter_is_substring as (H1 & H2 & _). split.
  - apply H1. split.
    + exists (Script.said "<https://slack.com/archives/C1> <https://example.com/b>").
      split; [now left|]. vm_compute. right. left. reflexivity.
    + vm_compute. reflexivity.
  - apply (H2 true (lit "see ") 101%N (lit "xample.com/slack.com-review") 0%N []
              (lit " again")
              (SyncBookmarks.angled (lit "https://example.com/slack.com-review"))
              [] (Script.said "see <https://example.com/slack.com-review> again") []);
      try reflexivity.
    left. reflexivity.
Defined.

(** C7 (amended) -- [parseBookFromMessage] drops, in this order and each at
    most once, a leading book emoji, "currently reading:", "reading:" and
    "now reading:" (in any case, with the white space that follows), and
    trims the text.  If the text can be split as title, white space, "by"
    (in any case), white space, author, with no line terminator in title or
    author, the book has the shortest such title, trimmed, and what follows
    that "by", trimmed, as author.  If it cannot, the book has the whole text
    as title and no author when the text has between 1 and 199 code units,
    and there is no book otherwise.  One of the two cases applies.  "U+1F4DA
    Currently reading: Breakneck by Dan Wang" gives "Breakneck" by "Dan
    Wang"; "Dune by Frank", a line feed, "Herbert" has no such split, and
    gives a book with the whole text as title and no author. *)
Theorem C7_parse_book_amended :
  (forall text : jsstring,
      SyncBooks.cleanText text
      = trim (SyncBooks.strip_prefix (lit "now reading:")
             (SyncBooks.strip_prefix (lit "reading:")
             (SyncBooks.strip_prefix (lit "currently reading:")
             (SyncBooks.strip_prefix SyncBooks.book_emoji text))))
      /\ (forall t a,
            SyncBooks.by_split (SyncBooks.cleanText text) t a ->
            (forall t' a', SyncBooks.by_split (SyncBooks.cleanText text) t' a' ->
                           length t <= length t') ->
            SyncBooks.parseBookFromMessage text
            = Some {| SyncBooks.title := trim t; SyncBooks.author := Some (trim a);
                      SyncBooks.isbn := None |})
      /\ ((forall t a, ~ SyncBooks.by_split (SyncBooks.cleanText text) t a) ->
          SyncBooks.parseBookFromMessage text
          = if Nat.ltb 0 (length (SyncBooks.cleanText text))
               && Nat.ltb (length (SyncBooks.cleanText text)) 200
            then Some {| SyncBooks.title := SyncBooks.cleanText text;
                         SyncBooks.author := None; SyncBooks.isbn := None |}
            else None)
      /\ ((exists t a,
             SyncBooks.by_split (SyncBooks.cleanText text) t a
             /\ forall t' a', SyncBooks.by_split (SyncBooks.cleanText text) t' a' ->
                              length t <= length t')
          \/ (forall t a, ~ SyncBooks.by_split (SyncBooks.cleanText text) t a)))
  /\ SyncBooks.parseBookFromMessage
       (SyncBooks.book_emoji ++ lit " Currently reading: Breakneck by Dan Wang")
     = Some {| SyncBooks.title := lit "Breakneck";
               SyncBooks.author := Some (lit "Dan Wang");
               SyncBooks.isbn := None |}
  /\ SyncBooks.parseBookFromMessage (lit "Dune by Frank" ++ 10%N :: lit "Herbert")
     = Some {| SyncBooks.title := lit "Dune by Frank" ++ 10%N :: lit "Herbert";
               SyncBooks.author := None;
               SyncBooks.isbn := None |}.
Proof.
  split; [|split; vm_compute; reflexivity].
  intros text. split; [apply cleanText_spec|]. split; [|split].
  - intros t a. apply parse_split.
  - apply parse_no_split.
  - apply by_split_cases.
Qed.

Lemma C7_parse_book_amended_witness :
  SyncBooks.parseBookFromMessage (lit "A by B by C")
  = Some {| SyncBooks.title := trim (lit "A");
            SyncBooks.author := Some (trim (lit "B by C"));
            SyncBooks.isbn := None |}.
Proof.
  destruct (proj1 C7_parse_book_amended (lit "A by B by C")) as (_ & H & _).
  apply (H (lit "A") (lit "B by C")).
  - exists (lit " "), 98%N, 121%N, (lit " "). repeat split; try discriminate.
  - intros t' a' (w1 & b & y & w2 & _ & Ht & _). destruct t'; [congruence | simpl; lia].
Defined.

(** C7, as stated, fails: with two " by " in the text the title is the
    shortest prefix, not the longest. *)
Lemma C7_counterexample :
  SyncBooks.parseBookFromMessage (lit "A by B by C")
  = Some {| SyncBooks.title := lit "A"; SyncBooks.author := Some (lit "B by C");
            SyncBooks.isbn := None |}
  /\ SyncBooks.parseBookFromMessage (lit "A by B by C")
     <> Some {| SyncBooks.title := lit "A by B"; SyncBooks.author := Some (lit "C");
                SyncBooks.isbn := None |}.
Proof. split; [vm_compute; reflexivity | vm_compute; discriminate]. Qed.

(** What [saveState] wrote is what [loadState] reads. *)
Lemma bookmark_load_saved (s : SyncBookmarks.State) :
  SyncBookmarks.loadState (Holds (Document s)) = s.
Proof. reflexivity. Qed.

Lemma book_load_saved (s : SyncBooks.State) :
  SyncBooks.loadState (Holds (Document s)) = s.
Proof. reflexivity. Qed.

(** ** Claims about runs *)

Section RunClaims.

Variable toLowerCase : jsstring -> jsstring.
Variable World : Type.
Variable slack_history : World -> World * SlackReply.
Variable micropub : World -> list (jsstring * jsstring) -> World * PostReply.
Variable openlibrary_search : World -> jsstring -> World * SyncBooks.SearchReply.
Variable bookshelves : World -> World * SyncBooks.ShelvesReply.
Variable books_post : World -> list (jsstring * jsstring) -> World * PostReply.
Variable fs_write : World -> Write.

Abbreviation bookmark_main := (SyncBookmarks.main slack_history micropub fs_write).
Abbreviation book_main :=
  (SyncBooks.main toLowerCase slack_history openlibrary_search bookshelves books_post
     fs_write).
Abbreviation book_sync :=
  (SyncBooks.sync toLowerCase slack_history openlibrary_search books_post fs_write).

(** C4 -- In every run that gets to write the state file, the synced keys
    that are written are the keys that were loaded followed by the keys
    added in the run: every loaded key is still there.  The publishing loop
    itself only ever appends to the list.  Bookmark script and book script. *)
Theorem C4_synced_keys_only_grow :
  (forall env now w d r,
      bookmark_main env now w d = (r, Resolved) ->
      exists s added,
        SyncBookmarks.disk r = Holds (Document s)
        /\ SyncBookmarks.syncedUrls s
           = SyncBookmarks.syncedUrls (SyncBookmarks.loadState d) ++ added
        /\ incl (SyncBookmarks.syncedUrls (SyncBookmarks.loadState d))
                (SyncBookmarks.syncedUrls s))
  /\ (forall env now w d r,
      book_main env now w d = (r, Resolved) ->
      exists s added,
        SyncBooks.disk r = Holds (Document s)
        /\ SyncBooks.syncedBooks s
           = SyncBooks.syncedBooks (SyncBooks.loadState d) ++ added
        /\ incl (SyncBooks.syncedBooks (SyncBooks.loadState d))
                (SyncBooks.syncedBooks s))
  /\ (forall urls w state synced out,
      exists added,
        SyncBookmarks.syncedUrls
          (snd (fst (fst (SyncBookmarks.publishAll micropub urls w state synced out))))
        = SyncBookmarks.syncedUrls state ++ added)
  /\ (forall books id w state synced out,
      exists added,
        SyncBooks.syncedBooks
          (snd (fst (fst (SyncBooks.publishAll toLowerCase openlibrary_search
                            books_post books id w state synced out))))
        = SyncBooks.syncedBooks state ++ added).
Proof.
  split; [|split; [|split]].
  - intros env now w d r H.
    destruct (main_cases World slack_history micropub fs_write env now w d r Resolved H)
      as [(Hne & _) | (_ & Hc & w1 & ms & Hf)]; [congruence|].
    destruct (main_resolves World slack_history micropub fs_write env now w w1 d ms r
                Hc Hf H) as (_ & Hd & _).
    eexists; eexists. split; [exact Hd|]. simpl. split; [reflexivity|].
    intros x Hx. apply in_or_app. now left.
  - intros env now w d r H.
    destruct (book_main_cases toLowerCase World slack_history openlibrary_search
                bookshelves books_post fs_write env now w d r Resolved H)
      as [(Hne & _) | (id & w0 & Hs)]; [congruence|].
    destruct (sync_cases toLowerCase World slack_history openlibrary_search books_post
                fs_write id now w0 d r Resolved Hs)
      as [(Hne & _) | (_ & w1 & ms & Hf)]; [congruence|].
    destruct (sync_resolves toLowerCase World slack_history openlibrary_search books_post
                fs_write id now w0 w1 d ms r Hf Hs) as (_ & Hd & _).
    eexists; eexists. split; [exact Hd|]. simpl. split; [reflexivity|].
    intros x Hx. apply in_or_app. now left.
  - intros urls w state synced out.
    pose proof (publishAll_spec World micropub urls w state synced out) as S.
    destruct (SyncBookmarks.publishAll micropub urls w state synced out)
      as [[[w2 st2] n2] out2].
    destruct S as (S1 & _). simpl. eauto.
  - intros books id w state synced out.
    pose proof (book_publishAll_spec toLowerCase World openlibrary_search books_post
                  books id w state synced out) as S.
    destruct (SyncBooks.publishAll _ _ _ books id w state synced out)
      as [[[w2 st2] n2] out2].
    destruct S as (S1 & _). simpl. eauto.
Qed.

(** C3 (amended) -- When Slack answers with [ok] false, the run is not
    aborted: no publish request is made and no key is added, and the run
    gets to the write of the state file; when that write goes through, the
    run resolves and the state file is rewritten with [lastSync] set to the
    time of the run.  When the fetch fails or the body is not JSON, the run
    ends with a rejection before anything is published and the state file is
    left as it was. *)
Theorem C3_fetch_failure_amended :
  (forall env now w d w1 messages,
      SyncBookmarks.configured env = true ->
      slack_history w = (w1, SlackData false messages) ->
      fs_write w1 = Written ->
      exists r,
        bookmark_main env now w d = (r, Resolved)
        /\ SyncBookmarks.world r = w1
        /\ SyncBookmarks.attempted (SyncBookmarks.console r) = []
        /\ SyncBookmarks.disk r = Holds (Document
             {| SyncBookmarks.syncedUrls :=
                  SyncBookmarks.syncedUrls (SyncBookmarks.loadState d);
                SyncBookmarks.lastSync := Some now |}))
  /\ (forall env now w d w1,
      SyncBookmarks.configured env = true ->
      slack_history w = (w1, SlackFetchRejects)
      \/ slack_history w = (w1, SlackBodyNotJson) ->
      bookmark_main env now w d
      = ({| SyncBookmarks.world := w1; SyncBookmarks.disk := d;
            SyncBookmarks.console := [] |}, Rejected))
  /\ (forall id now w d w1 messages,
      slack_history w = (w1, SlackData false messages) ->
      fs_write w1 = Written ->
      exists r,
        book_sync id now w d = (r, Resolved)
        /\ SyncBooks.world r = w1
        /\ SyncBooks.attempted (SyncBooks.console r) = []
        /\ SyncBooks.disk r = Holds (Document
             {| SyncBooks.syncedBooks := SyncBooks.syncedBooks (SyncBooks.loadState d);
                SyncBooks.lastSync := Some now |}))
  /\ (forall id now w d w1,
      slack_history w = (w1, SlackFetchRejects)
      \/ slack_history w = (w1, SlackBodyNotJson) ->
      book_sync id now w d
      = ({| SyncBooks.world := w1; SyncBooks.disk := d; SyncBooks.console := [] |},
         Rejected)).
Proof.
  split; [|split; [|split]].
  - intros env now w d w1 messages Hc Hs Hw.
    unfold SyncBookmarks.main, SyncBookmarks.configured in *.
    apply andb_true_iff in Hc as [Hc H3]. apply andb_true_iff in Hc as [H1 H2].
    rewrite H1, H2, H3. simpl.
    unfold SyncBookmarks.fetchSlackMessages. rewrite Hs. simpl.
    unfold SyncBookmarks.saveState. rewrite Hw. simpl.
    eexists. split; [reflexivity|]. simpl. repeat split.
  - intros env now w d w1 Hc Hs.
    unfold SyncBookmarks.main, SyncBookmarks.configured in *.
    apply andb_true_iff in Hc as [Hc H3]. apply andb_true_iff in Hc as [H1 H2].
    rewrite H1, H2, H3. simpl.
    unfold SyncBookmarks.fetchSlackMessages. now destruct Hs as [-> | ->].
  - intros id now w d w1 messages Hs Hw.
    unfold SyncBooks.sync, SyncBooks.fetchSlackMessages. rewrite Hs. simpl.
    unfold SyncBooks.saveState. rewrite Hw. simpl.
    eexists. split; [reflexivity|]. simpl. repeat split.
  - intros id now w d w1 Hs.
    unfold SyncBooks.sync, SyncBooks.fetchSlackMessages. now destruct Hs as [-> | ->].
Qed.

(** C2 -- Among the N new candidates of a run, let the k-th be the only
    one whose publish step fails, and let the run resolve, that is, get
    through the write of the state file.  Then the run has attempted all N,
    in order; the state it has written holds the loaded keys followed by the
    keys of the candidates before k and after k, in that order; the key of k
    is not in it, and k is again a new candidate when the next run sees the
    same messages.  Bookmark script and book script. *)
Theorem C2_partial_failure_isolation :
  (forall env now w d w1 messages k url r,
      SyncBookmarks.configured env = true ->
      SyncBookmarks.fetchSlackMessages slack_history w = (w1, inr messages) ->
      let new := SyncBookmarks.newUrlsOf (SyncBookmarks.loadState d) messages in
      nth_error new k = Some url ->
      SyncBookmarks.outcomes micropub new w1
        = map (fun j => negb (Nat.eqb j k)) (seq 0 (length new)) ->
      bookmark_main env now w d = (r, Resolved) ->
      exists s,
        SyncBookmarks.disk r = Holds (Document s)
        /\ SyncBookmarks.syncedUrls s
           = SyncBookmarks.syncedUrls (SyncBookmarks.loadState d)
             ++ firstn k new ++ skipn (S k) new
        /\ ~ In url (SyncBookmarks.syncedUrls s)
        /\ SyncBookmarks.attempted (SyncBookmarks.console r) = new
        /\ In url (SyncBookmarks.newUrlsOf
                     (SyncBookmarks.loadState (SyncBookmarks.disk r)) messages))
  /\ (forall id now w d w1 messages k book r,
      SyncBooks.fetchSlackMessages slack_history w = (w1, inr messages) ->
      let new := SyncBooks.newBooksOf toLowerCase (SyncBooks.loadState d) messages in
      nth_error new k = Some book ->
      SyncBooks.outcomes openlibrary_search books_post new id w1
        = map (fun j => negb (Nat.eqb j k)) (seq 0 (length new)) ->
      book_sync id now w d = (r, Resolved) ->
      exists s,
        SyncBooks.disk r = Holds (Document s)
        /\ SyncBooks.syncedBooks s
           = SyncBooks.syncedBooks (SyncBooks.loadState d)
             ++ map (SyncBooks.bookKey toLowerCase) (firstn k new ++ skipn (S k) new)
        /\ ~ In (SyncBooks.bookKey toLowerCase book) (SyncBooks.syncedBooks s)
        /\ SyncBooks.attempted (SyncBooks.console r) = map SyncBooks.title new
        /\ In book (SyncBooks.newBooksOf toLowerCase
                      (SyncBooks.loadState (SyncBooks.disk r)) messages)).
Proof.
  split.
  - intros env now w d w1 messages k url r Hc Hf new Hk Ho Hr.
    destruct (main_resolves World slack_history micropub fs_write env now w w1 d messages r
                Hc Hf Hr) as (_ & Hd & Ha & _).
    fold new in Hd, Ha. rewrite Ho in Hd.
    pose proof (select_all_but new k 0) as E. simpl in E. rewrite E in Hd. clear E.
    assert (Hnot : ~ In url (SyncBookmarks.syncedUrls (SyncBookmarks.loadState d)
                             ++ firstn k new ++ skipn (S k) new)).
    { intros Hin. apply in_app_or in Hin as [Hin | Hin].
      - apply (newUrlsOf_fresh (SyncBookmarks.loadState d) messages url);
          [eapply nth_error_In; exact Hk | exact Hin].
      - apply (NoDup_keys_but_nth (fun x : jsstring => x) new k url).
        + rewrite map_id. apply newUrlsOf_NoDup.
        + exact Hk.
        + now rewrite map_id. }
    eexists. split; [exact Hd|]. simpl.
    split; [reflexivity|]. split; [exact Hnot|]. split; [exact Ha|].
    rewrite Hd. simpl. apply filter_In. split.
    + apply nth_error_In in Hk. apply filter_In in Hk. exact (proj1 Hk).
    + apply negb_true_iff. now apply arr_includes_false.
  - intros id now w d w1 messages k book r Hf new Hk Ho Hr.
    destruct (sync_resolves toLowerCase World slack_history openlibrary_search books_post
                fs_write id now w w1 d messages r Hf Hr) as (_ & Hd & Ha & _).
    fold new in Hd, Ha. rewrite Ho in Hd.
    pose proof (select_all_but new k 0) as E. simpl in E. rewrite E in Hd. clear E.
    assert (Hnot : ~ In (SyncBooks.bookKey toLowerCase book)
                     (SyncBooks.syncedBooks (SyncBooks.loadState d)
                      ++ map (SyncBooks.bookKey toLowerCase)
                           (firstn k new ++ skipn (S k) new))).
    { intros Hin. apply in_app_or in Hin as [Hin | Hin].
      - apply (newBooksOf_fresh toLowerCase (SyncBooks.loadState d) messages book);
          [eapply nth_error_In; exact Hk | exact Hin].
      - apply (NoDup_keys_but_nth (SyncBooks.bookKey toLowerCase) new k book).
        + apply newBooksOf_keys_NoDup.
        + exact Hk.
        + exact Hin. }
    eexists. split; [exact Hd|]. simpl.
    split; [reflexivity|]. split; [exact Hnot|]. split; [exact Ha|].
    rewrite Hd. simpl. apply filter_In. split.
    + apply nth_error_In in Hk. apply filter_In in Hk. exact (proj1 Hk).
    + apply negb_true_iff. now apply arr_includes_false.
Qed.

(** C1 (amended) -- Run the script, then run it again on the state file it
    wrote, with Slack returning the same messages, and let both runs
    resolve, that is, get through the write of the state file.  The keys
    added by the two runs are all distinct, so no item is recorded as
    published twice.  The second run attempts exactly the candidates on which
    the first run failed, in the same order; when the first run had no
    failure the second attempts nothing and adds nothing.  Bookmark script
    and book script. *)
Theorem C1_second_run_amended :
  (forall env now1 now2 w d w1 messages r1 w2 r2,
      SyncBookmarks.configured env = true ->
      SyncBookmarks.fetchSlackMessages slack_history w = (w1, inr messages) ->
      bookmark_main env now1 w d = (r1, Resolved) ->
      SyncBookmarks.fetchSlackMessages slack_history (SyncBookmarks.world r1)
        = (w2, inr messages) ->
      bookmark_main env now2 (SyncBookmarks.world r1) (SyncBookmarks.disk r1)
        = (r2, Resolved) ->
      exists s1 s2 pub1 pub2,
        SyncBookmarks.disk r1 = Holds (Document s1)
        /\ SyncBookmarks.disk r2 = Holds (Document s2)
        /\ SyncBookmarks.syncedUrls s1
           = SyncBookmarks.syncedUrls (SyncBookmarks.loadState d) ++ pub1
        /\ SyncBookmarks.syncedUrls s2 = SyncBookmarks.syncedUrls s1 ++ pub2
        /\ NoDup (pub1 ++ pub2)
        /\ SyncBookmarks.attempted (SyncBookmarks.console r2)
           = SyncBookmarks.failed (SyncBookmarks.console r1)
        /\ (SyncBookmarks.failed (SyncBookmarks.console r1) = [] ->
            SyncBookmarks.attempted (SyncBookmarks.console r2) = [] /\ pub2 = []))
  /\ (forall id now1 now2 w d w1 messages r1 w2 r2,
      SyncBooks.fetchSlackMessages slack_history w = (w1, inr messages) ->
      book_sync id now1 w d = (r1, Resolved) ->
      SyncBooks.fetchSlackMessages slack_history (SyncBooks.world r1)
        = (w2, inr messages) ->
      book_sync id now2 (SyncBooks.world r1) (SyncBooks.disk r1) = (r2, Resolved) ->
      exists s1 s2 pub1 pub2,
        SyncBooks.disk r1 = Holds (Document s1)
        /\ SyncBooks.disk r2 = Holds (Document s2)
        /\ SyncBooks.syncedBooks s1
           = SyncBooks.syncedBooks (SyncBooks.loadState d) ++ pub1
        /\ SyncBooks.syncedBooks s2 = SyncBooks.syncedBooks s1 ++ pub2
        /\ NoDup (pub1 ++ pub2)
        /\ SyncBooks.attempted (SyncBooks.console r2)
           = SyncBooks.failed (SyncBooks.console r1)
        /\ (SyncBooks.failed (SyncBooks.console r1) = [] ->
            SyncBooks.attempted (SyncBooks.console r2) = [] /\ pub2 = [])).
Proof.
  split.
  - intros env now1 now2 w d w1 messages r1 w2 r2 Hc Hf1 Hm1 Hf2 Hm2.
    destruct (main_resolves World slack_history micropub fs_write env now1 w w1 d messages
                r1 Hc Hf1 Hm1) as (_ & Hd1 & Ha1 & Hx1 & _).
    set (st := SyncBookmarks.loadState d) in *.
    set (new1 := SyncBookmarks.newUrlsOf st messages) in *.
    set (o1 := SyncBookmarks.outcomes micropub new1 w1) in *.
    destruct (main_resolves World slack_history micropub fs_write env now2
                (SyncBookmarks.world r1) w2 (SyncBookmarks.disk r1) messages r2
                Hc Hf2 Hm2) as (_ & Hd2 & Ha2 & _).
    rewrite Hd1, bookmark_load_saved in Hd2, Ha2. cbn [SyncBookmarks.syncedUrls] in Hd2.
    assert (Hnext : SyncBookmarks.newUrlsOf
              {| SyncBookmarks.syncedUrls := SyncBookmarks.syncedUrls st ++ select o1 new1;
                 SyncBookmarks.lastSync := Some now1 |} messages
            = select (map negb o1) new1).
    { apply newUrlsOf_next. apply outcomes_length. }
    rewrite Hnext in Hd2, Ha2.
    eexists. eexists. exists (select o1 new1). eexists.
    split; [exact Hd1|]. split; [exact Hd2|]. simpl.
    split; [reflexivity|]. split; [reflexivity|]. split; [|split].
    + pose proof (NoDup_keys_two_runs (fun x : jsstring => x) o1
        (SyncBookmarks.outcomes micropub (select (map negb o1) new1) w2) new1) as N.
      rewrite !map_id in N. apply N. apply newUrlsOf_NoDup.
    + now rewrite Ha2, Hx1.
    + intros H0. rewrite Hx1 in H0. rewrite Ha2, H0. simpl. now split.
  - intros id now1 now2 w d w1 messages r1 w2 r2 Hf1 Hm1 Hf2 Hm2.
    destruct (sync_resolves toLowerCase World slack_history openlibrary_search books_post
                fs_write id now1 w w1 d messages r1 Hf1 Hm1) as (_ & Hd1 & Ha1 & Hx1 & _).
    set (st := SyncBooks.loadState d) in *.
    set (new1 := SyncBooks.newBooksOf toLowerCase st messages) in *.
    set (o1 := SyncBooks.outcomes openlibrary_search books_post new1 id w1) in *.
    destruct (sync_resolves toLowerCase World slack_history openlibrary_search books_post
                fs_write id now2 (SyncBooks.world r1) w2 (SyncBooks.disk r1) messages r2
                Hf2 Hm2) as (_ & Hd2 & Ha2 & _).
    rewrite Hd1, book_load_saved in Hd2, Ha2. cbn [SyncBooks.syncedBooks] in Hd2.
    assert (Hnext : SyncBooks.newBooksOf toLowerCase
              {| SyncBooks.syncedBooks := SyncBooks.syncedBooks st
                   ++ map (SyncBooks.bookKey toLowerCase) (select o1 new1);
                 SyncBooks.lastSync := Some now1 |} messages
            = select (map negb o1) new1).
    { apply newBooksOf_next. apply book_outcomes_length. }
    rewrite Hnext in Hd2, Ha2.
    eexists. eexists.
    exists (map (SyncBooks.bookKey toLowerCase) (select o1 new1)). eexists.
    split; [exact Hd1|]. split; [exact Hd2|]. simpl.
    split; [reflexivity|]. split; [reflexivity|]. split; [|split].
    + apply NoDup_keys_two_runs. apply newBooksOf_keys_NoDup.
    + now rewrite Ha2, Hx1.
    + intros H0. rewrite Hx1 in H0. apply map_eq_nil in H0.
      rewrite Ha2, H0. simpl. now split.
Qed.

End RunClaims.

(** ** The claims about runs on the scripted world *)

Lemma C4_synced_keys_only_grow_witness :
  (exists s added,
     SyncBookmarks.disk
       (fst (Script.bookmark_main Script.bookmarkEnv Script.later
               Script.secondRefused Script.earlier))
     = Holds (Document s)
     /\ SyncBookmarks.syncedUrls s
        = SyncBookmarks.syncedUrls (SyncBookmarks.loadState Script.earlier) ++ added
     /\ incl (SyncBookmarks.syncedUrls (SyncBookmarks.loadState Script.earlier))
             (SyncBookmarks.syncedUrls s))
  /\ (exists s added,
     SyncBooks.disk
       (fst (Script.book_main Script.bookEnv Script.later
               Script.secondBookRefused Script.earlierBooks))
     = Holds (Document s)
     /\ SyncBooks.syncedBooks s
        = SyncBooks.syncedBooks (SyncBooks.loadState Script.earlierBooks) ++ added
     /\ incl (SyncBooks.syncedBooks (SyncBooks.loadState Script.earlierBooks))
             (SyncBooks.syncedBooks s)).
Proof.
  pose proof (C4_synced_keys_only_grow Script.toLowerCase Script.World
                Script.slack_history Script.post Script.openlibrary_search
                Script.bookshelves Script.post Script.fs_write) as (H1 & H2 & _).
  split.
  - apply (H1 Script.bookmarkEnv Script.later Script.secondRefused Script.earlier).
    vm_compute. reflexivity.
  - apply (H2 Script.bookEnv Script.later Script.secondBookRefused Script.earlierBooks).
    vm_compute. reflexivity.
Defined.

(** C3, as stated, fails: Slack answers with [ok] false, and the run is not
    aborted; it resolves and rewrites the state file with a new [lastSync]. *)
Lemma C3_counterexample :
  exists r,
    Script.bookmark_main Script.bookmarkEnv Script.later Script.slackNotOk Script.earlier
      = (r, Resolved)
    /\ SyncBookmarks.disk r <> Script.earlier
    /\ SyncBookmarks.disk r
       = Holds (Document {| SyncBookmarks.syncedUrls := [lit "https://example.com/a"];
                            SyncBookmarks.lastSync := Some Script.later |}).
Proof.
  eexists. split; [vm_compute; reflexivity|]. split.
  - vm_compute. discriminate.
  - vm_compute. reflexivity.
Qed.

Lemma C3_fetch_failure_amended_witness :
  (exists r,
     Script.bookmark_main Script.bookmarkEnv Script.later Script.slackNotOk Script.earlier
       = (r, Resolved)
     /\ SyncBookmarks.world r = Script.slackNotOk
     /\ SyncBookmarks.attempted (SyncBookmarks.console r) = []
     /\ SyncBookmarks.disk r = Holds (Document
          {| SyncBookmarks.syncedUrls :=
               SyncBookmarks.syncedUrls (SyncBookmarks.loadState Script.earlier);
             SyncBookmarks.lastSync := Some Script.later |}))
  /\ Script.bookmark_main Script.bookmarkEnv Script.later Script.slackGarbled Script.earlier
     = ({| SyncBookmarks.world := Script.slackGarbled; SyncBookmarks.disk := Script.earlier;
           SyncBookmarks.console := [] |}, Rejected)
  /\ (exists r,
     Script.book_sync Script.shelf Script.later Script.slackNotOk Script.earlierBooks
       = (r, Resolved)
     /\ SyncBooks.world r = Script.slackNotOk
     /\ SyncBooks.attempted (SyncBooks.console r) = []
     /\ SyncBooks.disk r = Holds (Document
          {| SyncBooks.syncedBooks :=
               SyncBooks.syncedBooks (SyncBooks.loadState Script.earlierBooks);
             SyncBooks.lastSync := Some Script.later |}))
  /\ Script.book_sync Script.shelf Script.later Script.slackGarbled Script.earlierBooks
     = ({| SyncBooks.world := Script.slackGarbled; SyncBooks.disk := Script.earlierBooks;
           SyncBooks.console := [] |}, Rejected).
Proof.
  pose proof (C3_fetch_failure_amended Script.toLowerCase Script.World
                Script.slack_history Script.post Script.openlibrary_search
                Script.post Script.fs_write) as (H1 & H2 & H3 & H4).
  split; [|split; [|split]].
  - apply (H1 Script.bookmarkEnv Script.later Script.slackNotOk Script.earlier
              Script.slackNotOk None); reflexivity.
  - apply (H2 Script.bookmarkEnv Script.later Script.slackGarbled Script.earlier
              Script.slackGarbled); [reflexivity | right; reflexivity].
  - apply (H3 Script.shelf Script.later Script.slackNotOk Script.earlierBooks
              Script.slackNotOk None); reflexivity.
  - apply (H4 Script.shelf Script.later Script.slackGarbled Script.earlierBooks
              Script.slackGarbled); right; reflexivity.
Defined.

Lemma C2_partial_failure_isolation_witness :
  (exists s,
     SyncBookmarks.disk
       (fst (Script.bookmark_main Script.bookmarkEnv Script.later Script.secondRefused
               Absent))
     = Holds (Document s)
     /\ SyncBookmarks.syncedUrls s
        = [lit "https://example.com/a"; lit "https://example.com/c"]
     /\ ~ In (lit "https://example.com/b") (SyncBookmarks.syncedUrls s)
     /\ SyncBookmarks.attempted
          (SyncBookmarks.console
             (fst (Script.bookmark_main Script.bookmarkEnv Script.later
                     Script.secondRefused Absent)))
        = [lit "https://example.com/a"; lit "https://example.com/b";
           lit "https://example.com/c"]
     /\ In (lit "https://example.com/b")
           (SyncBookmarks.newUrlsOf
              (SyncBookmarks.loadState
                 (SyncBookmarks.disk
                    (fst (Script.bookmark_main Script.bookmarkEnv Script.later
                            Script.secondRefused Absent))))
              Script.linkMessages))
  /\ (exists s,
     SyncBooks.disk
       (fst (Script.book_sync Script.shelf Script.later Script.secondBookRefused Absent))
     = Holds (Document s)
     /\ SyncBooks.syncedBooks s = [lit "breakneck|dan wang"; lit "emma|jane austen"]
     /\ ~ In (SyncBooks.bookKey Script.toLowerCase Script.dune) (SyncBooks.syncedBooks s)
     /\ SyncBooks.attempted
          (SyncBooks.console
             (fst (Script.book_sync Script.shelf Script.later Script.secondBookRefused
                     Absent)))
        = [lit "Breakneck"; lit "Dune"; lit "Emma"]
     /\ In Script.dune
           (SyncBooks.newBooksOf Script.toLowerCase
              (SyncBooks.loadState
                 (SyncBooks.disk
                    (fst (Script.book_sync Script.shelf Script.later
                            Script.secondBookRefused Absent))))
              Script.bookMessages)).
Proof.
  pose proof (C2_partial_failure_isolation Script.toLowerCase Script.World
                Script.slack_history Script.post Script.openlibrary_search
                Script.post Script.fs_write) as (H1 & H2).
  split.
  - apply (H1 Script.bookmarkEnv Script.later Script.secondRefused Absent
              Script.secondRefused Script.linkMessages 1 (lit "https://example.com/b")).
    + reflexivity.
    + reflexivity.
    + vm_compute. reflexivity.
    + vm_compute. reflexivity.
    + vm_compute. reflexivity.
  - apply (H2 Script.shelf Script.later Script.secondBookRefused Absent
              Script.secondBookRefused Script.bookMessages 1 Script.dune).
    + reflexivity.
    + vm_compute. reflexivity.
    + vm_compute. reflexivity.
    + vm_compute. reflexivity.
Defined.

(** C1, as stated, fails: when the first run could not publish a link, the
    second run, on the same messages, attempts it again. *)
Lemma C1_counterexample :
  exists r1 r2,
    Script.bookmark_main Script.bookmarkEnv Script.later Script.alwaysRefused Absent
      = (r1, Resolved)
    /\ Script.bookmark_main Script.bookmarkEnv Script.later
         (SyncBookmarks.world r1) (SyncBookmarks.disk r1) = (r2, Resolved)
    /\ Script.slack (SyncBookmarks.world r1) = Script.slack Script.alwaysRefused
    /\ SyncBookmarks.attempted (SyncBookmarks.console r2) = [lit "https://example.com/a"]
    /\ SyncBookmarks.attempted (SyncBookmarks.console r2) <> [].
Proof.
  eexists. eexists. split; [vm_compute; reflexivity|].
  split; [vm_compute; reflexivity|]. split; [reflexivity|].
  split; [vm_compute; reflexivity | vm_compute; discriminate].
Qed.

Lemma C1_second_run_amended_witness :
  (exists s1 s2 pub1 pub2,
     SyncBookmarks.disk (fst (Script.bookmark_main Script.bookmarkEnv Script.later
                                   Script.secondRefused Absent)) = Holds (Document s1)
     /\ SyncBookmarks.disk
          (fst (Script.bookmark_main Script.bookmarkEnv Script.later
                  (SyncBookmarks.world
                     (fst (Script.bookmark_main Script.bookmarkEnv Script.later
                             Script.secondRefused Absent)))
                  (SyncBookmarks.disk
                     (fst (Script.bookmark_main Script.bookmarkEnv Script.later
                             Script.secondRefused Absent)))))
        = Holds (Document s2)
     /\ SyncBookmarks.syncedUrls s1
        = SyncBookmarks.syncedUrls (SyncBookmarks.loadState Absent) ++ pub1
     /\ SyncBookmarks.syncedUrls s2 = SyncBookmarks.syncedUrls s1 ++ pub2
     /\ NoDup (pub1 ++ pub2)
     /\ SyncBookmarks.attempted
          (SyncBookmarks.console
             (fst (Script.bookmark_main Script.bookmarkEnv Script.later
                     (SyncBookmarks.world
                        (fst (Script.bookmark_main Script.bookmarkEnv Script.later
                                Script.secondRefused Absent)))
                     (SyncBookmarks.disk
                        (fst (Script.bookmark_main Script.bookmarkEnv Script.later
                                Script.secondRefused Absent))))))
        = SyncBookmarks.failed
            (SyncBookmarks.console (fst (Script.bookmark_main Script.bookmarkEnv
                                           Script.later Script.secondRefused Absent)))
     /\ (SyncBookmarks.failed
           (SyncBookmarks.console (fst (Script.bookmark_main Script.bookmarkEnv
                                          Script.later Script.secondRefused Absent))) = [] ->
         SyncBookmarks.attempted
           (SyncBookmarks.console
              (fst (Script.bookmark_main Script.bookmarkEnv Script.later
                      (SyncBookmarks.world
                         (fst (Script.bookmark_main Script.bookmarkEnv Script.later
                                 Script.secondRefused Absent)))
                      (SyncBookmarks.disk
                         (fst (Script.bookmark_main Script.bookmarkEnv Script.later
                                 Script.secondRefused Absent)))))) = []
         /\ pub2 = []))
  /\ (exists s1 s2 pub1 pub2,
     SyncBooks.disk (fst (Script.book_sync Script.shelf Script.later
                               Script.secondBookRefused Absent)) = Holds (Document s1)
     /\ SyncBooks.disk
          (fst (Script.book_sync Script.shelf Script.later
                  (SyncBooks.world (fst (Script.book_sync Script.shelf Script.later
                                           Script.secondBookRefused Absent)))
                  (SyncBooks.disk (fst (Script.book_sync Script.shelf Script.later
                                          Script.secondBookRefused Absent)))))
        = Holds (Document s2)
     /\ SyncBooks.syncedBooks s1
        = SyncBooks.syncedBooks (SyncBooks.loadState Absent) ++ pub1
     /\ SyncBooks.syncedBooks s2 = SyncBooks.syncedBooks s1 ++ pub2
     /\ NoDup (pub1 ++ pub2)
     /\ SyncBooks.attempted
          (SyncBooks.console
             (fst (Script.book_sync Script.shelf Script.later
                     (SyncBooks.world (fst (Script.book_sync Script.shelf Script.later
                                              Script.secondBookRefused Absent)))
                     (SyncBooks.disk (fst (Script.book_sync Script.shelf Script.later
                                             Script.secondBookRefused Absent))))))
        = SyncBooks.failed
            (SyncBooks.console (fst (Script.book_sync Script.shelf Script.later
                                       Script.secondBookRefused Absent)))
     /\ (SyncBooks.failed
           (SyncBooks.console (fst (Script.book_sync Script.shelf Script.later
                                      Script.secondBookRefused Absent))) = [] ->
         SyncBooks.attempted
           (SyncBooks.console
              (fst (Script.book_sync Script.shelf Script.later
                      (SyncBooks.world (fst (Script.book_sync Script.shelf Script.later
                                               Script.secondBookRefused Absent)))
                      (SyncBooks.disk (fst (Script.book_sync Script.shelf Script.later
                                              Script.secondBookRefused Absent)))))) = []
         /\ pub2 = [])).
Proof.
  pose proof (C1_second_run_amended Script.toLowerCase Script.World
                Script.slack_history Script.post Script.openlibrary_search
                Script.post Script.fs_write) as (H1 & H2).
  split.
  - apply (H1 Script.bookmarkEnv Script.later Script.later Script.secondRefused Absent
              Script.secondRefused Script.linkMessages _
              (SyncBookmarks.world (fst (Script.bookmark_main Script.bookmarkEnv
                                           Script.later Script.secondRefused Absent)))).
    + reflexivity.
    + reflexivity.
    + vm_compute. reflexivity.
    + vm_compute. reflexivity.
    + vm_compute. reflexivity.
  - apply (H2 Script.shelf Script.later Script.later Script.secondBookRefused Absent
              Script.secondBookRefused Script.bookMessages _
              (SyncBooks.world (fst (Script.book_sync Script.shelf Script.later
                                       Script.secondBookRefused Absent)))).
    + reflexivity.
    + vm_compute. reflexivity.
    + vm_compute. reflexivity.
    + vm_compute. reflexivity.
Defined.

(** * More properties of the scripts *)

(** ** Extraction over a longer history *)

Lemma keep_new_seen_filter {A} (key : A -> jsstring) (l : list A) :
  forall s1 s2,
    keep_new key (s1 ++ s2) l
    = filter (fun x => negb (arr_includes s1 (key x))) (keep_new key s2 l).
Proof.
  induction l as [|x l IH]; intros s1 s2; simpl; [reflexivity|].
  rewrite arr_includes_app.
  destruct (arr_includes s2 (key x)) eqn:E2.
  - rewrite orb_true_r. apply IH.
  - rewrite orb_false_r. simpl.
    destruct (arr_includes s1 (key x)) eqn:E1; simpl.
    + rewrite <- IH. apply keep_new_ext. intros k. rewrite !in_app_iff. simpl.
      apply arr_includes_In in E1. intuition congruence.
    + f_equal. rewrite <- IH. now rewrite app_assoc.
Qed.

Lemma keep_new_app {A} (key : A -> jsstring) (l1 l2 : list A) :
  forall seen,
    keep_new key seen (l1 ++ l2)
    = keep_new key seen l1
      ++ keep_new key (seen ++ map key (keep_new key seen l1)) l2.
Proof.
  induction l1 as [|x l1 IH]; intros seen; simpl.
  - now rewrite app_nil_r.
  - destruct (arr_includes seen (key x)) eqn:E; [apply IH|].
    simpl. f_equal. rewrite IH. now rewrite <- app_assoc.
Qed.

Lemma first_occurrences_app {A} (key : A -> jsstring) (l1 l2 : list A) :
  first_occurrences key (l1 ++ l2)
  = first_occurrences key l1
    ++ filter (fun x => negb (arr_includes (map key (first_occurrences key l1)) (key x)))
              (first_occurrences key l2).
Proof.
  rewrite !first_occurrences_keep_new, keep_new_app. f_equal.
  cbn [app]. rewrite <- keep_new_seen_filter. now rewrite app_nil_r.
Qed.

Lemma filter_seen_all {A} (key : A -> jsstring) (l : list A) :
  filter (fun x => negb (arr_includes (map key l) (key x))) l = [].
Proof.
  assert (H : forall l', incl l' l ->
            filter (fun x => negb (arr_includes (map key l) (key x))) l' = []).
  { induction l' as [|x l' IH]; intros Hi; simpl; [reflexivity|].
    assert (E : arr_includes (map key l) (key x) = true).
    { apply arr_includes_In. apply in_map. apply Hi. now left. }
    rewrite E. simpl. apply IH. intros y Hy. apply Hi. now right. }
  apply H. apply incl_refl.
Qed.

(** X2 -- Extraction goes through a channel history piece by piece: what
    is extracted from the messages [a] followed by the messages [b] is what
    is extracted from [a], followed by what is extracted from [b] without
    the candidates whose key was found in [a] already.  In particular, a
    history that comes twice gives what it gives once.  Bookmark urls and
    books alike. *)
Theorem X2_extraction_of_a_longer_history :
  forall (toLowerCase : jsstring -> jsstring) (a b : list Message),
    SyncBookmarks.extractUrls (a ++ b)
    = SyncBookmarks.extractUrls a
      ++ filter (fun url => negb (arr_includes (SyncBookmarks.extractUrls a) url))
                (SyncBookmarks.extractUrls b)
    /\ SyncBooks.extractBooks toLowerCase (a ++ b)
       = SyncBooks.extractBooks toLowerCase a
         ++ filter (fun book =>
                      negb (arr_includes
                              (map (SyncBooks.bookKey toLowerCase)
                                   (SyncBooks.extractBooks toLowerCase a))
                              (SyncBooks.bookKey toLowerCase book)))
                   (SyncBooks.extractBooks toLowerCase b)
    /\ SyncBookmarks.extractUrls (a ++ a) = SyncBookmarks.extractUrls a
    /\ SyncBooks.extractBooks toLowerCase (a ++ a) = SyncBooks.extractBooks toLowerCase a.
Proof.
  intros toLowerCase a b.
  assert (U : forall a b,
    SyncBookmarks.extractUrls (a ++ b)
    = SyncBookmarks.extractUrls a
      ++ filter (fun url => negb (arr_includes (SyncBookmarks.extractUrls a) url))
                (SyncBookmarks.extractUrls b)).
  { intros a0 b0.
    rewrite !extractUrls_spec, candidateUrls_app, first_occurrences_app.
    now rewrite map_id. }
  assert (B : forall a b,
    SyncBooks.extractBooks toLowerCase (a ++ b)
    = SyncBooks.extractBooks toLowerCase a
      ++ filter (fun book =>
                   negb (arr_includes
                           (map (SyncBooks.bookKey toLowerCase)
                                (SyncBooks.extractBooks toLowerCase a))
                           (SyncBooks.bookKey toLowerCase book)))
                (SyncBooks.extractBooks toLowerCase b)).
  { intros a0 b0.
    rewrite !extractBooks_spec, parsedBooks_app. apply first_occurrences_app. }
  split; [apply U|]. split; [apply B|]. split.
  - rewrite U.
    pose proof (filter_seen_all (fun u : jsstring => u) (SyncBookmarks.extractUrls a)) as F.
    rewrite map_id in F. cbn beta in F. rewrite F. apply app_nil_r.
  - rewrite B, filter_seen_all. apply app_nil_r.
Qed.

(** ** What a match of the link pattern looks like *)

Lemma starts_exact_inv (p s : jsstring) :
  starts false p s = true -> s = p ++ skipn (length p) s.
Proof.
  revert s; induction p as [|c p IH]; intros [|x s]; simpl; try reflexivity;
    try discriminate.
  intros H. apply andb_true_iff in H as [Hc Hp].
  unfold char_matches in Hc. simpl in Hc. apply N.eqb_eq in Hc. subst x.
  f_equal. now apply IH.
Qed.

Lemma rmatch_Lit_inv (p : jsstring) (k : cont) (i : nat) (s : jsstring)
    (cs : list (nat * jsstring)) (res : mstate) :
  rmatch false (Lit p) (MState i s cs) k = Some res ->
  exists s', s = p ++ s' /\ k (MState (i + length p) s' cs) = Some res.
Proof.
  rewrite rmatch_Lit. destruct (starts false p s) eqn:E; [|discriminate].
  intros H. exists (skipn (length p) s). split; [now apply starts_exact_inv|exact H].
Qed.

Lemma rmatch_Opt_inv (ic : bool) (r : regex) (st : mstate) (k : cont) (res : mstate) :
  rmatch ic (Opt r) st k = Some res ->
  rmatch ic r st (fun st1 =>
    if Nat.ltb (length (rest st1)) (length (rest st)) then k st1 else None) = Some res
  \/ k st = Some res.
Proof.
  cbn [rmatch].
  destruct (rmatch ic r st _) as [r0|] eqn:E.
  - intros H. left. congruence.
  - intros H. now right.
Qed.

Lemma rmatch_Plus_inv (ic : bool) (r : regex) (p : cu -> bool) (k : cont)
    (i : nat) (s : jsstring) (cs : list (nat * jsstring)) (res : mstate) :
  rmatch ic r = one p ->
  rmatch ic (Plus r) (MState i s cs) k = Some res ->
  exists x run s',
    s = (x :: run) ++ s' /\ forallb p (x :: run) = true
    /\ k (MState (i + length (x :: run)) s' cs) = Some res.
Proof.
  intros Hr. rewrite (rmatch_Plus_one ic r p k i s cs Hr).
  destruct s as [|x s]; [discriminate|].
  destruct (p x) eqn:Hx; [|discriminate].
  intros H. apply greedy_scan_Some in H as (n & Hn & Hp & Hk & _).
  exists x, (firstn n s), (skipn n s). split; [|split].
  - simpl. now rewrite firstn_skipn.
  - simpl. now rewrite Hx, Hp.
  - unfold after in Hk. rewrite <- Hk. f_equal. f_equal. cbn [length].
    rewrite length_firstn. lia.
Qed.

Section UrlShape.

Import SyncBookmarks.

Lemma urlRegex_sound (i : nat) (s : jsstring) (res : mstate) :
  rmatch false urlRegex (MState i s []) (fun st => Some st) = Some res ->
  exists https x body c post,
    s = lt :: http_url https x body ++ c :: post
    /\ forallb (notAmong (lit ">|")) (x :: body) = true
    /\ (c = gt \/ c = bar)
    /\ cap_lookup 1 (caps res) = Some (http_url https x body).
Proof.
  unfold urlRegex. rewrite rmatch_Cat. intros H.
  apply rmatch_Lit_inv in H as (s1 & -> & H).
  rewrite rmatch_Cat, rmatch_Group in H. cbn [pos rest caps] in H.
  rewrite rmatch_Cat in H.
  apply rmatch_Lit_inv in H as (s2 & -> & H).
  rewrite rmatch_Cat in H.
  assert (Hs : exists (https : bool) s3 j,
    s2 = (if https then lit "s" else []) ++ s3
    /\ j = i + length (lit "<") + length (lit "http")
           + length (if https then lit "s" else @nil cu)
    /\ rmatch false (Cat (Lit (lit "://")) (Plus (NotIn (lit ">|"))))
         (MState j s3 [])
         (fun st1 =>
            rmatch false
              (Cat (Opt (Cat (Lit (lit "|")) (Group 2 (Plus (NotIn (lit ">"))))))
                   (Lit (lit ">")))
              (MState (pos st1) (rest st1)
                 ((1, firstn (pos st1 - (i + length (lit "<"))) (lit "http" ++ s2))
                    :: caps st1))
              (fun st => Some st)) = Some res).
  { apply rmatch_Opt_inv in H as [H | H].
    - apply rmatch_Lit_inv in H as (s3 & -> & H). cbn [pos rest caps] in H.
      destruct (Nat.ltb _ _); [|discriminate].
      exists true, s3, (i + length (lit "<") + length (lit "http") + length (lit "s")).
      repeat split. exact H.
    - exists false, s2, (i + length (lit "<") + length (lit "http") + 0).
      repeat split. rewrite Nat.add_0_r. exact H. }
  clear H. destruct Hs as (https & s3 & j & -> & Hj & H).
  rewrite rmatch_Cat in H.
  apply rmatch_Lit_inv in H as (s4 & -> & H).
  apply (rmatch_Plus_inv false (NotIn (lit ">|")) (notAmong (lit ">|"))) in H;
    [|reflexivity].
  destruct H as (x & body & s5 & -> & Hbody & H).
  cbn [pos rest caps] in H.
  set (url := http_url https x body).
  assert (Ecap : firstn (j + length (lit "://") + length (x :: body) - (i + length (lit "<")))
                   (lit "http" ++ (if https then lit "s" else []) ++ lit "://"
                      ++ (x :: body) ++ s5) = url).
  { replace (lit "http" ++ (if https then lit "s" else []) ++ lit "://"
                      ++ (x :: body) ++ s5) with (url ++ s5)
      by (unfold url, http_url; now rewrite <- !app_assoc).
    replace (j + length (lit "://") + length (x :: body) - (i + length (lit "<")))
      with (length url).
    - rewrite firstn_app, firstn_all, Nat.sub_diag. simpl. now rewrite app_nil_r.
    - unfold url, http_url. rewrite Hj, !length_app. destruct https; simpl; lia. }
  rewrite Ecap in H. clear Ecap.
  rewrite rmatch_Cat in H.
  exists https, x, body.
  apply rmatch_Opt_inv in H as [H | H].
  - rewrite rmatch_Cat in H.
    apply rmatch_Lit_inv in H as (s6 & -> & H).
    rewrite rmatch_Group in H.
    apply (rmatch_Plus_inv false (NotIn (lit ">")) (notAmong (lit ">"))) in H;
      [|reflexivity].
    destruct H as (y & label & s7 & -> & Hlabel & H).
    cbn [pos rest caps] in H.
    destruct (Nat.ltb _ _); [|discriminate].
    apply rmatch_Lit_inv in H as (s8 & -> & H).
    injection H as <-.
    exists bar, ((y :: label) ++ lit ">" ++ s8). split; [|split; [|split]].
    + unfold url, http_url. cbn [lit list_ascii_of_string map app].
      unfold lt, bar. simpl. now rewrite <- !app_assoc.
    + exact Hbody.
    + now right.
    + reflexivity.
  - apply rmatch_Lit_inv in H as (s6 & -> & H).
    injection H as <-.
    exists gt, s6. split; [|split; [|split]].
    + unfold url, http_url. unfold lt, gt. simpl. now rewrite <- !app_assoc.
    + exact Hbody.
    + now left.
    + reflexivity.
Qed.

End UrlShape.

(** A match of [exec] was found by the matcher at its start index. *)
Lemma exec_from_inv (ic : bool) (r : regex) (s : jsstring) :
  forall i m,
    exec_from ic r i s = Some m ->
    exists pre s' st,
      s = pre ++ s'
      /\ rmatch ic r (MState (i + length pre) s' []) (fun st => Some st) = Some st
      /\ m = MatchResult (i + length pre) (pos st) (caps st).
Proof.
  induction s as [|x s IH]; intros i m; cbn [exec_from].
  - destruct (rmatch ic r (MState i [] []) _) as [st|] eqn:E; [|discriminate].
    intros [= <-]. exists [], [], st. simpl. rewrite Nat.add_0_r. auto.
  - destruct (rmatch ic r (MState i (x :: s) []) _) as [st|] eqn:E.
    + intros [= <-]. exists [], (x :: s), st. simpl. rewrite Nat.add_0_r. auto.
    + intros H. apply IH in H as (pre & s' & st & -> & H & ->).
      exists (x :: pre), s', st. simpl.
      replace (i + S (length pre)) with (S i + length pre) by lia. auto.
Qed.

Lemma exec_loop_inv (ic : bool) (r : regex) (m : match_result) :
  forall fuel i s,
    In m (exec_loop ic r fuel i s) ->
    exists pre s' j st,
      s = pre ++ s'
      /\ rmatch ic r (MState j s' []) (fun st => Some st) = Some st
      /\ m_caps m = caps st.
Proof.
  induction fuel as [|f IH]; intros i s; cbn [exec_loop]; [intros []|].
  destruct (exec_from ic r i s) as [m0|] eqn:E; [|intros []].
  intros [<- | H].
  - apply exec_from_inv in E as (pre & s' & st & -> & H & ->).
    exists pre, s', (i + length pre), st. auto.
  - apply IH in H as (pre & s' & j & st & E' & H & Hc).
    exists (firstn (m_end m0 - i) s ++ pre), s', j, st.
    split; [|auto]. rewrite <- app_assoc, <- E'. now rewrite firstn_skipn.
Qed.

Section Links.

Import SyncBookmarks.

(** Every url of [links] stands in the text after a "<" and before a ">"
    or a "|", starts with "http://" or "https://", and has at least one more
    code unit, none of them ">" or "|". *)
Lemma links_sound (text u : jsstring) :
  In u (links text) ->
  exists pre c post https x body,
    text = pre ++ lt :: u ++ c :: post
    /\ (c = gt \/ c = bar)
    /\ u = http_url https x body
    /\ forallb (notAmong (lit ">|")) (x :: body) = true.
Proof.
  unfold links. rewrite in_map_iff. intros (m & <- & Hm).
  unfold exec_all in Hm.
  apply exec_loop_inv in Hm as (pre & s' & j & st & -> & H & Hc).
  apply urlRegex_sound in H as (https & x & body & c & post & -> & Hb & Hcs & Hcap).
  exists pre, c, post, https, x, body.
  unfold group. rewrite Hc, Hcap. simpl. auto.
Qed.

End Links.

(** X1 -- Every url that the bookmark extractor returns is a bracketed
    link of one of the messages: in the text it stands after a "<" and before
    a ">" or a "|"; it starts with "http://" or "https://", goes on with at
    least one more code unit, and has no ">" and no "|" after the scheme; and
    it does not contain "slack.com".  Nothing else is ever a candidate. *)
Theorem X1_extracted_urls_are_bracketed_links :
  forall (messages : list Message) (u : jsstring),
    In u (SyncBookmarks.extractUrls messages) ->
    exists msg pre c post (https : bool) x body,
      In msg messages
      /\ or_empty (text msg) = pre ++ SyncBookmarks.lt :: u ++ c :: post
      /\ (c = SyncBookmarks.gt \/ c = SyncBookmarks.bar)
      /\ u = lit "http" ++ (if https then lit "s" else []) ++ lit "://" ++ x :: body
      /\ forallb (notAmong (lit ">|")) (x :: body) = true
      /\ includes u (lit "slack.com") = false.
Proof.
  intros messages u H. apply extractUrls_In in H as ((msg & Hmsg & Hu) & Hs).
  apply links_sound in Hu as (pre & c & post & https & x & body & E & Hc & Eu & Hb).
  exists msg, pre, c, post, https, x, body. auto 10.
Qed.

Lemma X1_extracted_urls_are_bracketed_links_witness :
  exists msg pre c post (https : bool) x body,
    In msg [Script.said "see <https://example.com/a|A> and <ftp://example.com/b>"]
    /\ or_empty (text msg)
       = pre ++ SyncBookmarks.lt :: lit "https://example.com/a" ++ c :: post
    /\ (c = SyncBookmarks.gt \/ c = SyncBookmarks.bar)
    /\ lit "https://example.com/a"
       = lit "http" ++ (if https then lit "s" else []) ++ lit "://" ++ x :: body
    /\ forallb (notAmong (lit ">|")) (x :: body) = true
    /\ includes (lit "https://example.com/a") (lit "slack.com") = false.
Proof.
  apply (X1_extracted_urls_are_bracketed_links
           [Script.said "see <https://example.com/a|A> and <ftp://example.com/b>"]
           (lit "https://example.com/a")).
  vm_compute. now left.
Defined.

(** ** The requests of a run of the bookmark script *)

Section BookmarkRequests.

Import SyncBookmarks Traced.

Variable World : Type.
Variable slack_history : World -> World * SlackReply.
Variable micropub : World -> list (jsstring * jsstring) -> World * PostReply.
Variable fs_write : World -> Write.

Abbreviation slack' := (slack_history' slack_history).
Abbreviation micropub' := (micropub' micropub).
Abbreviation write' := (fs_write' fs_write).

Lemma fetch_logged (w : World) (log : list Request) :
  fetchSlackMessages slack' (w, log)
  = let '(w1, res) := fetchSlackMessages slack_history w in
    ((w1, log ++ [GetSlackHistory]), res).
Proof.
  unfold fetchSlackMessages, slack_history', logging. cbn [fst snd].
  destruct (slack_history w) as [w1 [| |ok ms]]; try reflexivity.
  now destruct ok.
Qed.

Lemma create_logged (w : World) (log : list Request) (url : jsstring) :
  createMicroblogBookmark micropub' (w, log) url
  = let '(w1, res) := createMicroblogBookmark micropub w url in
    ((w1, log ++ [PostMicropub (bookmarkParams url)]), res).
Proof.
  unfold createMicroblogBookmark, Traced.micropub', logging. cbn [fst snd].
  destruct (micropub w (bookmarkParams url)) as [w1 [|ok body]]; try reflexivity.
  now destruct ok.
Qed.

Lemma publishAll_logged (urls : list jsstring) :
  forall (w : World) (log : list Request) (state : State) (synced : nat) (out : list Line),
    publishAll micropub' urls (w, log) state synced out
    = let '(w1, state1, synced1, out1) := publishAll micropub urls w state synced out in
      ((w1, log ++ map (fun url => PostMicropub (bookmarkParams url)) urls),
       state1, synced1, out1).
Proof.
  induction urls as [|u urls IH]; intros w log state synced out; cbn [publishAll map].
  - now rewrite app_nil_r.
  - rewrite create_logged.
    destruct (createMicroblogBookmark micropub w u) as [w1 [e|r]]; rewrite IH;
      destruct (publishAll micropub urls w1 _ _ _) as [[[w2 st2] n2] out2];
      now rewrite <- app_assoc.
Qed.

(** A run on the logged world is the run on the world, with its requests
    written down. *)
Lemma main_logged (env : Env) (now : jsstring) (w : World) (d : file State) :
  main slack' micropub' write' env now (w, []) d
  = let '(r, e) := main slack_history micropub fs_write env now w d in
    ({| world :=
          (world r,
           if configured env
           then GetSlackHistory
                  :: map (fun url => PostMicropub (bookmarkParams url))
                         (attempted (console r))
           else []);
        disk := disk r;
        console := console r |}, e).
Proof.
  unfold main, configured.
  destruct (truthy (SLACK_BOT_TOKEN env)); [|reflexivity].
  destruct (truthy (SLACK_CHANNEL_ID env)); [|reflexivity].
  destruct (truthy (MICROBLOG_TOKEN env)); [|reflexivity].
  cbn [negb orb andb]. rewrite fetch_logged.
  destruct (fetchSlackMessages slack_history w) as [w1 [e|messages]]; [reflexivity|].
  rewrite publishAll_logged.
  pose proof (publishAll_spec World micropub
                (filter (fun url => negb (arr_includes (syncedUrls (loadState d)) url))
                        (extractUrls messages))
                w1 (loadState d) 0 []) as S.
  destruct (publishAll micropub _ w1 (loadState d) 0 []) as [[[w2 st2] n2] out2].
  destruct S as (_ & _ & _ & S4 & _).
  unfold saveState, Traced.fs_write'. cbn [fst].
  destruct (fs_write w2); cbn [writeFileSync world disk console].
  - rewrite attempted_app, S4. cbn [attempted app]. now rewrite app_nil_r.
  - now rewrite S4.
  - now rewrite S4.
Qed.

End BookmarkRequests.

(** ** The requests of a run of the book script *)

Section BookRequests.

Import SyncBooks Traced.

Variable toLowerCase : jsstring -> jsstring.
Variable World : Type.
Variable slack_history : World -> World * SlackReply.
Variable openlibrary_search : World -> jsstring -> World * SearchReply.
Variable bookshelves : World -> World * ShelvesReply.
Variable books_post : World -> list (jsstring * jsstring) -> World * PostReply.
Variable fs_write : World -> Write.

Abbreviation slack' := (slack_history' slack_history).
Abbreviation search' := (openlibrary_search' openlibrary_search).
Abbreviation shelves' := (bookshelves' bookshelves).
Abbreviation post' := (books_post' books_post).
Abbreviation write' := (fs_write' fs_write).

Lemma book_fetch_logged (w : World) (log : list Request) :
  fetchSlackMessages slack' (w, log)
  = let '(w1, res) := fetchSlackMessages slack_history w in
    ((w1, log ++ [GetSlackHistory]), res).
Proof.
  unfold fetchSlackMessages, slack_history', logging. cbn [fst snd].
  destruct (slack_history w) as [w1 [| |ok ms]]; try reflexivity.
  now destruct ok.
Qed.

Lemma searchIsbn_logged (w : World) (log : list Request) (t : jsstring)
    (a : option jsstring) :
  searchIsbn search' (w, log) t a
  = let '(w1, found) := searchIsbn openlibrary_search w t a in
    ((w1, log ++ (if isWellFormed (t ++ lit " " ++ or_empty a)
                  then [GetOpenLibrary (t ++ lit " " ++ or_empty a)] else [])),
     found).
Proof.
  unfold searchIsbn, openlibrary_search', logging. cbn [fst snd].
  destruct (isWellFormed (t ++ lit " " ++ or_empty a)); cbn [negb].
  - destruct (openlibrary_search w _) as [w1 [|[[|volume volumes]|]]]; try reflexivity.
    destruct (doc_isbn volume) as [[|first more]|]; reflexivity.
  - now rewrite app_nil_r.
Qed.

(** What [searchIsbn] does, in terms of the endpoint: the search moves the
    world, and what is returned is the first ISBN of the first volume of the
    answer. *)
Lemma searchIsbn_answer (w : World) (t : jsstring) (a : option jsstring) :
  searchIsbn openlibrary_search w t a
  = let query := t ++ lit " " ++ or_empty a in
    let '(w1, answer) :=
      if isWellFormed query
      then let '(w1, reply) := openlibrary_search w query in (w1, Some reply)
      else (w, None) in
    (w1, firstIsbn answer).
Proof.
  unfold searchIsbn, firstIsbn. cbv zeta.
  destruct (isWellFormed (t ++ lit " " ++ or_empty a)); cbn [negb]; [|reflexivity].
  destruct (openlibrary_search w _) as [w1 [|[[|volume volumes]|]]]; try reflexivity.
  destruct (doc_isbn volume) as [[|first more]|]; reflexivity.
Qed.

Lemma addBook_world (w : World) (b : Book) (id : option jsstring) :
  fst (addBookToMicroblog books_post w b id) = fst (books_post w (bookParams b id)).
Proof.
  unfold addBookToMicroblog.
  destruct (books_post w _) as [w1 [|ok body]]; try reflexivity.
  destruct ok; [|reflexivity]. now destruct body.
Qed.

(** For every book of the loop there is an answer, or a note that there
    was no search. *)
Lemma answers_length (books : list Book) (id : option jsstring) (w : World) :
  length (answers openlibrary_search books_post id books w) = length books.
Proof.
  revert w; induction books as [|b books IH]; intros w; cbn [answers length];
    [reflexivity|].
  destruct (isWellFormed _); [destruct (openlibrary_search w _) as [w1 reply]|];
    destruct (books_post _ _) as [w2 res]; cbn [length]; now rewrite IH.
Qed.

Lemma addBook_logged (w : World) (log : list Request) (b : Book) (id : option jsstring) :
  addBookToMicroblog post' (w, log) b id
  = let '(w1, res) := addBookToMicroblog books_post w b id in
    ((w1, log ++ [PostBook (bookParams b id)]), res).
Proof.
  unfold addBookToMicroblog, books_post', logging. cbn [fst snd].
  destruct (books_post w _) as [w1 [|ok body]]; try reflexivity.
  destruct ok; [|reflexivity]. now destruct body.
Qed.

Lemma getBookshelves_logged (w : World) (log : list Request) :
  getBookshelves shelves' (w, log)
  = let '(w1, res) := getBookshelves bookshelves w in
    ((w1, log ++ [GetBookshelves]), res).
Proof.
  unfold getBookshelves, bookshelves', logging. cbn [fst snd].
  destruct (bookshelves w) as [w1 [|ok body]]; try reflexivity.
  destruct ok; [|reflexivity]. now destruct body.
Qed.

Lemma book_publishAll_logged (books : list Book) (id : option jsstring) :
  forall (w : World) (log : list Request) (state : State) (synced : nat) (out : list Line),
    publishAll toLowerCase search' post' books id (w, log) state synced out
    = let '(w1, state1, synced1, out1) :=
        publishAll toLowerCase openlibrary_search books_post books id w state synced out in
      ((w1, log ++ flat_map (requestsFor id)
                     (combine books (answers openlibrary_search books_post id books w))),
       state1, synced1, out1).
Proof.
  induction books as [|b books IH]; intros w log state synced out.
  - cbn. now rewrite app_nil_r.
  - cbn [publishAll answers]. rewrite searchIsbn_logged, searchIsbn_answer. cbv zeta.
    destruct (isWellFormed (title b ++ lit " " ++ or_empty (author b))) eqn:Hwf.
    + destruct (openlibrary_search w _) as [w1 reply]. rewrite addBook_logged.
      pose proof (addBook_world w1 {| title := title b; author := author b;
                                      isbn := firstIsbn (Some reply) |} id) as Hw.
      destruct (addBookToMicroblog books_post w1 _ id) as [w2 [e|r]];
        destruct (books_post w1 _) as [w2' res]; cbn [fst] in Hw; subst w2';
        rewrite IH;
        destruct (publishAll toLowerCase openlibrary_search books_post books id w2 _ _ _)
          as [[[w3 st3] n3] out3];
        cbn [combine flat_map]; unfold requestsFor; cbn [fst snd title author];
        rewrite Hwf; now rewrite <- !app_assoc.
    + rewrite addBook_logged.
      pose proof (addBook_world w {| title := title b; author := author b;
                                     isbn := firstIsbn None |} id) as Hw.
      destruct (addBookToMicroblog books_post w _ id) as [w2 [e|r]];
        destruct (books_post w _) as [w2' res]; cbn [fst] in Hw; subst w2';
        rewrite IH;
        destruct (publishAll toLowerCase openlibrary_search books_post books id w2 _ _ _)
          as [[[w3 st3] n3] out3];
        cbn [combine flat_map]; unfold requestsFor; cbn [fst snd title author];
        rewrite Hwf; now rewrite <- !app_assoc.
Qed.

(** The part of a run from [loadState] on, on the logged world. *)
Lemma sync_logged_rejected (id : option jsstring) (now : jsstring) (w w1 : World)
    (log : list Request) (d : file State) (e : unit) :
  fetchSlackMessages slack_history w = (w1, inl e) ->
  sync toLowerCase slack' search' post' write' id now (w, log) d
  = ({| world := (w1, log ++ [GetSlackHistory]); disk := d; console := [] |}, Rejected).
Proof.
  intros H. unfold sync. rewrite book_fetch_logged, H. reflexivity.
Qed.

Lemma sync_logged (id : option jsstring) (now : jsstring) (w w1 : World)
    (log : list Request) (d : file State) (messages : list Message) :
  fetchSlackMessages slack_history w = (w1, inr messages) ->
  let new := newBooksOf toLowerCase (loadState d) messages in
  sync toLowerCase slack' search' post' write' id now (w, log) d
  = let '(r, e) :=
      sync toLowerCase slack_history openlibrary_search books_post fs_write id now w d in
    ({| world :=
          (world r,
           log ++ GetSlackHistory
             :: flat_map (requestsFor id)
                  (combine new (answers openlibrary_search books_post id new w1)));
        disk := disk r; console := console r |}, e).
Proof.
  intros H new. unfold sync. rewrite book_fetch_logged, H.
  fold (newBooksOf toLowerCase (loadState d) messages). fold new.
  rewrite book_publishAll_logged.
  destruct (publishAll toLowerCase openlibrary_search books_post new id w1 _ 0 [])
    as [[[w2 st2] n2] out2].
  unfold saveState, Traced.fs_write'. cbn [fst].
  destruct (fs_write w2); cbn [writeFileSync world disk console];
    now rewrite <- app_assoc.
Qed.

End BookRequests.

(** ** More about runs *)

Lemma select_split_length {A} (f : list bool) (xs : list A) :
  length f = length xs ->
  length (select f xs) + length (select (map negb f) xs) = length xs.
Proof.
  revert xs; induction f as [|b f IH]; intros [|x xs] H; simpl in *;
    try reflexivity; try discriminate.
  injection H as H. specialize (IH xs H). destruct b; simpl; lia.
Qed.

Lemma no_post_app (a b : list Traced.Request) :
  forallb (fun q => negb (Traced.isPost q)) (a ++ b)
  = forallb (fun q => negb (Traced.isPost q)) a
    && forallb (fun q => negb (Traced.isPost q)) b.
Proof. apply forallb_app. Qed.

Lemma find_first {A} (p : A -> bool) (before : list A) (x : A) (rest : list A) :
  (forall y, In y before -> p y = false) -> p x = true ->
  find p (before ++ x :: rest) = Some x.
Proof.
  intros Hb Hx. induction before as [|y before IH]; simpl.
  - now rewrite Hx.
  - rewrite (Hb y (or_introl eq_refl)). apply IH. intros z Hz. apply Hb. now right.
Qed.

Lemma find_none {A} (p : A -> bool) (l : list A) :
  (forall y, In y l -> p y = false) -> find p l = None.
Proof.
  intros H. induction l as [|y l IH]; simpl; [reflexivity|].
  rewrite (H y (or_introl eq_refl)). apply IH. intros z Hz. apply H. now right.
Qed.

Lemma select_none {A} (f : list bool) (xs : list A) :
  (forall b, In b f -> b = false) -> select f xs = [].
Proof.
  revert xs; induction f as [|b f IH]; intros [|x xs] H; simpl; try reflexivity.
  rewrite (H b (or_introl eq_refl)). apply IH. intros c Hc. apply H. now right.
Qed.

Lemma select_all {A} (f : list bool) (xs : list A) :
  length f = length xs -> (forall b, In b f -> b = true) -> select f xs = xs.
Proof.
  revert xs; induction f as [|b f IH]; intros [|x xs] L H; simpl in *;
    try reflexivity; try discriminate.
  rewrite (H b (or_introl eq_refl)). f_equal. apply IH; [lia|].
  intros c Hc. apply H. now right.
Qed.

Section RunExtras.

Import Traced.

Variable toLowerCase : jsstring -> jsstring.
Variable World : Type.
Variable slack_history : World -> World * SlackReply.
Variable micropub : World -> list (jsstring * jsstring) -> World * PostReply.
Variable openlibrary_search : World -> jsstring -> World * SyncBooks.SearchReply.
Variable bookshelves : World -> World * SyncBooks.ShelvesReply.
Variable books_post : World -> list (jsstring * jsstring) -> World * PostReply.
Variable fs_write : World -> Write.

Abbreviation bookmark_main := (SyncBookmarks.main slack_history micropub fs_write).
Abbreviation book_main :=
  (SyncBooks.main toLowerCase slack_history openlibrary_search bookshelves books_post
     fs_write).
Abbreviation book_sync :=
  (SyncBooks.sync toLowerCase slack_history openlibrary_search books_post fs_write).

(** The same on the logged world. *)
Abbreviation logged_bookmark_main :=
  (SyncBookmarks.main (slack_history' slack_history) (micropub' micropub)
     (fs_write' fs_write)).
Abbreviation logged_book_main :=
  (SyncBooks.main toLowerCase (slack_history' slack_history)
     (openlibrary_search' openlibrary_search) (bookshelves' bookshelves)
     (books_post' books_post) (fs_write' fs_write)).
Abbreviation logged_book_sync :=
  (SyncBooks.sync toLowerCase (slack_history' slack_history)
     (openlibrary_search' openlibrary_search) (books_post' books_post)
     (fs_write' fs_write)).

(** X3 -- The requests of a run of the bookmark script.  Writing the
    requests down does not change the run.  With a required setting missing
    there is no request at all.  Otherwise there is one request for the
    channel history and then, if it returned, one POST to Micropub for each
    extracted url that is not in the loaded state, in the order of
    extraction, with the body h=entry, bookmark-of=url, whether or not the
    POSTs before it went through.  No url of the loaded state is posted. *)
Theorem X3_bookmark_run_requests :
  forall (env : SyncBookmarks.Env) (now : jsstring) (w : World)
         (d : file SyncBookmarks.State),
    let logged := logged_bookmark_main env now (w, []) d in
    let plain := bookmark_main env now w d in
    snd logged = snd plain
    /\ fst (SyncBookmarks.world (fst logged)) = SyncBookmarks.world (fst plain)
    /\ SyncBookmarks.disk (fst logged) = SyncBookmarks.disk (fst plain)
    /\ SyncBookmarks.console (fst logged) = SyncBookmarks.console (fst plain)
    /\ snd (SyncBookmarks.world (fst logged))
       = (if SyncBookmarks.configured env then
            GetSlackHistory
              :: match snd (SyncBookmarks.fetchSlackMessages slack_history w) with
                 | inr messages =>
                     map (fun url => PostMicropub (SyncBookmarks.bookmarkParams url))
                         (SyncBookmarks.newUrlsOf (SyncBookmarks.loadState d) messages)
                 | inl _ => []
                 end
          else [])
    /\ (forall url,
          In url (SyncBookmarks.syncedUrls (SyncBookmarks.loadState d)) ->
          ~ In (PostMicropub (SyncBookmarks.bookmarkParams url))
               (snd (SyncBookmarks.world (fst logged)))).
Proof.
  intros env now w d logged plain. subst logged plain.
  rewrite main_logged.
  destruct (SyncBookmarks.main slack_history micropub fs_write env now w d) as [r e] eqn:E.
  cbn [fst snd SyncBookmarks.world SyncBookmarks.disk SyncBookmarks.console].
  assert (L : (if SyncBookmarks.configured env
               then GetSlackHistory
                      :: map (fun url => PostMicropub (SyncBookmarks.bookmarkParams url))
                             (SyncBookmarks.attempted (SyncBookmarks.console r))
               else [])
              = (if SyncBookmarks.configured env then
                   GetSlackHistory
                     :: match snd (SyncBookmarks.fetchSlackMessages slack_history w) with
                        | inr messages =>
                            map (fun url => PostMicropub (SyncBookmarks.bookmarkParams url))
                                (SyncBookmarks.newUrlsOf (SyncBookmarks.loadState d) messages)
                        | inl _ => []
                        end
                 else [])).
  { destruct (SyncBookmarks.configured env) eqn:Hc; [|reflexivity].
    destruct (SyncBookmarks.fetchSlackMessages slack_history w) as [w1 [e1|messages]] eqn:F.
    - apply main_cases in E as [(_ & _ & Hcon) | (_ & _ & w2 & ms & F')].
      + now rewrite Hcon.
      + congruence.
    - destruct (main_attempts World slack_history micropub fs_write env now w w1 d messages
                  Hc F r e E) as [Hatt _].
      cbn [snd]. now rewrite Hatt. }
  repeat split; try exact L.
  rewrite L. intros url Hin Hpost.
  destruct (SyncBookmarks.configured env); [|exact Hpost].
  destruct Hpost as [Hpost | Hpost]; [discriminate|].
  destruct (snd (SyncBookmarks.fetchSlackMessages slack_history w)) as [e1|messages];
    [exact Hpost|].
  apply in_map_iff in Hpost as (u & Eu & Hu).
  injection Eu as ->. now apply newUrlsOf_fresh in Hu.
Qed.

(** X5 -- The count in the last line of a run ("Synced N new ...") is
    right: a run that resolves has rewritten the state file, with the time
    of the run as [lastSync] and with exactly N keys more than it loaded,
    and N is the number of candidates it announced less the number of
    failures it reported.  Bookmark script and book script. *)
Theorem X5_reported_count_is_the_number_of_new_keys :
  (forall env now w d r,
      bookmark_main env now w d = (r, Resolved) ->
      exists s out n,
        SyncBookmarks.disk r = Holds (Document s)
        /\ SyncBookmarks.lastSync s = Some now
        /\ SyncBookmarks.console r = out ++ [SyncBookmarks.SyncedCount n]
        /\ length (SyncBookmarks.syncedUrls s)
           = length (SyncBookmarks.syncedUrls (SyncBookmarks.loadState d)) + n
        /\ length (SyncBookmarks.attempted (SyncBookmarks.console r))
           = n + length (SyncBookmarks.failed (SyncBookmarks.console r)))
  /\ (forall env now w d r,
      book_main env now w d = (r, Resolved) ->
      exists s out n,
        SyncBooks.disk r = Holds (Document s)
        /\ SyncBooks.lastSync s = Some now
        /\ SyncBooks.console r = out ++ [SyncBooks.SyncedCount n]
        /\ length (SyncBooks.syncedBooks s)
           = length (SyncBooks.syncedBooks (SyncBooks.loadState d)) + n
        /\ length (SyncBooks.attempted (SyncBooks.console r))
           = n + length (SyncBooks.failed (SyncBooks.console r))).
Proof.
  split.
  - intros env now w d r E.
    destruct (main_cases World slack_history micropub fs_write env now w d r Resolved E)
      as [(H & _) | (_ & Hc & w1 & messages & Hf)]; [now elim H|].
    destruct (main_resolves World slack_history micropub fs_write env now w w1 d messages r
                Hc Hf E) as (_ & Hd & Ha & Hx & out & Ho).
    set (new := SyncBookmarks.newUrlsOf (SyncBookmarks.loadState d) messages) in *.
    pose proof (select_split_length (SyncBookmarks.outcomes micropub new w1) new
                  (outcomes_length World micropub new w1)) as L.
    eexists. exists out. eexists. split; [exact Hd|]. split; [reflexivity|].
    split; [exact Ho|]. cbn [SyncBookmarks.syncedUrls].
    rewrite length_app, Ha, Hx. split; lia.
  - intros env now w d r E.
    destruct (book_main_cases toLowerCase World slack_history openlibrary_search
                bookshelves books_post fs_write env now w d r Resolved E)
      as [(H & _) | (id & w0 & Es)]; [now elim H|].
    destruct (sync_cases toLowerCase World slack_history openlibrary_search books_post
                fs_write id now w0 d r Resolved Es)
      as [(H & _) | (_ & w1 & messages & Hf)]; [discriminate|].
    destruct (sync_resolves toLowerCase World slack_history openlibrary_search books_post
                fs_write id now w0 w1 d messages r Hf Es)
      as (_ & Hd & Ha & Hx & out & Ho).
    set (new := SyncBooks.newBooksOf toLowerCase (SyncBooks.loadState d) messages) in *.
    pose proof (select_split_length
                  (SyncBooks.outcomes openlibrary_search books_post new id w1) new
                  (book_outcomes_length World openlibrary_search books_post new id w1)) as L.
    eexists. exists out. eexists. split; [exact Hd|]. split; [reflexivity|].
    split; [exact Ho|]. cbn [SyncBooks.syncedBooks].
    rewrite length_app, Ha, Hx, !length_map. split; lia.
Qed.

(** A run of the book script on the logged world that does not resolve. *)
Lemma logged_book_sync_unresolved (id : option jsstring) (now : jsstring) (w : World)
    (log : list Request) (d : file SyncBooks.State) :
  forall r e,
    logged_book_sync id now (w, log) d = (r, e) -> e <> Resolved ->
    (SyncBooks.disk r = d /\ snd (SyncBooks.world r) = log ++ [GetSlackHistory])
    \/ (e = Rejected /\ fs_write (fst (SyncBooks.world r)) <> Written).
Proof.
  intros r e E Hne.
  destruct (SyncBooks.fetchSlackMessages slack_history w) as [w1 [e1|messages]] eqn:F.
  - rewrite (sync_logged_rejected toLowerCase World slack_history openlibrary_search
               books_post fs_write id now w w1 log d e1 F) in E.
    injection E as <- <-. left. split; reflexivity.
  - rewrite (sync_logged toLowerCase World slack_history openlibrary_search
               books_post fs_write id now w w1 log d messages F) in E.
    destruct (SyncBooks.sync toLowerCase slack_history openlibrary_search books_post
                fs_write id now w d) as [r0 e0] eqn:E0.
    injection E as <- <-. right. cbn [SyncBooks.world fst].
    exact (sync_rejects_at_write toLowerCase World slack_history openlibrary_search
             books_post fs_write id now w w1 d messages F r0 e0 E0 Hne).
Qed.

(** X4 -- A run that does not resolve (it exits with code 1, or its
    promise rejects) has made no POST and has left the state file as it was,
    unless what threw is the write of the state file at the end of the run:
    this is the only way in which a run does not resolve after its POSTs.
    Bookmark script and book script, the look-up of the bookshelf
    included. *)
Theorem X4_unresolved_runs :
  (forall env now w d r e,
      logged_bookmark_main env now (w, []) d = (r, e) ->
      e <> Resolved ->
      (SyncBookmarks.disk r = d
       /\ forallb (fun q => negb (isPost q)) (snd (SyncBookmarks.world r)) = true)
      \/ (e = Rejected /\ fs_write (fst (SyncBookmarks.world r)) <> Written))
  /\ (forall env now w d r e,
      logged_book_main env now (w, []) d = (r, e) ->
      e <> Resolved ->
      (SyncBooks.disk r = d
       /\ forallb (fun q => negb (isPost q)) (snd (SyncBooks.world r)) = true)
      \/ (e = Rejected /\ fs_write (fst (SyncBooks.world r)) <> Written)).
Proof.
  split.
  - intros env now w d r e E Hne. rewrite main_logged in E.
    destruct (SyncBookmarks.main slack_history micropub fs_write env now w d)
      as [r0 e0] eqn:E0.
    injection E as <- <-. cbn [SyncBookmarks.disk SyncBookmarks.world fst snd].
    destruct (main_cases World slack_history micropub fs_write env now w d r0 e0 E0)
      as [(_ & Hd & Hcon) | (_ & Hc & w1 & messages & Hf)].
    + left. split; [exact Hd|].
      rewrite Hcon. now destruct (SyncBookmarks.configured env).
    + right.
      exact (main_rejects_at_write World slack_history micropub fs_write env now w w1 d
               messages Hc Hf r0 e0 E0 Hne).
  - intros env now w d r e E Hne. unfold SyncBooks.main in E.
    destruct (negb (truthy (SyncBooks.SLACK_BOT_TOKEN env))
              || negb (truthy (SyncBooks.SLACK_READING_CHANNEL_ID env)));
      [injection E as <- <-; left; split; reflexivity|].
    destruct (negb (truthy (SyncBooks.MICROBLOG_TOKEN env)));
      [injection E as <- <-; left; split; reflexivity|].
    destruct (negb (truthy (SyncBooks.MICROBLOG_BOOKSHELF_ID env))).
    + rewrite getBookshelves_logged in E.
      destruct (SyncBooks.getBookshelves bookshelves w) as [w0 [e0|shelves]];
        [injection E as <- <-; left; split; reflexivity|].
      destruct (SyncBooks.findCurrentlyReading toLowerCase _) as [s|];
        [|injection E as <- <-; left; split; reflexivity].
      apply logged_book_sync_unresolved in E as [[Hd Hl] | Hw]; [| |exact Hne].
      * left. split; [exact Hd|]. now rewrite Hl.
      * now right.
    + apply logged_book_sync_unresolved in E as [[Hd Hl] | Hw]; [| |exact Hne].
      * left. split; [exact Hd|]. now rewrite Hl.
      * now right.
Qed.

(** X9 -- The requests of the book script from [loadState] on, when the
    channel history is fetched: after the request for the history come, for
    each extracted book whose key is not in the loaded state and in the order
    of extraction, one search at Open Library for "title author" ("title "
    when there is no author) and then one POST of the book; the POST has, as
    isbn, the first ISBN of the first volume of what Open Library answered
    to that search, and no isbn when the answer has none.  On a query with a
    lone surrogate [encodeURIComponent] throws: there is no search for that
    book, and its POST has no isbn.  Every new book is posted, whatever the
    searches and the POSTs before it gave and whatever becomes of the write
    of the state file.  Writing the requests down does not change the run. *)
Theorem X9_book_run_requests :
  forall (id : option jsstring) (now : jsstring) (w w1 : World)
         (d : file SyncBooks.State) (messages : list Message),
    SyncBooks.fetchSlackMessages slack_history w = (w1, inr messages) ->
    let new := SyncBooks.newBooksOf toLowerCase (SyncBooks.loadState d) messages in
    let answered := answers openlibrary_search books_post id new w1 in
    let logged := logged_book_sync id now (w, []) d in
    let plain := book_sync id now w d in
    snd logged = snd plain
    /\ fst (SyncBooks.world (fst logged)) = SyncBooks.world (fst plain)
    /\ SyncBooks.disk (fst logged) = SyncBooks.disk (fst plain)
    /\ SyncBooks.console (fst logged) = SyncBooks.console (fst plain)
    /\ length answered = length new
    /\ snd (SyncBooks.world (fst logged))
       = GetSlackHistory :: flat_map (requestsFor id) (combine new answered).
Proof.
  intros id now w w1 d messages F new answered logged plain. subst logged plain.
  rewrite (sync_logged toLowerCase World slack_history openlibrary_search
             books_post fs_write id now w w1 [] d messages F).
  destruct (SyncBooks.sync toLowerCase slack_history openlibrary_search books_post
              fs_write id now w d) as [r e].
  cbn [fst snd SyncBooks.world SyncBooks.disk SyncBooks.console app].
  repeat split. apply answers_length.
Qed.

(** Every POST of the book script names the bookshelf. *)
Lemma logged_book_sync_shelf (id : option jsstring) (now : jsstring) (w : World)
    (log : list Request) (d : file SyncBooks.State) (body : list (jsstring * jsstring)) :
  In (PostBook body) (snd (SyncBooks.world (fst (logged_book_sync id now (w, log) d)))) ->
  In (PostBook body) log \/ In (lit "bookshelf_id", SyncBooks.showId id) body.
Proof.
  destruct (SyncBooks.fetchSlackMessages slack_history w) as [w1 [e1|messages]] eqn:F.
  - rewrite (sync_logged_rejected toLowerCase World slack_history openlibrary_search
               books_post fs_write id now w w1 log d e1 F).
    cbn [fst snd SyncBooks.world]. rewrite in_app_iff.
    intros [H | [H | []]]; [now left | discriminate].
  - rewrite (sync_logged toLowerCase World slack_history openlibrary_search
               books_post fs_write id now w w1 log d messages F).
    destruct (SyncBooks.sync toLowerCase slack_history openlibrary_search books_post
                fs_write id now w d) as [r e].
    cbn [fst snd SyncBooks.world]. rewrite in_app_iff.
    intros [H | [H | H]]; [now left | discriminate |].
    right. apply in_flat_map in H as (b & _ & Hb).
    unfold requestsFor in Hb. apply in_app_or in Hb as [Hb | [Hb | []]].
    + destruct (isWellFormed _); [destruct Hb as [Hb | []]; discriminate | destruct Hb].
    + injection Hb as <-. unfold SyncBooks.bookParams. cbn [app].
      right. right. now left.
Qed.

(** X10 -- The look-up of the bookshelf, when the required settings are
    there and MICROBLOG_BOOKSHELF_ID is not.  The first request of the run
    asks for the bookshelves.  If it fails, the promise rejects; if no shelf
    has "currently reading" in its lower-cased title, the process exits with
    code 1; in both cases it is the only request, and the state file is as
    it was.  Otherwise the run goes on, from [loadState], with the first such
    shelf, and every POST of the run carries the id of that shelf as
    bookshelf_id ("undefined" if the shelf has no id).  Every shelf of the
    answer is taken to have a title. *)
Theorem X10_bookshelf_lookup :
  forall (env : SyncBooks.Env) (now : jsstring) (w w1 : World) (d : file SyncBooks.State)
         (res : unit + option (list SyncBooks.Shelf)),
    truthy (SyncBooks.SLACK_BOT_TOKEN env) = true ->
    truthy (SyncBooks.SLACK_READING_CHANNEL_ID env) = true ->
    truthy (SyncBooks.MICROBLOG_TOKEN env) = true ->
    truthy (SyncBooks.MICROBLOG_BOOKSHELF_ID env) = false ->
    SyncBooks.getBookshelves bookshelves w = (w1, res) ->
    let named (s : SyncBooks.Shelf) :=
      includes (toLowerCase (SyncBooks.shelf_title s)) (lit "currently reading") in
    let items := match res with inr (Some l) => l | _ => [] end in
    let logged := logged_book_main env now (w, []) d in
    (forall e, res = inl e ->
       logged = ({| SyncBooks.world := (w1, [GetBookshelves]); SyncBooks.disk := d;
                    SyncBooks.console := [] |}, Rejected))
    /\ (forall shelves, res = inr shelves ->
        (forall s, In s items -> named s = false) ->
        logged = ({| SyncBooks.world := (w1, [GetBookshelves]); SyncBooks.disk := d;
                     SyncBooks.console := [] |}, Exited 1))
    /\ (forall shelves before s rest, res = inr shelves ->
        items = before ++ s :: rest ->
        (forall s', In s' before -> named s' = false) ->
        named s = true ->
        logged = logged_book_sync (SyncBooks.shelf_id s) now (w1, [GetBookshelves]) d
        /\ forall body,
             In (PostBook body) (snd (SyncBooks.world (fst logged))) ->
             In (lit "bookshelf_id", SyncBooks.showId (SyncBooks.shelf_id s)) body).
Proof.
  intros env now w w1 d res H1 H2 H3 H4 Hs named items logged.
  assert (E : logged
              = match res with
                | inl _ => ({| SyncBooks.world := (w1, [GetBookshelves]);
                               SyncBooks.disk := d; SyncBooks.console := [] |}, Rejected)
                | inr shelves =>
                    match SyncBooks.findCurrentlyReading toLowerCase
                            (match shelves with Some l => l | None => [] end) with
                    | Some s =>
                        logged_book_sync (SyncBooks.shelf_id s) now (w1, [GetBookshelves]) d
                    | None => ({| SyncBooks.world := (w1, [GetBookshelves]);
                                  SyncBooks.disk := d; SyncBooks.console := [] |}, Exited 1)
                    end
                end).
  { subst logged. unfold SyncBooks.main. rewrite H1, H2, H3, H4. cbn [negb orb].
    rewrite getBookshelves_logged, Hs. cbn [app]. destruct res as [e|shelves]; reflexivity. }
  clearbody logged. subst named items. cbn beta. split; [|split].
  - intros e ->. exact E.
  - intros shelves -> Hnone. rewrite E. unfold SyncBooks.findCurrentlyReading.
    destruct shelves as [l|]; [|reflexivity].
    now rewrite (find_none _ l Hnone).
  - intros shelves before s rest -> Ei Hb Hn.
    assert (E' : logged
                 = logged_book_sync (SyncBooks.shelf_id s) now (w1, [GetBookshelves]) d).
    { rewrite E. unfold SyncBooks.findCurrentlyReading.
      destruct shelves as [l|]; [|now destruct before].
      rewrite Ei. now rewrite (find_first _ before s rest Hb Hn). }
    split; [exact E'|]. intros body Hin. rewrite E' in Hin.
    apply logged_book_sync_shelf in Hin as [[Hin | []] | Hin]; [discriminate | exact Hin].
Qed.

(** The urls that a run adds are bracketed links with an http(s) url. *)
Lemma newUrlsOf_http (state : SyncBookmarks.State) (messages : list Message) (u : jsstring) :
  In u (SyncBookmarks.newUrlsOf state messages) ->
  startsWith (lit "http://") u || startsWith (lit "https://") u = true
  /\ includes u (lit "slack.com") = false.
Proof.
  intros H. apply filter_In in H as [H _].
  apply extractUrls_In in H as ((msg & _ & Hu) & Hs). split; [|exact Hs].
  apply links_sound in Hu as (pre & c & post & https & x & body & _ & _ & -> & _).
  now destruct https.
Qed.

(** X6 -- The keys of a state file stay distinct.  In every state file
    that the bookmark script produces, starting without a file and through
    any number of runs, whatever the settings, the times and the answers of
    Slack and Micro.blog, and whatever becomes of the writes, the synced urls
    are pairwise distinct, each of them starts with "http://" or "https://",
    and none contains "slack.com"; in every state file that the book script
    produces, the synced keys are pairwise distinct. *)
Theorem X6_state_files_hold_distinct_keys :
  (forall d : file SyncBookmarks.State,
      bookmark_state_file slack_history micropub fs_write d ->
      NoDup (SyncBookmarks.syncedUrls (SyncBookmarks.loadState d))
      /\ forall u, In u (SyncBookmarks.syncedUrls (SyncBookmarks.loadState d)) ->
           startsWith (lit "http://") u || startsWith (lit "https://") u = true
           /\ includes u (lit "slack.com") = false)
  /\ (forall d : file SyncBooks.State,
      book_state_file toLowerCase slack_history openlibrary_search bookshelves books_post
        fs_write d ->
      NoDup (SyncBooks.syncedBooks (SyncBooks.loadState d))).
Proof.
  split.
  - induction 1 as [|env now w d Hd [IH1 IH2]].
    + split; [constructor | intros u []].
    + destruct (bookmark_main env now w d) as [r e] eqn:E. cbn [fst].
      destruct (main_disk World slack_history micropub fs_write env now w d r e E)
        as [-> | [-> | (w1 & messages & Hf & ->)]];
        [now split | split; [constructor | intros u []] |].
      rewrite bookmark_load_saved. cbn [SyncBookmarks.syncedUrls].
      set (new := SyncBookmarks.newUrlsOf (SyncBookmarks.loadState d) messages) in *.
      set (f := SyncBookmarks.outcomes micropub new w1).
      split.
      * apply NoDup_app; [exact IH1 | |].
        -- rewrite <- (map_id (select f new)). apply NoDup_keys_select.
           rewrite map_id. apply newUrlsOf_NoDup.
        -- intros u Hu Hsel. apply select_In in Hsel.
           now apply newUrlsOf_fresh in Hsel.
      * intros u Hu. apply in_app_or in Hu as [Hu | Hu]; [now apply IH2|].
        apply select_In in Hu. now apply newUrlsOf_http in Hu.
  - induction 1 as [|env now w d Hd IH].
    + constructor.
    + destruct (book_main env now w d) as [r e] eqn:E. cbn [fst].
      destruct (book_main_cases toLowerCase World slack_history openlibrary_search
                  bookshelves books_post fs_write env now w d r e E)
        as [(_ & -> & _) | (id & w0 & Es)]; [exact IH|].
      destruct (sync_disk toLowerCase World slack_history openlibrary_search books_post
                  fs_write id now w0 d r e Es)
        as [-> | [-> | (w1 & messages & Hf & ->)]]; [exact IH | constructor |].
      rewrite book_load_saved. cbn [SyncBooks.syncedBooks].
      set (new := SyncBooks.newBooksOf toLowerCase (SyncBooks.loadState d) messages) in *.
      set (f := SyncBooks.outcomes openlibrary_search books_post new id w1).
      apply NoDup_app; [exact IH | |].
      * apply NoDup_keys_select. apply newBooksOf_keys_NoDup.
      * intros k Hk Hsel. apply in_map_iff in Hsel as (b & <- & Hb).
        apply select_In in Hb. now apply newBooksOf_fresh in Hb.
Qed.

(** X14 -- An accepted POST whose answer has no JSON body.  Let
    Micro.blog accept every POST (the response is ok) and answer none with a
    body that parses as JSON, and let the run resolve.  The bookmark script
    does not read the body: the run has recorded every new url.  The book
    script returns [response.json()], which rejects: the run has reported
    every new book as failed and recorded none of them, and the next run on
    the same messages finds all of them new again -- and would post them a
    second time. *)
Theorem X14_accepted_posts_without_json :
  (forall env now w d w1 messages r,
      (forall w0 body, snd (micropub w0 body) = PostResponse true false) ->
      SyncBookmarks.configured env = true ->
      SyncBookmarks.fetchSlackMessages slack_history w = (w1, inr messages) ->
      bookmark_main env now w d = (r, Resolved) ->
      let new := SyncBookmarks.newUrlsOf (SyncBookmarks.loadState d) messages in
      SyncBookmarks.disk r = Holds (Document
        {| SyncBookmarks.syncedUrls :=
             SyncBookmarks.syncedUrls (SyncBookmarks.loadState d) ++ new;
           SyncBookmarks.lastSync := Some now |})
      /\ SyncBookmarks.attempted (SyncBookmarks.console r) = new
      /\ SyncBookmarks.failed (SyncBookmarks.console r) = [])
  /\ (forall id now w d w1 messages r,
      (forall w0 body, snd (books_post w0 body) = PostResponse true false) ->
      SyncBooks.fetchSlackMessages slack_history w = (w1, inr messages) ->
      book_sync id now w d = (r, Resolved) ->
      let new := SyncBooks.newBooksOf toLowerCase (SyncBooks.loadState d) messages in
      SyncBooks.disk r = Holds (Document
        {| SyncBooks.syncedBooks := SyncBooks.syncedBooks (SyncBooks.loadState d);
           SyncBooks.lastSync := Some now |})
      /\ SyncBooks.attempted (SyncBooks.console r) = map SyncBooks.title new
      /\ SyncBooks.failed (SyncBooks.console r) = map SyncBooks.title new
      /\ SyncBooks.newBooksOf toLowerCase (SyncBooks.loadState (SyncBooks.disk r))
           messages = new).
Proof.
  split.
  - intros env now w d w1 messages r Hp Hc Hf E new.
    destruct (main_resolves World slack_history micropub fs_write env now w w1 d messages r
                Hc Hf E) as (_ & Hd & Ha & Hx & _).
    fold new in Hd, Ha, Hx.
    assert (Ho : forall urls w0 b, In b (SyncBookmarks.outcomes micropub urls w0) -> b = true).
    { induction urls as [|u urls IH]; intros w0 b; simpl; [intros []|].
      unfold SyncBookmarks.createMicroblogBookmark.
      pose proof (Hp w0 (SyncBookmarks.bookmarkParams u)) as P.
      destruct (micropub w0 (SyncBookmarks.bookmarkParams u)) as [w2 reply].
      simpl in P. subst reply. simpl. intros [<- | H]; [reflexivity|]. eapply IH, H. }
    rewrite (select_all _ new (outcomes_length World micropub new w1) (Ho new w1)) in Hd.
    split; [exact Hd|]. split; [exact Ha|]. rewrite Hx. apply select_none.
    intros b Hb. apply in_map_iff in Hb as (c & <- & Hc').
    now rewrite (Ho new w1 c Hc').
  - intros id now w d w1 messages r Hp Hf E new.
    destruct (sync_resolves toLowerCase World slack_history openlibrary_search books_post
                fs_write id now w w1 d messages r Hf E) as (_ & Hd & Ha & Hx & _).
    fold new in Hd, Ha, Hx.
    assert (Ho : forall books w0 b,
               In b (SyncBooks.outcomes openlibrary_search books_post books id w0) ->
               b = false).
    { induction books as [|bk books IH]; intros w0 b; simpl; [intros []|].
      destruct (SyncBooks.searchIsbn openlibrary_search w0 _ _) as [w2 found].
      unfold SyncBooks.addBookToMicroblog.
      match goal with |- context [books_post w2 ?body] =>
        pose proof (Hp w2 body) as P; destruct (books_post w2 body) as [w3 reply] end.
      simpl in P. subst reply. simpl. intros [<- | H]; [reflexivity|]. eapply IH, H. }
    rewrite (select_none _ new (Ho new w1)) in Hd. simpl in Hd. rewrite app_nil_r in Hd.
    split; [exact Hd|]. split; [exact Ha|].
    assert (Hall : select (map negb (SyncBooks.outcomes openlibrary_search books_post
                                       new id w1)) new = new).
    { apply select_all.
      - rewrite length_map. apply book_outcomes_length.
      - intros b Hb. apply in_map_iff in Hb as (c & <- & Hc').
        now rewrite (Ho new w1 c Hc'). }
    rewrite Hall in Hx. split; [exact Hx|].
    rewrite Hd, book_load_saved. reflexivity.
Qed.

End RunExtras.

(** ** [trim] *)

Lemma trimStart_decomp (s : jsstring) :
  exists w, s = w ++ trimStart s /\ forallb isSpace w = true.
Proof.
  induction s as [|c s (w & E & Hw)]; simpl.
  - now exists [].
  - destruct (isSpace c) eqn:Hc.
    + exists (c :: w). simpl. rewrite Hc, Hw. split; [now f_equal | reflexivity].
    + now exists [].
Qed.

Lemma trimStart_head (s : jsstring) (c : cu) (s' : jsstring) :
  trimStart s = c :: s' -> isSpace c = false.
Proof.
  induction s as [|x s IH]; simpl; [discriminate|].
  destruct (isSpace x) eqn:Hx; [exact IH|]. intros [= <- _]. exact Hx.
Qed.

Lemma trimStart_fixed (c : cu) (s : jsstring) :
  isSpace c = false -> trimStart (c :: s) = c :: s.
Proof. intros H. simpl. now rewrite H. Qed.

Lemma forallb_rev {A} (p : A -> bool) (l : list A) : forallb p (rev l) = forallb p l.
Proof.
  induction l as [|x l IH]; simpl; [reflexivity|].
  rewrite forallb_app, IH. simpl. rewrite andb_true_r. apply andb_comm.
Qed.

Lemma trimEnd_decomp (s : jsstring) :
  exists w, s = trimEnd s ++ w /\ forallb isSpace w = true.
Proof.
  destruct (trimStart_decomp (rev s)) as (w & E & Hw).
  exists (rev w). split; [|now rewrite forallb_rev].
  unfold trimEnd. rewrite <- rev_app_distr, <- E. now rewrite rev_involutive.
Qed.

Lemma trimEnd_last (s s' : jsstring) (c : cu) :
  trimEnd s = s' ++ [c] -> isSpace c = false.
Proof.
  unfold trimEnd. intros H. apply (f_equal (@rev cu)) in H.
  rewrite rev_involutive, rev_app_distr in H. simpl in H.
  eapply trimStart_head. exact H.
Qed.

Lemma trimEnd_fixed (s : jsstring) (c : cu) :
  isSpace c = false -> trimEnd (s ++ [c]) = s ++ [c].
Proof.
  intros H. unfold trimEnd. rewrite rev_app_distr. simpl. rewrite H. simpl.
  now rewrite rev_involutive.
Qed.

(** [trim] cuts white space off at both ends. *)
Lemma trim_decomp (s : jsstring) :
  exists w1 w2,
    s = w1 ++ trim s ++ w2 /\ forallb isSpace w1 = true /\ forallb isSpace w2 = true.
Proof.
  destruct (trimStart_decomp s) as (w1 & E1 & H1).
  destruct (trimEnd_decomp (trimStart s)) as (w2 & E2 & H2).
  exists w1, w2. unfold trim. rewrite <- E2. auto.
Qed.

Lemma trim_last (s s' : jsstring) (c : cu) : trim s = s' ++ [c] -> isSpace c = false.
Proof. unfold trim. apply trimEnd_last. Qed.

Lemma trim_head (s : jsstring) (c : cu) (s' : jsstring) :
  trim s = c :: s' -> isSpace c = false.
Proof.
  unfold trim. intros H.
  destruct (trimEnd_decomp (trimStart s)) as (w & E & _). rewrite H in E.
  simpl in E. eapply trimStart_head. exact E.
Qed.

(** A text that neither begins nor ends with white space is left as it is. *)
Lemma trim_fixed (c : cu) (s : jsstring) (l : cu) :
  isSpace c = false -> isSpace l = false ->
  forall s', c :: s = s' ++ [l] -> trim (c :: s) = c :: s.
Proof.
  intros Hc Hl s' E. unfold trim. rewrite trimStart_fixed by exact Hc.
  rewrite E. now apply trimEnd_fixed.
Qed.

Lemma trim_idem (s : jsstring) : trim (trim s) = trim s.
Proof.
  destruct (trim s) as [|c t] eqn:E; [reflexivity|].
  destruct (exists_last (l := c :: t)) as (t' & l & E'); [discriminate|].
  apply (trim_fixed c t l) with (s' := t').
  - eapply trim_head. exact E.
  - eapply trim_last. rewrite E. exact E'.
  - exact E'.
Qed.

Lemma trim_nonempty (s : jsstring) (c : cu) :
  In c s -> isSpace c = false -> trim s <> [].
Proof.
  intros Hin Hc E. destruct (trim_decomp s) as (w1 & w2 & Es & H1 & H2).
  rewrite E in Es. simpl in Es. rewrite Es in Hin.
  apply in_app_or in Hin as [Hin | Hin].
  - rewrite forallb_forall in H1. rewrite (H1 c Hin) in Hc. discriminate.
  - rewrite forallb_forall in H2. rewrite (H2 c Hin) in Hc. discriminate.
Qed.

Lemma trim_forallb (p : cu -> bool) (s : jsstring) :
  forallb p s = true -> forallb p (trim s) = true.
Proof.
  intros H. destruct (trim_decomp s) as (w1 & w2 & Es & _).
  rewrite Es, !forallb_app in H.
  apply andb_true_iff in H as [_ H]. now apply andb_true_iff in H as [H _].
Qed.

(** ** What the parser returns *)

Section Parsed.

Import SyncBooks.

Lemma cleanText_trimmed (text : jsstring) : trim (cleanText text) = cleanText text.
Proof. unfold cleanText. apply trim_idem. Qed.

(** X7 -- Whatever the text, a book that [parseBookFromMessage] returns
    has a title that is not empty and has no white space at either end, and
    no ISBN yet.  If it has an author, the author is not empty and has no
    white space at either end, and neither title nor author contains a line
    terminator.  If it has none, the title is the whole cleaned text, and is
    shorter than 200 code units; a title that comes with an author can be of
    any length.  A text of which nothing is left after the prefixes and the
    white space around are taken off gives no book. *)
Theorem X7_parsed_books_are_trimmed :
  forall text : jsstring,
    (cleanText text = [] -> parseBookFromMessage text = None)
    /\ forall b : Book,
         parseBookFromMessage text = Some b ->
         title b <> [] /\ trim (title b) = title b /\ isbn b = None
         /\ match author b with
            | Some a =>
                a <> [] /\ trim a = a
                /\ forallb notLT (title b) = true /\ forallb notLT a = true
            | None => title b = cleanText text /\ length (title b) < 200
            end.
Proof.
  intros text. split.
  - intros E. unfold parseBookFromMessage. rewrite E. reflexivity.
  - intros b. unfold parseBookFromMessage.
    destruct (exec true byRegex (cleanText text)) as [m|] eqn:E.
    + apply by_exec_sound in E as (t & a & Hs & G1 & G2 & _).
      rewrite G1, G2. cbn [or_empty]. intros [= <-]. cbn [title author isbn].
      destruct Hs as (w1 & x & y & w2 & Ec & Ht & Lt & _ & _ & _ & _ & _ & Ha & La).
      assert (Hhead : trim t <> []).
      { destruct t as [|c t]; [congruence|].
        apply (trim_nonempty _ c); [now left|].
        apply (trim_head (cleanText text) c (t ++ w1 ++ [x; y] ++ w2 ++ a)).
        rewrite cleanText_trimmed. exact Ec. }
      assert (Hlast : trim a <> []).
      { destruct (exists_last Ha) as (a' & l & ->).
        apply (trim_nonempty _ l); [apply in_or_app; right; now left|].
        apply (trim_last (cleanText text) (t ++ w1 ++ [x; y] ++ w2 ++ a') l).
        rewrite cleanText_trimmed, Ec. now rewrite <- !app_assoc. }
      repeat split; try assumption; try apply trim_idem; now apply trim_forallb.
    + destruct (Nat.ltb 0 (length (cleanText text))) eqn:L0; [|discriminate].
      destruct (Nat.ltb (length (cleanText text)) 200) eqn:L1; [|discriminate].
      cbn [andb]. intros [= <-]. cbn [title author isbn].
      apply Nat.ltb_lt in L0, L1. repeat split.
      * intros Hn. rewrite Hn in L0. simpl in L0. lia.
      * apply cleanText_trimmed.
      * exact L1.
Qed.

Lemma X7_parsed_books_are_trimmed_witness :
  parseBookFromMessage (book_emoji ++ lit "  reading:  ") = None
  /\ (lit "Dune" <> [] /\ trim (lit "Dune") = lit "Dune" /\ @None jsstring = None
      /\ (lit "Frank Herbert" <> [] /\ trim (lit "Frank Herbert") = lit "Frank Herbert"
          /\ forallb notLT (lit "Dune") = true
          /\ forallb notLT (lit "Frank Herbert") = true)).
Proof.
  split.
  - apply (proj1 (X7_parsed_books_are_trimmed (book_emoji ++ lit "  reading:  "))).
    reflexivity.
  - apply (proj2 (X7_parsed_books_are_trimmed (lit "reading:  Dune   BY  Frank Herbert  "))
             {| title := lit "Dune"; author := Some (lit "Frank Herbert"); isbn := None |}).
    vm_compute. reflexivity.
Defined.

End Parsed.

(** ** Links and books *)

Lemma startsWith_app (p s : jsstring) : startsWith p (p ++ s) = true.
Proof.
  induction p as [|c p IH]; simpl; [reflexivity|].
  unfold cu_eqb. now rewrite N.eqb_refl.
Qed.

Lemma includes_unfold (s p : jsstring) :
  includes s p
  = startsWith p s || match s with [] => false | _ :: s' => includes s' p end.
Proof. destruct s; reflexivity. Qed.

Lemma includes_mid (pre p post : jsstring) : includes (pre ++ p ++ post) p = true.
Proof.
  induction pre as [|c pre IH].
  - cbn [app]. now rewrite includes_unfold, startsWith_app.
  - cbn [app]. rewrite includes_unfold, IH. apply orb_true_r.
Qed.

(** A text with a bracketed link has "http://" or "https://" in it. *)
Lemma links_http (text u : jsstring) :
  In u (SyncBookmarks.links text) ->
  includes text (lit "http://") || includes text (lit "https://") = true.
Proof.
  intros H.
  apply links_sound in H as (pre & c & post & https & x & body & -> & _ & -> & _).
  unfold http_url. destruct https.
  - replace (pre ++ SyncBookmarks.lt
               :: (lit "http" ++ lit "s" ++ lit "://" ++ x :: body) ++ c :: post)
      with ((pre ++ [SyncBookmarks.lt]) ++ lit "https://" ++ (x :: body) ++ c :: post)
      by (rewrite <- !app_assoc; reflexivity).
    rewrite (includes_mid _ (lit "https://")). apply orb_true_r.
  - replace (pre ++ SyncBookmarks.lt
               :: (lit "http" ++ [] ++ lit "://" ++ x :: body) ++ c :: post)
      with ((pre ++ [SyncBookmarks.lt]) ++ lit "http://" ++ (x :: body) ++ c :: post)
      by (rewrite <- !app_assoc; reflexivity).
    now rewrite (includes_mid _ (lit "http://")).
Qed.

(** X8 -- The two sync scripts never take the same message: a message in
    whose text the bookmark script finds a bracketed link (whether or not it
    keeps the url) yields no book in the book script; the books extracted
    are those of the other messages. *)
Theorem X8_a_message_with_a_link_is_no_book :
  forall (toLowerCase : jsstring -> jsstring) (ms1 : list Message) (m : Message)
         (ms2 : list Message) (u : jsstring),
    In u (SyncBookmarks.links (or_empty (text m))) ->
    SyncBooks.extractBooks toLowerCase [m] = []
    /\ SyncBooks.extractBooks toLowerCase (ms1 ++ m :: ms2)
       = SyncBooks.extractBooks toLowerCase (ms1 ++ ms2).
Proof.
  intros toLowerCase ms1 m ms2 u H. apply links_http in H.
  assert (E : SyncBooks.parsedBooks [m] = []).
  { unfold SyncBooks.parsedBooks, SyncBooks.eligible. simpl. now rewrite H. }
  split.
  - rewrite extractBooks_spec, E. reflexivity.
  - rewrite !extractBooks_spec. f_equal.
    change (m :: ms2) with ([m] ++ ms2). rewrite !parsedBooks_app. now rewrite E.
Qed.

Lemma X8_a_message_with_a_link_is_no_book_witness :
  SyncBooks.extractBooks Script.toLowerCase
    [Script.said "Dune by Frank Herbert <https://example.com/dune|review>"] = []
  /\ SyncBooks.extractBooks Script.toLowerCase
       ([Script.said "Emma by Jane Austen"]
          ++ Script.said "Dune by Frank Herbert <https://example.com/dune|review>"
          :: [Script.said "Breakneck by Dan Wang"])
     = SyncBooks.extractBooks Script.toLowerCase
         ([Script.said "Emma by Jane Austen"] ++ [Script.said "Breakneck by Dan Wang"]).
Proof.
  apply (X8_a_message_with_a_link_is_no_book Script.toLowerCase
           [Script.said "Emma by Jane Austen"]
           (Script.said "Dune by Frank Herbert <https://example.com/dune|review>")
           [Script.said "Breakneck by Dan Wang"]
           (lit "https://example.com/dune")).
  vm_compute. now left.
Defined.

(** ** The documented message formats *)

Section RoundTrip.

Import SyncBooks Formats.

Lemma starts_app_cases (ic : bool) (p : jsstring) :
  forall t s,
    starts ic p (t ++ s) = true ->
    starts ic p t = true
    \/ (length t < length p /\ starts ic (skipn (length t) p) s = true).
Proof.
  induction p as [|c p IH]; intros t s H; [now left|].
  destruct t as [|x t].
  - right. split; [simpl; lia | exact H].
  - simpl in H. apply andb_true_iff in H as [Hc H].
    destruct (IH t s H) as [Ht | [Hl Hs]].
    + left. simpl. now rewrite Hc, Ht.
    + right. split; [simpl; lia | exact Hs].
Qed.

Lemma starts_app_l (ic : bool) (p q s : jsstring) :
  starts ic p q = true -> starts ic p (q ++ s) = true.
Proof.
  revert q; induction p as [|c p IH]; intros [|x q] H; simpl in *;
    try reflexivity; try discriminate.
  apply andb_true_iff in H as [-> H]. now apply IH.
Qed.

(** No prefix pattern can end in the middle of " by". *)
Lemma prefix_not_over_by (p : jsstring) (n : nat) (a : jsstring) :
  In p prefixes -> n < length p ->
  starts true (skipn n p) (lit " by " ++ a) = false.
Proof.
  intros Hp Hn. unfold prefixes in Hp.
  destruct Hp as [<- | [<- | [<- | [<- | []]]]].
  - do 2 (destruct n as [|n]; [reflexivity|]). simpl in Hn. lia.
  - do 18 (destruct n as [|n]; [reflexivity|]). simpl in Hn. lia.
  - do 8 (destruct n as [|n]; [reflexivity|]). simpl in Hn. lia.
  - do 12 (destruct n as [|n]; [reflexivity|]). simpl in Hn. lia.
Qed.

Lemma strip_miss (p s : jsstring) : starts true p s = false -> strip_prefix p s = s.
Proof. intros H. unfold strip_prefix. now rewrite H. Qed.

Lemma strip_hit (p q : jsstring) (c : cu) (s : jsstring) :
  starts true p q = true -> length q = length p -> isSpace c = false ->
  strip_prefix p (q ++ lit " " ++ c :: s) = c :: s.
Proof.
  intros H L Hc. unfold strip_prefix. rewrite (starts_app_l _ _ _ _ H).
  rewrite skipn_app, <- L, skipn_all, Nat.sub_diag. cbn [skipn app lit].
  simpl. now rewrite Hc.
Qed.

Lemma hasByWord_found (pre : jsstring) (c0 b y c1 : cu) (post : jsstring) :
  isSpace c0 = true -> is_by b y = true -> isSpace c1 = true ->
  hasByWord (pre ++ c0 :: b :: y :: c1 :: post) = true.
Proof.
  intros H0 Hb H1. induction pre as [|x pre IH].
  - simpl. now rewrite H0, Hb, H1.
  - cbn [app hasByWord]. rewrite IH. apply orb_true_r.
Qed.

Lemma is_by_y (b y : cu) : is_by b y = true -> isSpace y = false.
Proof.
  unfold is_by. intros H. apply andb_true_iff in H as [_ H].
  unfold char_matches in H. change (true && (121 <? 128)%N)%bool with true in H.
  cbn [andb] in H. destruct (y <? 128)%N eqn:Ly.
  - change (asciiUpper 121%N) with 89%N in H. unfold asciiUpper in H.
    destruct ((97 <=? y)%N && (y <=? 122)%N) eqn:R; apply N.eqb_eq in H.
    + apply andb_true_iff in R as [R1 R2]. apply N.leb_le in R1, R2.
      assert (y = 121%N) by lia. now subst.
    + now subst.
  - apply N.eqb_eq in H. now subst.
Qed.

(** In "t by a", with [t] as below, no split has a shorter title part. *)
Lemma title_by_author_shortest (t a t' a' : jsstring) (l : cu) (t0 : jsstring) :
  t = t0 ++ [l] -> isSpace l = false ->
  hasByWord (t ++ lit " ") = false ->
  by_split (t ++ lit " by " ++ a) t' a' ->
  length t <= length t'.
Proof.
  intros Et Hl Hby (w1 & b & y & w2 & E & _ & _ & Hw1 & Sw1 & By & Hw2 & Sw2 & _ & _).
  destruct (Nat.le_gt_cases (length t) (length t')) as [Hle | Hlt]; [exact Hle|].
  exfalso.
  apply app_eq_app in E as (r & [[E1 E2] | [E1 E2]]).
  2:{ apply (f_equal (@length cu)) in E1. rewrite length_app in E1. lia. }
  (* t = t' ++ r *)
  assert (Hr : r <> []).
  { intros ->. rewrite app_nil_r in E1. subst. lia. }
  assert (Er : exists r0, r = r0 ++ [l]).
  { destruct (exists_last Hr) as (r0 & l' & ->).
    rewrite Et, app_assoc in E1. apply app_inj_tail in E1 as [_ ->]. now exists r0. }
  destruct Er as (r0 & ->).
  pose proof (is_by_not_space b y By) as Hb.
  pose proof (is_by_y b y By) as Hy.
  symmetry in E2. apply app_eq_app in E2 as (z & [[E3 E4] | [E3 E4]]).
  - (* r0 ++ [l] = w1 ++ z *)
    destruct z as [|zb z].
    + simpl in E4. injection E4 as -> _. discriminate.
    + simpl in E4. injection E4 as <- E4.
      destruct z as [|zy z].
      * simpl in E4. injection E4 as -> _. discriminate.
      * simpl in E4. injection E4 as <- E4.
        destruct w2 as [|c1 w2]; [congruence|].
        simpl in Sw2. apply andb_true_iff in Sw2 as [Hc1 _].
        destruct (exists_last Hw1) as (w0 & c0 & ->).
        rewrite forallb_app in Sw1. simpl in Sw1.
        apply andb_true_iff in Sw1 as [_ Sw1]. rewrite andb_true_r in Sw1.
        assert (Ez : exists q, z ++ lit " " = c1 :: q).
        { destruct z as [|c z].
          - simpl in E4. injection E4 as -> _. now exists [].
          - simpl in E4. injection E4 as -> _. now exists (z ++ lit " "). }
        destruct Ez as (q & Ez).
        assert (Ebig : t ++ lit " " = (t' ++ w0) ++ c0 :: b :: y :: c1 :: q).
        { rewrite E1, E3, <- !app_assoc. cbn [app]. now rewrite Ez. }
        rewrite Ebig, hasByWord_found in Hby by assumption. discriminate.
  - (* w1 = (r0 ++ [l]) ++ z *)
    rewrite E3, !forallb_app in Sw1. simpl in Sw1. rewrite Hl in Sw1.
    rewrite andb_false_r in Sw1. discriminate.
Qed.

(** X13 -- A message in one of the documented formats is parsed as it is
    meant: after any of the six beginnings (nothing, the book emoji, "Currently
    reading: ", "Reading: ", "Now reading: ", the emoji and "Currently
    reading: "), the text "Title by Author" gives that title and that author
    -- of whatever length --, provided both are not empty, have no white space
    at either end and no line terminator, the title does not itself begin
    with one of the four prefixes, and the title has no "by" between white
    space (or after a white space, at its end). *)
Theorem X13_documented_formats_are_parsed :
  forall (intro t a : jsstring),
    In intro beginnings ->
    t <> [] -> trim t = t -> forallb notLT t = true ->
    a <> [] -> trim a = a -> forallb notLT a = true ->
    (forall p, In p prefixes -> starts true p t = false) ->
    hasByWord (t ++ lit " ") = false ->
    parseBookFromMessage (intro ++ t ++ lit " by " ++ a)
    = Some {| title := t; author := Some a; isbn := None |}.
Proof.
  intros intro t a Hin Ht Tt Lt Ha Ta La Hp Hby.
  remember (t ++ lit " by " ++ a) as body eqn:Ebody.
  (* the ends of the title and of the author *)
  assert (Et : exists c t1, t = c :: t1) by (destruct t; [congruence | eauto]).
  destruct Et as (c & t1 & Et).
  assert (Hc : isSpace c = false).
  { apply (trim_head t c t1). now rewrite Tt. }
  destruct (exists_last Ht) as (t0 & l & Et0).
  assert (Hl : isSpace l = false).
  { apply (trim_last t t0 l). now rewrite Tt. }
  destruct (exists_last Ha) as (a0 & la & Ea0).
  assert (Hla : isSpace la = false).
  { apply (trim_last a a0 la). now rewrite Ta. }
  assert (Htrim : trim body = body).
  { rewrite Ebody, Et. cbn [app].
    apply (trim_fixed c _ la Hc Hla (t ++ lit " by " ++ a0)).
    rewrite Et, Ea0. cbn [app]. now rewrite <- !app_assoc. }
  (* the prefixes leave the body alone *)
  assert (Hmiss : forall p, In p prefixes -> strip_prefix p body = body).
  { intros p Hpin. apply strip_miss. rewrite Ebody.
    destruct (starts true p (t ++ lit " by " ++ a)) eqn:S; [|reflexivity].
    apply starts_app_cases in S as [S | [Sl S]].
    - now rewrite (Hp p Hpin) in S.
    - now rewrite (prefix_not_over_by p (length t) a Hpin Sl) in S. }
  assert (M1 := Hmiss book_emoji (or_introl eq_refl)).
  assert (M2 := Hmiss (lit "currently reading:") (or_intror (or_introl eq_refl))).
  assert (M3 := Hmiss (lit "reading:") (or_intror (or_intror (or_introl eq_refl)))).
  assert (M4 := Hmiss (lit "now reading:")
                  (or_intror (or_intror (or_intror (or_introl eq_refl))))).
  (* a prefix and the space after it go *)
  assert (Hhit : forall p q,
             starts true p q = true -> length q = length p ->
             strip_prefix p (q ++ lit " " ++ body) = body).
  { intros p q S L. rewrite Ebody, Et. cbn [app]. now apply strip_hit. }
  assert (Hclean : cleanText (intro ++ body) = body).
  { rewrite cleanText_spec. unfold beginnings in Hin.
    destruct Hin as [<- | [<- | [<- | [<- | [<- | [<- | []]]]]]].
    - cbn [app]. now rewrite M1, M2, M3, M4.
    - rewrite <- app_assoc.
      rewrite (Hhit book_emoji book_emoji eq_refl eq_refl).
      now rewrite M2, M3, M4.
    - rewrite (strip_miss book_emoji) by reflexivity.
      change (lit "Currently reading: " ++ body)
        with (lit "Currently reading:" ++ lit " " ++ body).
      rewrite (Hhit (lit "currently reading:") (lit "Currently reading:") eq_refl eq_refl).
      now rewrite M3, M4.
    - rewrite (strip_miss book_emoji) by reflexivity.
      rewrite (strip_miss (lit "currently reading:")) by reflexivity.
      change (lit "Reading: " ++ body) with (lit "Reading:" ++ lit " " ++ body).
      rewrite (Hhit (lit "reading:") (lit "Reading:") eq_refl eq_refl).
      now rewrite M4.
    - rewrite (strip_miss book_emoji) by reflexivity.
      rewrite (strip_miss (lit "currently reading:")) by reflexivity.
      rewrite (strip_miss (lit "reading:")) by reflexivity.
      change (lit "Now reading: " ++ body) with (lit "Now reading:" ++ lit " " ++ body).
      now rewrite (Hhit (lit "now reading:") (lit "Now reading:") eq_refl eq_refl).
    - change ((book_emoji ++ lit " Currently reading: ") ++ body)
        with (book_emoji ++ lit " "
                ++ 67%N :: lit "urrently reading:" ++ lit " " ++ body).
      rewrite (strip_hit book_emoji book_emoji 67%N _ eq_refl eq_refl eq_refl).
      change (67%N :: lit "urrently reading:" ++ lit " " ++ body)
        with (lit "Currently reading:" ++ lit " " ++ body).
      rewrite (Hhit (lit "currently reading:") (lit "Currently reading:") eq_refl eq_refl).
      now rewrite M3, M4. }
  rewrite <- Tt at 1. rewrite <- Ta at 1.
  apply parse_split; rewrite Hclean, Ebody.
  - exists (lit " "), 98%N, 121%N, (lit " ").
    repeat split; try assumption; try discriminate; reflexivity.
  - intros t' a' Hs. eapply title_by_author_shortest; eassumption.
Qed.

End RoundTrip.

(** ** The script that fetches the reading list *)

Section Mention.

Import ReadingList.

(** The pattern is anchored: it matches at index 0 or not at all. *)
Lemma mention_not_later (s : jsstring) :
  forall i, 0 < i -> matches_from mentionRegex i s = false.
Proof.
  induction s as [|x s IH]; intros i Hi; cbn [matches_from];
    unfold mentionRegex at 1; rewrite rmatch_Cat; cbn [rmatch pos];
    destruct i as [|i]; try lia; cbn [Nat.eqb]; [reflexivity|].
  apply IH. lia.
Qed.

Lemma mention_at_start (s : jsstring) :
  matches_from mentionRegex 0 s
  = match mentionRegex (MState 0 s []) (fun st => Some st) with
    | Some _ => true
    | None => false
    end.
Proof.
  destruct s as [|x s]; cbn [matches_from];
    destruct (mentionRegex _ _); try reflexivity.
  apply mention_not_later. lia.
Qed.

(** /^<@U[A-Z0-9]+>/ matches the texts that begin with "<@U", one or more
    capital letters or digits, and ">". *)
Lemma mention_spec (s : jsstring) :
  matches_from mentionRegex 0 s = true
  <-> exists id rest,
        s = lit "<@U" ++ id ++ lit ">" ++ rest
        /\ id <> [] /\ forallb isIdChar id = true.
Proof.
  rewrite mention_at_start. unfold mentionRegex. rewrite rmatch_Cat.
  cbn [rmatch pos Nat.eqb]. split.
  - destruct (rmatch false (Lit (lit "<@U")) _ _) as [res|] eqn:E; [|discriminate].
    intros _. apply rmatch_Lit_inv in E as (s1 & -> & E).
    unfold one at 1 in E. cbn [rest pos caps] in E.
    destruct s1 as [|x s1]; [discriminate|].
    destruct (isIdChar x) eqn:Hx; [|discriminate].
    rewrite many_greedy_one in E. cbn [rest pos caps] in E.
    apply greedy_scan_Some in E as (n & Hn & Hp & Hk & _).
    unfold after in Hk. apply rmatch_Lit_inv in Hk as (s2 & Es & _).
    exists (x :: firstn n s1), s2. split; [|split].
    + cbn [app]. do 4 f_equal. rewrite <- Es. now rewrite firstn_skipn.
    + discriminate.
    + simpl. now rewrite Hx, Hp.
  - intros (id & post & -> & Hid & Hp).
    destruct id as [|x id]; [congruence|].
    simpl in Hp. apply andb_true_iff in Hp as [Hx Hp].
    rewrite rmatch_Lit_exact. unfold one at 1. cbn [rest pos caps app].
    rewrite Hx, many_greedy_one. cbn [rest pos caps].
    change (lit ">" ++ post) with (62%N :: post).
    erewrite greedy_run; [reflexivity | exact Hp | reflexivity |].
    change (62%N :: post) with (lit ">" ++ post).
    rewrite rmatch_Lit_exact. reflexivity.
Qed.

End Mention.

Section Reading.

Import ReadingList.

Variable toLowerCase : jsstring -> jsstring.
Variable Number_toString : N -> jsstring.
Variable World : Type.
Variable slack_history : World -> World * SlackReply.
Variable openlibrary_search : World -> jsstring -> World * SearchReply.
Variable fs_write : World -> Write.

Abbreviation extractLoop := (extractLoop toLowerCase Number_toString openlibrary_search).
Abbreviation extractBooks := (extractBooks toLowerCase Number_toString openlibrary_search).
Abbreviation main :=
  (main toLowerCase Number_toString slack_history openlibrary_search fs_write).

Lemma parsedBooks_filter_cons (m : Message) (messages : list Message) :
  SyncBooks.parsedBooks (filter (fun m => negb (systemLike m)) (m :: messages))
  = (if negb (systemLike m) && SyncBooks.eligible m
     then match SyncBooks.parseBookFromMessage (or_empty (text m)) with
          | Some book => [book]
          | None => []
          end
     else [])
    ++ SyncBooks.parsedBooks (filter (fun m => negb (systemLike m)) messages).
Proof.
  cbn [filter]. destruct (negb (systemLike m)); reflexivity.
Qed.

Lemma reading_loop (messages : list Message) :
  forall (w : World) (books : list Entry) (seen : list jsstring),
    map named (snd (extractLoop messages w books seen))
    = map named books
      ++ map asNamed
           (keep_new (SyncBooks.bookKey toLowerCase) seen
              (SyncBooks.parsedBooks (filter (fun m => negb (systemLike m)) messages)))
    /\ (forall e, In e (snd (extractLoop messages w books seen)) ->
                  In e books \/ link e = None).
Proof.
  induction messages as [|m messages IH]; intros w books seen.
  - cbn. rewrite app_nil_r. auto.
  - rewrite parsedBooks_filter_cons. cbn [ReadingList.extractLoop].
    unfold systemLike, SyncBooks.eligible.
    destruct (includes (or_empty (text m)) (lit "http://")
              || includes (or_empty (text m)) (lit "https://"));
      [rewrite andb_false_r; apply IH|].
    destruct (truthy (bot_id m) || truthy (thread_ts m));
      [rewrite andb_false_r; apply IH|].
    destruct (truthy (subtype m)); [rewrite andb_false_r; apply IH|].
    destruct (matches_from mentionRegex 0 (or_empty (text m))
              || includes (or_empty (text m)) (lit "has joined")); [apply IH|].
    cbn [negb andb].
    destruct (SyncBooks.parseBookFromMessage (or_empty (text m))) as [b|];
      [|apply IH].
    cbn [app keep_new].
    destruct (arr_includes seen (SyncBooks.bookKey toLowerCase b)); [apply IH|].
    destruct (fetchBookCover Number_toString openlibrary_search w
                (SyncBooks.title b) (SyncBooks.author b)) as [w1 image].
    destruct (IH w1
                (books ++ [{| title := SyncBooks.title b;
                              author := authorOrUnknown (SyncBooks.author b);
                              image := image; link := None |}])
                (seen ++ [SyncBooks.bookKey toLowerCase b])) as [I1 I2].
    split.
    + rewrite I1, map_app, <- app_assoc. reflexivity.
    + intros e He. apply I2 in He as [He | He]; [|now right].
      apply in_app_or in He as [He | [<- | []]]; [now left | now right].
Qed.

(** The query of the cover search for a book. *)
Lemma fetchBookCover_logged (w : World) (log : list Traced.Request) (t : jsstring)
    (a : option jsstring) :
  fetchBookCover Number_toString (Traced.cover_search' openlibrary_search) (w, log) t a
  = let '(w1, image) := fetchBookCover Number_toString openlibrary_search w t a in
    ((w1, log ++ map Traced.GetOpenLibrary
                   (filter isWellFormed [t ++ lit " " ++ or_empty a])),
     image).
Proof.
  unfold fetchBookCover, Traced.cover_search', Traced.logging. cbn [fst snd filter].
  destruct (isWellFormed (t ++ lit " " ++ or_empty a)); cbn [negb map];
    [|now rewrite app_nil_r].
  destruct (openlibrary_search w _) as [w1 [|[[|doc docs]|]]]; try reflexivity.
  destruct (cover_i doc) as [n|]; [|reflexivity].
  now destruct (n =? 0)%N.
Qed.

(** The same loop on the logged world. *)
Lemma reading_loop_logged (messages : list Message) :
  forall (w : World) (log : list Traced.Request) (books : list Entry)
         (seen : list jsstring),
    ReadingList.extractLoop toLowerCase Number_toString
      (Traced.cover_search' openlibrary_search) messages (w, log) books seen
    = let '(w1, books1) := extractLoop messages w books seen in
      ((w1,
        log ++ map Traced.GetOpenLibrary
                 (filter isWellFormed
                    (map coverQuery
                       (keep_new (SyncBooks.bookKey toLowerCase) seen
                          (SyncBooks.parsedBooks
                             (filter (fun m => negb (systemLike m)) messages)))))),
       books1).
Proof.
  induction messages as [|m messages IH]; intros w log books seen.
  - cbn. now rewrite app_nil_r.
  - rewrite parsedBooks_filter_cons. cbn [ReadingList.extractLoop].
    unfold systemLike, SyncBooks.eligible.
    destruct (includes (or_empty (text m)) (lit "http://")
              || includes (or_empty (text m)) (lit "https://"));
      [rewrite andb_false_r; apply IH|].
    destruct (truthy (bot_id m) || truthy (thread_ts m));
      [rewrite andb_false_r; apply IH|].
    destruct (truthy (subtype m)); [rewrite andb_false_r; apply IH|].
    destruct (matches_from mentionRegex 0 (or_empty (text m))
              || includes (or_empty (text m)) (lit "has joined")); [apply IH|].
    cbn [negb andb].
    destruct (SyncBooks.parseBookFromMessage (or_empty (text m))) as [b|];
      [|apply IH].
    cbn [app keep_new].
    destruct (arr_includes seen (SyncBooks.bookKey toLowerCase b)); [apply IH|].
    rewrite fetchBookCover_logged.
    destruct (fetchBookCover Number_toString openlibrary_search w
                (SyncBooks.title b) (SyncBooks.author b)) as [w1 image].
    rewrite IH.
    destruct (extractLoop messages w1 _ _) as [w2 books2].
    rewrite <- app_assoc. cbn [map filter]. unfold coverQuery at 2.
    fold (systemLike).
    destruct (isWellFormed (SyncBooks.title b ++ lit " " ++ or_empty (SyncBooks.author b)));
      reflexivity.
Qed.

(** X11 -- The script that fetches the reading list and the book sync
    script find the same books.  The titles and authors of the entries of
    [reading.json] are those of the books that the sync script extracts from
    the same messages without the ones that the reading script sets aside in
    addition (a text that begins with a user mention "<@U...>" or that
    contains "has joined"), in the same order and with the same rule for
    duplicates; the author "Unknown" stands for a missing author, and no
    entry has a link.  One cover is searched at Open Library for each entry,
    in order, with the query "title author" -- unless the query has a lone
    surrogate, on which [encodeURIComponent] throws --, and there is no other
    request. *)
Theorem X11_reading_list_agrees_with_book_sync :
  forall (w : World) (messages : list Message),
    let kept := filter (fun m => negb (systemLike m)) messages in
    map named (snd (extractBooks w messages))
    = map asNamed (SyncBooks.extractBooks toLowerCase kept)
    /\ (forall e, In e (snd (extractBooks w messages)) -> link e = None)
    /\ snd (fst (ReadingList.extractBooks toLowerCase Number_toString
                   (Traced.cover_search' openlibrary_search) (w, []) messages))
       = map Traced.GetOpenLibrary
           (filter isWellFormed
              (map coverQuery (SyncBooks.extractBooks toLowerCase kept)))
    /\ (forall m,
          systemLike m = true
          <-> (exists id rest,
                 or_empty (text m) = lit "<@U" ++ id ++ lit ">" ++ rest
                 /\ id <> [] /\ forallb isIdChar id = true)
              \/ includes (or_empty (text m)) (lit "has joined") = true).
Proof.
  intros w messages kept. subst kept.
  rewrite extractBooks_spec, first_occurrences_keep_new.
  unfold ReadingList.extractBooks.
  destruct (reading_loop messages w [] []) as [L1 L2].
  split; [exact L1|]. split; [|split].
  - intros e He. now apply L2 in He as [[] | He].
  - rewrite reading_loop_logged.
    destruct (extractLoop messages w [] []) as [w1 books1]. reflexivity.
  - intros m. unfold systemLike. rewrite orb_true_iff. now rewrite mention_spec.
Qed.

(** X12 -- How a run of the script that fetches the reading list ends,
    and what becomes of [reading.json].  When Slack answers with [ok] false,
    no cover is searched and the run gets to the write: if the write goes
    through, the run resolves and the file holds an empty list of books; if
    the file cannot be opened for writing, the promise rejects and the file
    is as it was.  When the request to Slack fails or its body is not JSON,
    the promise rejects and the file is as it was.  When a required setting
    is missing, Slack is not asked and there is no error exit: without
    "--sample" among the arguments the run resolves without any request and
    the file is as it was; with it, either the run resolves and the file
    holds the two sample books, whatever covers are found, or the write
    throws and the promise rejects. *)
Theorem X12_reading_list_run :
  forall (env : Env) (now : jsstring) (w : World) (f : file Output),
    (truthy (SLACK_BOT_TOKEN env) = true ->
     truthy (SLACK_READING_CHANNEL_ID env) = true ->
     forall w1 ms,
       slack_history w = (w1, SlackData false ms) ->
       (fs_write w1 = Written ->
        main env now w f
        = ({| world := w1;
              disk := Holds (Document {| updated := now; books := [] |}) |}, Resolved))
       /\ (fs_write w1 = ThrowsUnopened ->
           main env now w f = ({| world := w1; disk := f |}, Rejected)))
    /\ (truthy (SLACK_BOT_TOKEN env) = true ->
        truthy (SLACK_READING_CHANNEL_ID env) = true ->
        forall w1,
          slack_history w = (w1, SlackFetchRejects)
          \/ slack_history w = (w1, SlackBodyNotJson) ->
          main env now w f = ({| world := w1; disk := f |}, Rejected))
    /\ (truthy (SLACK_BOT_TOKEN env) = false
        \/ truthy (SLACK_READING_CHANNEL_ID env) = false ->
        arr_includes (argv env) (lit "--sample") = false ->
        main env now w f = ({| world := w; disk := f |}, Resolved))
    /\ (truthy (SLACK_BOT_TOKEN env) = false
        \/ truthy (SLACK_READING_CHANNEL_ID env) = false ->
        arr_includes (argv env) (lit "--sample") = true ->
        forall r e,
          main env now w f = (r, e) ->
          (e = Resolved
           /\ exists out,
                disk r = Holds (Document out)
                /\ updated out = now
                /\ map named (books out)
                   = [(lit "Breakneck", lit "Dan Wang");
                      (lit "The Design of Everyday Things", lit "Don Norman")]
                /\ map link (books out) = [None; None])
          \/ (e = Rejected /\ fs_write (world r) <> Written)).
Proof.
  intros env now w f. unfold ReadingList.main, fetchSlackMessages.
  split; [|split; [|split]].
  - intros H1 H2 w1 ms Hs. rewrite H1, H2, Hs. cbn.
    split; intros Hw; now rewrite Hw.
  - intros H1 H2 w1 [Hs | Hs]; now rewrite H1, H2, Hs.
  - intros [H | H] Ha; rewrite H, Ha; cbn; [reflexivity|].
    now rewrite orb_true_r.
  - intros H Ha r e.
    assert (E : negb (truthy (SLACK_BOT_TOKEN env))
                || negb (truthy (SLACK_READING_CHANNEL_ID env)) = true).
    { destruct H as [H | H]; rewrite H; cbn; [reflexivity | apply orb_true_r]. }
    rewrite E, Ha. unfold sampleBooks. cbn [sampleLoop].
    destruct (fetchBookCover Number_toString openlibrary_search w _ _) as [w1 i1].
    destruct (fetchBookCover Number_toString openlibrary_search w1 _ _) as [w2 i2].
    destruct (fs_write w2) eqn:Hw; cbn [writeFileSync]; intros R; injection R as <- <-;
      cbn [world disk].
    + left. split; [reflexivity|]. eexists. split; [reflexivity|]. repeat split.
    + right. split; [reflexivity|]. congruence.
    + right. split; [reflexivity|]. congruence.
Qed.

End Reading.

(** ** Every link of a message *)

Section Markup.

Import SlackMarkup.

Lemma links_compose (parts : list (jsstring * Link)) (tail : jsstring) :
  forallb (fun p => plain (fst p) && wellFormed (snd p)) parts = true ->
  plain tail = true ->
  SyncBookmarks.links (compose parts tail) = map (fun p => url (snd p)) parts.
Proof.
  intros Hp Ht. induction parts as [|[before l] parts IH]; cbn [compose map].
  - now apply links_none.
  - cbn [forallb fst snd] in Hp.
    apply andb_true_iff in Hp as [Hl Hp]. apply andb_true_iff in Hl as [Hb Hw].
    unfold wellFormed in Hw. apply andb_true_iff in Hw as [Hu Hlab].
    rewrite <- (IH Hp). unfold markup, url, http_url.
    destruct (label l) as [|y lab].
    + now apply links_cons_angled.
    + now apply links_cons.
Qed.

(** X15 -- Every link of a message is found.  Let a text be made of
    links in Slack's markup, [<url>] or [<url|label>], with http or https
    urls that have neither ">" nor "|" after the scheme and labels without
    ">", each after some text without "<", and of a last piece of text
    without "<".  Then the links that the bookmark script finds in it are the
    urls of these links, all of them, in order; and from a message with this
    text it extracts those that do not contain "slack.com", each once, in
    the order of their first occurrence. *)
Theorem X15_every_link_of_a_message_is_found :
  forall (parts : list (jsstring * Link)) (tail : jsstring) (msg : Message),
    forallb (fun p => plain (fst p) && wellFormed (snd p)) parts = true ->
    plain tail = true ->
    or_empty (text msg) = compose parts tail ->
    SyncBookmarks.links (or_empty (text msg)) = map (fun p => url (snd p)) parts
    /\ SyncBookmarks.extractUrls [msg]
       = first_occurrences (fun u => u)
           (filter (fun u => negb (includes u (lit "slack.com")))
                   (map (fun p => url (snd p)) parts)).
Proof.
  intros parts tail msg Hp Ht E.
  assert (L : SyncBookmarks.links (or_empty (text msg)) = map (fun p => url (snd p)) parts)
    by (rewrite E; now apply links_compose).
  split; [exact L|].
  rewrite extractUrls_spec. unfold SyncBookmarks.candidateUrls, SyncBookmarks.keptLinks.
  cbn [flat_map]. now rewrite app_nil_r, L.
Qed.

Lemma X15_every_link_of_a_message_is_found_witness :
  SyncBookmarks.links
    (lit "read <https://example.com/a|A>, <http://example.com/b> and <https://example.com/a>!")
  = [lit "https://example.com/a"; lit "http://example.com/b"; lit "https://example.com/a"]
  /\ SyncBookmarks.extractUrls
       [Script.said
          "read <https://example.com/a|A>, <http://example.com/b> and <https://example.com/a>!"]
     = [lit "https://example.com/a"; lit "http://example.com/b"].
Proof.
  apply (X15_every_link_of_a_message_is_found
           [(lit "read ",
             {| secure := true; first := 101%N; more := lit "xample.com/a"; label := lit "A" |});
            (lit ", ",
             {| secure := false; first := 101%N; more := lit "xample.com/b"; label := [] |});
            (lit " and ",
             {| secure := true; first := 101%N; more := lit "xample.com/a"; label := [] |})]
           (lit "!")
           (Script.said
              "read <https://example.com/a|A>, <http://example.com/b> and <https://example.com/a>!"));
    reflexivity.
Defined.

End Markup.

(** ** The properties on the scripted world *)

Lemma X3_bookmark_run_requests_witness :
  snd (SyncBookmarks.world
         (fst (SyncBookmarks.main (Traced.slack_history' Script.slack_history)
                 (Traced.micropub' Script.post) (Traced.fs_write' Script.fs_write)
                 Script.bookmarkEnv Script.later (Script.secondRefused, []) Script.earlier)))
  = [Traced.GetSlackHistory;
     Traced.PostMicropub [(lit "h", lit "entry"); (lit "bookmark-of", lit "https://example.com/b")];
     Traced.PostMicropub [(lit "h", lit "entry"); (lit "bookmark-of", lit "https://example.com/c")]]
  /\ ~ In (Traced.PostMicropub (SyncBookmarks.bookmarkParams (lit "https://example.com/a")))
          (snd (SyncBookmarks.world
                  (fst (SyncBookmarks.main (Traced.slack_history' Script.slack_history)
                          (Traced.micropub' Script.post) (Traced.fs_write' Script.fs_write)
                          Script.bookmarkEnv Script.later (Script.secondRefused, [])
                          Script.earlier)))).
Proof.
  pose proof (X3_bookmark_run_requests Script.World Script.slack_history Script.post
                Script.fs_write
                Script.bookmarkEnv Script.later Script.secondRefused Script.earlier)
    as (_ & _ & _ & _ & E & H).
  split.
  - rewrite E. reflexivity.
  - apply H. vm_compute. now left.
Defined.

Lemma X4_unresolved_runs_witness :
  ((SyncBookmarks.disk
      (fst (SyncBookmarks.main (Traced.slack_history' Script.slack_history)
              (Traced.micropub' Script.post) (Traced.fs_write' Script.fs_write)
              Script.bookmarkEnv Script.later (Script.slackGarbled, []) Script.earlier))
    = Script.earlier
    /\ forallb (fun q => negb (Traced.isPost q))
         (snd (SyncBookmarks.world
                 (fst (SyncBookmarks.main (Traced.slack_history' Script.slack_history)
                         (Traced.micropub' Script.post) (Traced.fs_write' Script.fs_write)
                         Script.bookmarkEnv Script.later (Script.slackGarbled, [])
                         Script.earlier))))
       = true)
   \/ (Rejected = Rejected
       /\ Script.fs_write
            (fst (SyncBookmarks.world
                    (fst (SyncBookmarks.main (Traced.slack_history' Script.slack_history)
                            (Traced.micropub' Script.post)
                            (Traced.fs_write' Script.fs_write)
                            Script.bookmarkEnv Script.later (Script.slackGarbled, [])
                            Script.earlier))))
          <> Written))
  /\ ((SyncBookmarks.disk
         (fst (SyncBookmarks.main (Traced.slack_history' Script.slack_history)
                 (Traced.micropub' Script.post) (Traced.fs_write' Examples.readOnly)
                 Script.bookmarkEnv Script.later (Script.secondRefused, []) Script.earlier))
       = Script.earlier
       /\ forallb (fun q => negb (Traced.isPost q))
            (snd (SyncBookmarks.world
                    (fst (SyncBookmarks.main (Traced.slack_history' Script.slack_history)
                            (Traced.micropub' Script.post)
                            (Traced.fs_write' Examples.readOnly)
                            Script.bookmarkEnv Script.later (Script.secondRefused, [])
                            Script.earlier))))
          = true)
      \/ (Rejected = Rejected
          /\ Examples.readOnly
               (fst (SyncBookmarks.world
                       (fst (SyncBookmarks.main (Traced.slack_history' Script.slack_history)
                               (Traced.micropub' Script.post)
                               (Traced.fs_write' Examples.readOnly)
                               Script.bookmarkEnv Script.later (Script.secondRefused, [])
                               Script.earlier))))
             <> Written)).
Proof.
  split.
  - apply (proj1 (X4_unresolved_runs Script.toLowerCase Script.World
                    Script.slack_history Script.post Script.openlibrary_search
                    Script.bookshelves Script.post Script.fs_write)
             Script.bookmarkEnv Script.later Script.slackGarbled Script.earlier _ Rejected).
    + reflexivity.
    + discriminate.
  - apply (proj1 (X4_unresolved_runs Script.toLowerCase Script.World
                    Script.slack_history Script.post Script.openlibrary_search
                    Script.bookshelves Script.post Examples.readOnly)
             Script.bookmarkEnv Script.later Script.secondRefused Script.earlier _ Rejected).
    + vm_compute. reflexivity.
    + discriminate.
Defined.

Lemma X5_reported_count_is_the_number_of_new_keys_witness :
  exists s out n,
    SyncBooks.disk (fst (Script.book_main Script.bookEnv Script.later
                           Script.secondBookRefused Script.earlierBooks))
    = Holds (Document s)
    /\ SyncBooks.lastSync s = Some Script.later
    /\ SyncBooks.console (fst (Script.book_main Script.bookEnv Script.later
                                 Script.secondBookRefused Script.earlierBooks))
       = out ++ [SyncBooks.SyncedCount n]
    /\ length (SyncBooks.syncedBooks s)
       = length (SyncBooks.syncedBooks (SyncBooks.loadState Script.earlierBooks)) + n
    /\ length (SyncBooks.attempted
                 (SyncBooks.console (fst (Script.book_main Script.bookEnv Script.later
                                            Script.secondBookRefused Script.earlierBooks))))
       = n + length (SyncBooks.failed
                       (SyncBooks.console (fst (Script.book_main Script.bookEnv Script.later
                                                  Script.secondBookRefused
                                                  Script.earlierBooks)))).
Proof.
  apply (proj2 (X5_reported_count_is_the_number_of_new_keys Script.toLowerCase Script.World
                  Script.slack_history Script.post Script.openlibrary_search
                  Script.bookshelves Script.post Script.fs_write)
           Script.bookEnv Script.later Script.secondBookRefused Script.earlierBooks).
  reflexivity.
Defined.

Lemma X6_state_files_hold_distinct_keys_witness :
  NoDup (SyncBookmarks.syncedUrls
           (SyncBookmarks.loadState
              (SyncBookmarks.disk
                 (fst (Script.bookmark_main Script.bookmarkEnv Script.later
                         Script.secondRefused Absent))))).
Proof.
  apply (proj1 (X6_state_files_hold_distinct_keys Script.toLowerCase Script.World
                  Script.slack_history Script.post Script.openlibrary_search
                  Script.bookshelves Script.post Script.fs_write)).
  apply after_bookmark_run. apply no_bookmark_run.
Defined.

Lemma X9_book_run_requests_witness :
  snd (SyncBooks.world
         (fst (SyncBooks.sync Script.toLowerCase
                 (Traced.slack_history' Script.slack_history)
                 (Traced.openlibrary_search' Examples.oneVolume)
                 (Traced.books_post' Script.post)
                 (Traced.fs_write' Script.fs_write)
                 Script.shelf Script.later (Script.secondBookRefused, [])
                 Script.earlierBooks)))
  = [Traced.GetSlackHistory;
     Traced.GetOpenLibrary (lit "Breakneck Dan Wang");
     Traced.PostBook [(lit "title", lit "Breakneck"); (lit "author", lit "Dan Wang");
                      (lit "bookshelf_id", lit "7"); (lit "isbn", lit "9780593239506")];
     Traced.GetOpenLibrary (lit "Emma Jane Austen");
     Traced.PostBook [(lit "title", lit "Emma"); (lit "author", lit "Jane Austen");
                      (lit "bookshelf_id", lit "7"); (lit "isbn", lit "9780593239506")]].
Proof.
  pose proof (X9_book_run_requests Script.toLowerCase Script.World Script.slack_history
                Examples.oneVolume Script.post Script.fs_write
                Script.shelf Script.later Script.secondBookRefused Script.secondBookRefused
                Script.earlierBooks Script.bookMessages eq_refl)
    as (_ & _ & _ & _ & _ & E).
  rewrite E. vm_compute. reflexivity.
Defined.

Lemma X10_bookshelf_lookup_witness :
  SyncBooks.main Script.toLowerCase (Traced.slack_history' Script.slack_history)
    (Traced.openlibrary_search' Script.openlibrary_search)
    (Traced.bookshelves' Examples.threeShelves) (Traced.books_post' Script.post)
    (Traced.fs_write' Script.fs_write)
    Examples.noShelfId Script.later (Script.secondBookRefused, []) Script.earlierBooks
  = SyncBooks.sync Script.toLowerCase (Traced.slack_history' Script.slack_history)
      (Traced.openlibrary_search' Script.openlibrary_search)
      (Traced.books_post' Script.post) (Traced.fs_write' Script.fs_write)
      (Some (lit "12")) Script.later (Script.secondBookRefused, [Traced.GetBookshelves])
      Script.earlierBooks
  /\ forall body,
       In (Traced.PostBook body)
          (snd (SyncBooks.world
                  (fst (SyncBooks.main Script.toLowerCase
                          (Traced.slack_history' Script.slack_history)
                          (Traced.openlibrary_search' Script.openlibrary_search)
                          (Traced.bookshelves' Examples.threeShelves)
                          (Traced.books_post' Script.post)
                          (Traced.fs_write' Script.fs_write)
                          Examples.noShelfId Script.later (Script.secondBookRefused, [])
                          Script.earlierBooks)))) ->
       In (lit "bookshelf_id", lit "12") body.
Proof.
  apply (proj2 (proj2 (X10_bookshelf_lookup Script.toLowerCase Script.World
                         Script.slack_history Script.openlibrary_search
                         Examples.threeShelves Script.post Script.fs_write
                         Examples.noShelfId Script.later Script.secondBookRefused
                         Script.secondBookRefused Script.earlierBooks
                         (inr (Some [Examples.wantToRead; Examples.currentlyReading;
                                     Examples.audio]))
                         eq_refl eq_refl eq_refl eq_refl eq_refl))
           (Some [Examples.wantToRead; Examples.currentlyReading; Examples.audio])
           [Examples.wantToRead] Examples.currentlyReading [Examples.audio]).
  - reflexivity.
  - reflexivity.
  - intros s' [<- | []]. reflexivity.
  - reflexivity.
Defined.

Lemma X11_reading_list_agrees_with_book_sync_witness :
  map ReadingList.named
    (snd (ReadingList.extractBooks Script.toLowerCase Examples.Number_toString
            Examples.oneCover Script.slackNotOk Examples.readingMessages))
  = [(lit "Breakneck", lit "Dan Wang"); (lit "Dune", lit "Unknown")]
  /\ ReadingList.link
       {| ReadingList.title := lit "Breakneck"; ReadingList.author := lit "Dan Wang";
          ReadingList.image := Some (lit "https://covers.openlibrary.org/b/id/8231856-M.jpg");
          ReadingList.link := None |} = None.
Proof.
  pose proof (X11_reading_list_agrees_with_book_sync Script.toLowerCase
                Examples.Number_toString Script.World Examples.oneCover
                Script.slackNotOk Examples.readingMessages) as (E & L & _).
  split.
  - rewrite E. vm_compute. reflexivity.
  - apply L. vm_compute. now left.
Defined.

Lemma X12_reading_list_run_witness :
  Examples.reading_main Examples.readingEnv Script.later Script.slackNotOk Absent
  = ({| ReadingList.world := Script.slackNotOk;
        ReadingList.disk :=
          Holds (Document {| ReadingList.updated := Script.later;
                             ReadingList.books := [] |}) |},
     Resolved)
  /\ ReadingList.main Script.toLowerCase Examples.Number_toString Script.slack_history
       Examples.oneCover Examples.readOnly
       Examples.readingEnv Script.later Script.slackNotOk Absent
     = ({| ReadingList.world := Script.slackNotOk; ReadingList.disk := Absent |}, Rejected)
  /\ Examples.reading_main Examples.readingEnv Script.later Script.slackGarbled Absent
     = ({| ReadingList.world := Script.slackGarbled; ReadingList.disk := Absent |},
        Rejected).
Proof.
  split; [|split].
  - apply (proj1 (proj1 (X12_reading_list_run Script.toLowerCase Examples.Number_toString
                           Script.World Script.slack_history Examples.oneCover
                           Script.fs_write Examples.readingEnv Script.later
                           Script.slackNotOk Absent)
                    eq_refl eq_refl Script.slackNotOk None eq_refl)).
    reflexivity.
  - apply (proj2 (proj1 (X12_reading_list_run Script.toLowerCase Examples.Number_toString
                           Script.World Script.slack_history Examples.oneCover
                           Examples.readOnly Examples.readingEnv Script.later
                           Script.slackNotOk Absent)
                    eq_refl eq_refl Script.slackNotOk None eq_refl)).
    reflexivity.
  - apply (proj1 (proj2 (X12_reading_list_run Script.toLowerCase Examples.Number_toString
                           Script.World Script.slack_history Examples.oneCover
                           Script.fs_write Examples.readingEnv Script.later
                           Script.slackGarbled Absent))
             eq_refl eq_refl Script.slackGarbled).
    now right.
Defined.

Lemma X13_documented_formats_are_parsed_witness :
  SyncBooks.parseBookFromMessage
    ((SyncBooks.book_emoji ++ lit " Currently reading: ")
       ++ lit "The Design of Everyday Things" ++ lit " by " ++ lit "Don Norman")
  = Some {| SyncBooks.title := lit "The Design of Everyday Things";
            SyncBooks.author := Some (lit "Don Norman");
            SyncBooks.isbn := None |}.
Proof.
  apply X13_documented_formats_are_parsed.
  - unfold Formats.beginnings. do 5 right. now left.
  - discriminate.
  - reflexivity.
  - reflexivity.
  - discriminate.
  - reflexivity.
  - reflexivity.
  - intros p [<- | [<- | [<- | [<- | []]]]]; reflexivity.
  - reflexivity.
Defined.

Lemma X14_accepted_posts_without_json_witness :
  SyncBooks.disk
    (fst (SyncBooks.sync Script.toLowerCase Script.slack_history Script.openlibrary_search
            Examples.acceptsWithoutJson Script.fs_write Script.shelf Script.later
            Script.secondBookRefused Script.earlierBooks))
  = Holds (Document
      {| SyncBooks.syncedBooks := SyncBooks.syncedBooks (SyncBooks.loadState Script.earlierBooks);
         SyncBooks.lastSync := Some Script.later |})
  /\ SyncBooks.attempted
       (SyncBooks.console
          (fst (SyncBooks.sync Script.toLowerCase Script.slack_history
                  Script.openlibrary_search Examples.acceptsWithoutJson Script.fs_write
                  Script.shelf Script.later Script.secondBookRefused Script.earlierBooks)))
     = map SyncBooks.title
         (SyncBooks.newBooksOf Script.toLowerCase
            (SyncBooks.loadState Script.earlierBooks) Script.bookMessages)
  /\ SyncBooks.failed
       (SyncBooks.console
          (fst (SyncBooks.sync Script.toLowerCase Script.slack_history
                  Script.openlibrary_search Examples.acceptsWithoutJson Script.fs_write
                  Script.shelf Script.later Script.secondBookRefused Script.earlierBooks)))
     = map SyncBooks.title
         (SyncBooks.newBooksOf Script.toLowerCase
            (SyncBooks.loadState Script.earlierBooks) Script.bookMessages)
  /\ SyncBooks.newBooksOf Script.toLowerCase
       (SyncBooks.loadState
          (SyncBooks.disk
             (fst (SyncBooks.sync Script.toLowerCase Script.slack_history
                     Script.openlibrary_search Examples.acceptsWithoutJson Script.fs_write
                     Script.shelf Script.later Script.secondBookRefused
                     Script.earlierBooks))))
       Script.bookMessages
     = SyncBooks.newBooksOf Script.toLowerCase
         (SyncBooks.loadState Script.earlierBooks) Script.bookMessages.
Proof.
  apply (proj2 (X14_accepted_posts_without_json Script.toLowerCase Script.World
                  Script.slack_history Script.post Script.openlibrary_search
                  Examples.acceptsWithoutJson Script.fs_write)
           Script.shelf Script.later Script.secondBookRefused Script.earlierBooks
           Script.secondBookRefused Script.bookMessages).
  - intros w0 body. reflexivity.
  - reflexivity.
  - vm_compute. reflexivity.
Defined.
